(** * memAlpha: the memory storage engine ([src/memory_store.py]) and its
    request models ([src/models.py]), embedded in Rocq.

    Conventions of the embedding.
    - A Python [str] is a Rocq [string]; its characters are read as the code
      points U+0000..U+00FF.
    - A Python [dict] used as a map is a [gmap]; a ChromaDB collection keeps
      its records in a list, in the order in which they were added.
    - Python floats are idealised as rationals ([Q]).
    - The methods of [MemoryStore] run in a state-and-exception monad over a
      [world]: the persistent ChromaDB client, the log of calls made to the
      embedding provider, and a schedule saying which of the coming calls to
      the storage engine fail.
    - ChromaDB, the embedding provider, [json], [datetime] and [uuid] are not
      part of the repository.  The embedding provider, the JSON codec, the
      timestamp codec, the metadata filter and the nearest-neighbour index are
      parameters of the development; what is assumed of them is stated as a
      hypothesis of the theorem that needs it. *)

From Stdlib Require Import ZArith QArith Qminmax Lqa Ascii String DecimalN.
From stdpp Require Import base option list strings gmap.

Local Open Scope string_scope.
Local Open Scope list_scope.
Local Open Scope Z_scope.

(** ** Characters and strings *)

Module PyStr.

Definition code (c : ascii) : N := N_of_ascii c.

Definition in_range (lo hi : N) (c : ascii) : bool :=
  ((lo <=? code c) && (code c <=? hi))%N.

(** The complement of the regular expression class [[^a-zA-Z0-9_-]]. *)
Definition is_safe_char (c : ascii) : bool :=
  in_range 97 122 c || in_range 65 90 c || in_range 48 57 c
  || (code c =? 95)%N || (code c =? 45)%N.

(** [re.sub(r'[^a-zA-Z0-9_-]', '_', s)]. *)
Fixpoint re_sub_unsafe (s : string) : string :=
  match s with
  | EmptyString => EmptyString
  | String c s' =>
      String (if is_safe_char c then c else "_"%char) (re_sub_unsafe s')
  end.

(** [str.isspace] on one character, for the code points below U+0100. *)
Definition isspace (c : ascii) : bool :=
  in_range 9 13 c || in_range 28 32 c || (code c =? 133)%N || (code c =? 160)%N.

Fixpoint lstrip (s : string) : string :=
  match s with
  | EmptyString => EmptyString
  | String c s' => if isspace c then lstrip s' else s
  end.

Definition rev (s : string) : string :=
  string_of_list_ascii (List.rev (list_ascii_of_string s)).

(** [s.strip()]: leading and trailing whitespace removed. *)
Definition strip (s : string) : string := rev (lstrip (rev (lstrip s))).

(** Truth value of a [str]: the empty string is false. *)
Definition truthy (s : string) : bool :=
  match s with EmptyString => false | String _ _ => true end.

(** Every character is whitespace. *)
Fixpoint all_space (s : string) : bool :=
  match s with
  | EmptyString => true
  | String c s' => isspace c && all_space s'
  end.

(** Every character is in [[A-Za-z0-9_-]]. *)
Fixpoint all_safe (s : string) : bool :=
  match s with
  | EmptyString => true
  | String c s' => is_safe_char c && all_safe s'
  end.

(** Every character is in [[A-Za-z0-9-]]: safe, and no underscore. *)
Fixpoint all_plain (s : string) : bool :=
  match s with
  | EmptyString => true
  | String c s' => is_safe_char c && negb (code c =? 95)%N && all_plain s'
  end.

End PyStr.

(** ** Exceptions and outcomes *)

Inductive exn : Type :=
| ValidationError (errors : list (string * string)) (* pydantic: field, message *)
| KeyError (key : string)
| ValueError (what : string)   (* json.loads, datetime.fromisoformat *)
| ZeroDivisionError
| EmbeddingError               (* the provider's embed raised *)
| EngineError.                 (* ChromaDB raised *)

Inductive outcome (A : Type) : Type :=
| Return (a : A)
| Raise (e : exn).
Arguments Return {A} a.
Arguments Raise {A} e.

(** ** The collaborators of the engine, as interfaces *)

(** [src/embeddings.py], class [EmbeddingProvider]: the abstract properties
    and [embed]; [None] stands for a call that raises. *)
Class EmbeddingProvider (vector : Type) : Type := {
  provider_name : string;
  model_name : string;
  dimension : Z;
  embed : string -> option vector
}.

(** [json.dumps] and [json.loads] on [Dict[str, Any]]; [None] stands for a
    text [json.loads] rejects or that does not denote a mapping. *)
Class JsonCodec (json_obj : Type) : Type := {
  empty_dict : json_obj;
  json_dumps : json_obj -> string;
  json_loads : string -> option json_obj
}.

Class JsonCodecLaws `(JsonCodec json_obj) : Prop := {
  json_loads_dumps : forall m, json_loads (json_dumps m) = Some m;
  json_dumps_truthy : forall m, PyStr.truthy (json_dumps m) = true
}.

(** [datetime.isoformat] and [datetime.fromisoformat]. *)
Class DatetimeCodec (datetime : Type) : Type := {
  isoformat : datetime -> string;
  fromisoformat : string -> option datetime
}.

Class DatetimeCodecLaws `(DatetimeCodec datetime) : Prop := {
  fromisoformat_isoformat : forall t, fromisoformat (isoformat t) = Some t
}.

(** ** The persistent store *)

Section Store.

Context {vector json_obj datetime where_clause : Type}.

(** One ChromaDB record: id, embedding, document and metadata. *)
Record chroma_record : Type := {
  rec_id : string;
  rec_embedding : vector;
  rec_document : string;
  rec_metadata : gmap string string
}.

(** Values of a collection's own metadata. *)
Inductive meta_value : Type :=
| MStr (s : string)
| MInt (z : Z).

Record collection : Type := {
  col_metadata : gmap string meta_value;
  col_records : list chroma_record
}.

(** The nearest-neighbour index behind [collection.query]: the query
    vector, [n_results], the [where] clause and the collection's records
    give the matches with their distances, nearest first. *)
Class VectorIndex : Type := {
  where_truthy : where_clause -> bool;   (* truth value of the filter dict *)
  knn_query : vector -> Z -> option where_clause -> list chroma_record ->
              outcome (list (chroma_record * Q))
}.

Record world : Type := {
  collections : gmap string collection;  (* the PersistentClient *)
  embed_log : list string;               (* texts passed to embed, oldest first *)
  faults : list bool                     (* true: that engine call raises *)
}.

Definition set_collections (cs : gmap string collection) (w : world) : world :=
  {| collections := cs; embed_log := embed_log w; faults := faults w |}.

Definition set_faults (fs : list bool) (w : world) : world :=
  {| collections := collections w; embed_log := embed_log w; faults := fs |}.

Definition log_embed (text : string) (w : world) : world :=
  {| collections := collections w;
     embed_log := embed_log w ++ [text];
     faults := faults w |}.

Definition empty_world (fs : list bool) : world :=
  {| collections := ∅; embed_log := []; faults := fs |}.

(** The records of the partition called [name]; none when it does not exist. *)
Definition records_of (name : string) (w : world) : list chroma_record :=
  match collections w !! name with
  | Some c => col_records c
  | None => []
  end.

(** *** The monad *)

Definition M (A : Type) : Type := world -> outcome A * world.

Definition ret {A} (a : A) : M A := fun w => (Return a, w).

Definition lift {A} (o : outcome A) : M A := fun w => (o, w).

Definition bind {A B} (m : M A) (k : A -> M B) : M B :=
  fun w =>
    match m w with
    | (Return a, w') => k a w'
    | (Raise e, w') => (Raise e, w')
    end.

(** [try: m  except Exception: h]. *)
Definition try_except {A} (m : M A) (h : exn -> M A) : M A :=
  fun w =>
    match m w with
    | (Return a, w') => (Return a, w')
    | (Raise e, w') => h e w'
    end.

Fixpoint mapM {A B} (f : A -> M B) (l : list A) : M (list B) :=
  match l with
  | [] => ret []
  | x :: l' =>
      bind (f x) (fun y => bind (mapM f l') (fun ys => ret (y :: ys)))
  end.

End Store.

Arguments chroma_record : clear implicits.
Arguments collection : clear implicits.
Arguments world : clear implicits.
Arguments VectorIndex : clear implicits.
Arguments M : clear implicits.

Declare Scope store_scope.
Delimit Scope store_scope with store.
Notation "'let!' x ':=' m 'in' k" := (bind m (fun x => k))
  (at level 10, x name, m at level 100, k at level 200) : store_scope.

(** ** ChromaDB, as the engine uses it

    A collection handle is the collection's name.  Every call into the
    storage engine first consumes one entry of the fault schedule and raises
    when that entry is [true]; an exhausted schedule means a healthy engine.
    As in ChromaDB, adding an id that is already present, updating an id that
    is absent and deleting an id that is absent change nothing and raise
    nothing.  An update without embeddings leaves the stored vector as it is
    (ChromaDB recomputes it from the document with the embedding function of
    the collection, not with the provider of the engine); no property below
    observes the vector. *)

Section Chroma.

Context {vector where_clause : Type} `{!VectorIndex vector where_clause}.

Local Open Scope store_scope.

Definition engine_call : M vector unit :=
  fun w =>
    match faults w with
    | true :: fs => (Raise EngineError, set_faults fs w)
    | false :: fs => (Return tt, set_faults fs w)
    | [] => (Return tt, w)
    end.

(** The store with a collection [name]: an absent one is created empty,
    with [metadata] attached; an existing one is left as it is. *)
Definition ensure_collection
    (name : string) (metadata : gmap string meta_value) (w : world vector)
  : world vector :=
  match collections w !! name with
  | Some _ => w
  | None =>
      set_collections
        (<[name := {| col_metadata := metadata; col_records := [] |}]>
           (collections w)) w
  end.

(** [client.get_or_create_collection(name=..., metadata=...)]. *)
Definition get_or_create_collection
    (name : string) (metadata : gmap string meta_value) : M vector string :=
  let! _ := engine_call in
  fun w => (Return name, ensure_collection name metadata w).

(** A call that reads the collection behind a handle. *)
Definition read_collection {A}
    (handle : string) (f : collection vector -> outcome A) : M vector A :=
  let! _ := engine_call in
  fun w =>
    match collections w !! handle with
    | None => (Raise EngineError, w)
    | Some c => (f c, w)
    end.

(** A call that rewrites the records of the collection behind a handle. *)
Definition write_collection
    (handle : string)
    (f : list (chroma_record vector) -> list (chroma_record vector)) : M vector unit :=
  let! _ := engine_call in
  fun w =>
    match collections w !! handle with
    | None => (Raise EngineError, w)
    | Some c =>
        (Return tt,
         set_collections
           (<[handle := {| col_metadata := col_metadata c;
                           col_records := f (col_records c) |}]>
              (collections w)) w)
    end.

Definition has_id (id : string) (r : chroma_record vector) : bool :=
  bool_decide (rec_id r = id).

Definition id_in (ids : list string) (r : chroma_record vector) : bool :=
  bool_decide (rec_id r ∈ ids).

(** [collection.add(ids=[id], embeddings=[e], documents=[d], metadatas=[m])]. *)
Definition collection_add (handle : string) (r : chroma_record vector) : M vector unit :=
  write_collection handle (fun rs =>
    if List.existsb (has_id (rec_id r)) rs then rs else rs ++ [r]).

(** [collection.get(ids=ids, include=[...])]; [ids = None] selects all. *)
Definition collection_get
    (handle : string) (ids : option (list string)) : M vector (list (chroma_record vector)) :=
  read_collection handle (fun c =>
    match ids with
    | None => Return (col_records c)
    | Some ids => Return (List.filter (id_in ids) (col_records c))
    end).

(** [collection.query(query_embeddings=[q], n_results=n, where=w, include=[...])]. *)
Definition collection_query
    (handle : string) (q : vector) (n : Z) (wh : option where_clause)
  : M vector (list (chroma_record vector * Q)) :=
  read_collection handle (fun c => knn_query q n wh (col_records c)).

Definition update_record
    (embedding : option vector) (document : option string)
    (metadata : option (gmap string string))
    (r : chroma_record vector) : chroma_record vector :=
  {| rec_id := rec_id r;
     rec_embedding := default (rec_embedding r) embedding;
     rec_document := default (rec_document r) document;
     rec_metadata :=
       match metadata with
       | Some m => m ∪ rec_metadata r
       | None => rec_metadata r
       end |}.

(** [collection.update(ids=[id], embeddings=..., documents=..., metadatas=...)]. *)
Definition collection_update
    (handle : string) (id : string)
    (embedding : option vector) (document : option string)
    (metadata : option (gmap string string)) : M vector unit :=
  write_collection handle
    (List.map (fun r => if has_id id r
                        then update_record embedding document metadata r
                        else r)).

(** [collection.delete(ids=ids)]. *)
Definition collection_delete (handle : string) (ids : list string) : M vector unit :=
  write_collection handle (List.filter (fun r => negb (id_in ids r))).

End Chroma.

(** ** The request and response models ([src/models.py]) *)

Definition obind {A B} (o : outcome A) (k : A -> outcome B) : outcome B :=
  match o with
  | Return a => k a
  | Raise e => Raise e
  end.

Module Pydantic.

(** A required field: absent means a validation error. *)
Definition required {A} (v : option A) : outcome A :=
  match v with
  | Some a => Return a
  | None => Raise (ValueError "Field required")
  end.

(** [Field(..., min_length=1)]. *)
Definition min_length_1 (v : string) : outcome string :=
  if (String.length v <? 1)%nat
  then Raise (ValueError "String should have at least 1 character")
  else Return v.

(** The error lines one field contributes to a [ValidationError]. *)
Definition errors_of {A} (field : string) (o : outcome A) : list (string * string) :=
  match o with
  | Return _ => []
  | Raise (ValueError msg) => [(field, msg)]
  | Raise _ => [(field, "error")]
  end.

End Pydantic.

Module MemoryCreate.

Record t {json_obj : Type} : Type := mk {
  project_id : string;
  agent_id : string;
  content : string;
  metadata : json_obj
}.
Arguments t : clear implicits.

(** The field validator of [content]. *)
Definition content_not_empty (v : string) : outcome string :=
  if negb (PyStr.truthy v) || negb (PyStr.truthy (PyStr.strip v))
  then Raise (ValueError "Content cannot be empty")
  else Return v.

(** [MemoryCreate(project_id=..., agent_id=..., content=..., metadata=...)];
    an argument left out is [None]. *)
Definition init {json_obj} `{!JsonCodec json_obj}
    (project_id agent_id content : option string) (metadata : option json_obj)
  : outcome (t json_obj) :=
  let p := obind (Pydantic.required project_id) Pydantic.min_length_1 in
  let a := obind (Pydantic.required agent_id) Pydantic.min_length_1 in
  let c := obind (obind (Pydantic.required content) Pydantic.min_length_1)
                 content_not_empty in
  match p, a, c with
  | Return p', Return a', Return c' =>
      Return (mk json_obj p' a' c' (default empty_dict metadata))
  | _, _, _ =>
      Raise (ValidationError
               (Pydantic.errors_of "project_id" p
                ++ Pydantic.errors_of "agent_id" a
                ++ Pydantic.errors_of "content" c))
  end.

End MemoryCreate.

Module MemoryUpdate.

Record t {json_obj : Type} : Type := mk {
  content : option string;
  metadata : option json_obj
}.
Arguments t : clear implicits.

(** The field validator of [content]. *)
Definition content_not_empty (v : option string) : outcome (option string) :=
  match v with
  | Some s =>
      if negb (PyStr.truthy s) || negb (PyStr.truthy (PyStr.strip s))
      then Raise (ValueError "Content cannot be empty")
      else Return v
  | None => Return v
  end.

(** [MemoryUpdate(content=..., metadata=...)]. *)
Definition init {json_obj}
    (content : option string) (metadata : option json_obj) : outcome (t json_obj) :=
  let c :=
    obind (match content with
           | Some s => obind (Pydantic.min_length_1 s) (fun s' => Return (Some s'))
           | None => Return None
           end) content_not_empty in
  match c with
  | Return c' => Return (mk json_obj c' metadata)
  | Raise _ => Raise (ValidationError (Pydantic.errors_of "content" c))
  end.

End MemoryUpdate.

Module Memory.

Record t {json_obj datetime : Type} : Type := mk {
  memory_id : string;
  project_id : string;
  agent_id : string;
  content : string;
  metadata : json_obj;
  embedding_provider : string;
  embedding_model : string;
  created_at : datetime;
  updated_at : datetime
}.
Arguments t : clear implicits.

End Memory.

Module MemoryMetadata.

Record t {json_obj datetime : Type} : Type := mk {
  memory_id : string;
  project_id : string;
  agent_id : string;
  metadata : json_obj;
  embedding_provider : string;
  embedding_model : string;
  created_at : datetime;
  updated_at : datetime
}.
Arguments t : clear implicits.

End MemoryMetadata.

Module SearchResult.

Record t {json_obj datetime : Type} : Type := mk {
  memory : Memory.t json_obj datetime;
  similarity_score : Q
}.
Arguments t : clear implicits.

(** [SearchResult(memory=..., similarity_score=...)] with
    [Field(..., ge=0.0, le=1.0)]. *)
Definition init {json_obj datetime}
    (memory : Memory.t json_obj datetime) (similarity_score : Q)
  : outcome (t json_obj datetime) :=
  if Qle_bool 0 similarity_score && Qle_bool similarity_score 1
  then Return (mk json_obj datetime memory similarity_score)
  else Raise (ValidationError [("similarity_score", "out of range")]).

End SearchResult.

(** ** Python helpers *)

Notation "'let?' x ':=' o 'in' k" := (obind o (fun x => k))
  (at level 10, x name, o at level 100, k at level 200) : store_scope.

(** [d[key]] on a dict. *)
Definition getitem (d : gmap string string) (key : string) : outcome string :=
  match d !! key with
  | Some v => Return v
  | None => Raise (KeyError key)
  end.

(** [l[start:stop]] on a list. *)
Definition py_slice {A} (l : list A) (start stop : Z) : list A :=
  let len := Z.of_nat (length l) in
  let norm i := if i <? 0 then Z.max 0 (i + len) else Z.min i len in
  let lo := norm start in
  let hi := norm stop in
  take (Z.to_nat (hi - lo)) (drop (Z.to_nat lo) l).

(** [min(a, b)] on two numbers: [b] when it is smaller, else [a]. *)
Definition py_min (a b : Q) : Q :=
  if Qlt_le_dec b a then b else a.

(** [a / b] on numbers. *)
Definition py_div (a b : Q) : outcome Q :=
  if Qeq_bool b 0 then Raise ZeroDivisionError else Return (a / b)%Q.

(** ** [MemoryStore] ([src/memory_store.py]) *)

Section MemoryStore.

Context {vector json_obj datetime where_clause : Type}.
Context `{!EmbeddingProvider vector, !JsonCodec json_obj,
          !DatetimeCodec datetime, !VectorIndex vector where_clause}.

Local Open Scope store_scope.

Local Abbreviation memory := (Memory.t json_obj datetime).
Local Abbreviation world := (world vector).

(** [self.embedding_provider.embed(text)]: the call is logged, then it
    returns or raises. *)
Definition provider_embed (text : string) : M vector vector :=
  fun w =>
    match embed text with
    | Some v => (Return v, log_embed text w)
    | None => (Raise EmbeddingError, log_embed text w)
    end.

Definition _get_collection_name (project_id agent_id : string) : string :=
  let safe_project := PyStr.re_sub_unsafe project_id in
  let safe_agent := PyStr.re_sub_unsafe agent_id in
  let provider := provider_name in
  "p_" +:+ safe_project +:+ "_a_" +:+ safe_agent +:+ "_emb_" +:+ provider.

(** The dict [metadata] built by [_get_or_create_collection]. *)
Definition partition_metadata (project_id agent_id : string) : gmap string meta_value :=
  list_to_map
    [("project_id", MStr project_id);
     ("agent_id", MStr agent_id);
     ("embedding_provider", MStr provider_name);
     ("embedding_model", MStr model_name);
     ("embedding_dimension", MInt dimension)].

Definition _get_or_create_collection (project_id agent_id : string) : M vector string :=
  let collection_name := _get_collection_name project_id agent_id in
  let metadata := partition_metadata project_id agent_id in
  get_or_create_collection collection_name metadata.

Definition _serialize_metadata (metadata : json_obj) : string :=
  json_dumps metadata.

Definition _deserialize_metadata (metadata_str : string) : outcome json_obj :=
  if negb (PyStr.truthy metadata_str) then Return empty_dict
  else match json_loads metadata_str with
       | Some m => Return m
       | None => Raise (ValueError "json.loads")
       end.

Definition datetime_fromisoformat (s : string) : outcome datetime :=
  match fromisoformat s with
  | Some t => Return t
  | None => Raise (ValueError "fromisoformat")
  end.

(** The metadata envelope written by [store_memory] and [update_memory]. *)
Definition chroma_metadata_of
    (project_id agent_id custom_metadata embedding_provider embedding_model
     created_at updated_at : string) : gmap string string :=
  list_to_map
    [("project_id", project_id);
     ("agent_id", agent_id);
     ("custom_metadata", custom_metadata);
     ("embedding_provider", embedding_provider);
     ("embedding_model", embedding_model);
     ("created_at", created_at);
     ("updated_at", updated_at)].

(** The expression [Memory(memory_id=..., project_id=metadata['project_id'], ...)]
    of [get_memory] and [search_memories], arguments evaluated in order. *)
Definition memory_of_record (r : chroma_record vector) : outcome memory :=
  let metadata := rec_metadata r in
  let? project_id := getitem metadata "project_id" in
  let? agent_id := getitem metadata "agent_id" in
  let? custom :=
    _deserialize_metadata (default "{}" (metadata !! "custom_metadata")) in
  let? embedding_provider := getitem metadata "embedding_provider" in
  let? embedding_model := getitem metadata "embedding_model" in
  let? created_at := obind (getitem metadata "created_at") datetime_fromisoformat in
  let? updated_at := obind (getitem metadata "updated_at") datetime_fromisoformat in
  Return (Memory.mk json_obj datetime (rec_id r) project_id agent_id
            (rec_document r) custom embedding_provider embedding_model
            created_at updated_at).

(** The expression [MemoryMetadata(...)] of [list_memories]. *)
Definition memory_metadata_of_record
    (r : chroma_record vector) : outcome (MemoryMetadata.t json_obj datetime) :=
  let metadata := rec_metadata r in
  let? project_id := getitem metadata "project_id" in
  let? agent_id := getitem metadata "agent_id" in
  let? custom :=
    _deserialize_metadata (default "{}" (metadata !! "custom_metadata")) in
  let? embedding_provider := getitem metadata "embedding_provider" in
  let? embedding_model := getitem metadata "embedding_model" in
  let? created_at := obind (getitem metadata "created_at") datetime_fromisoformat in
  let? updated_at := obind (getitem metadata "updated_at") datetime_fromisoformat in
  Return (MemoryMetadata.mk json_obj datetime (rec_id r) project_id agent_id
            custom embedding_provider embedding_model created_at updated_at).

(** [uuid4] is the value of [str(uuid.uuid4())] and [now] the value of
    [datetime.now()] during the call. *)
Definition store_memory
    (uuid4 : string) (now : datetime)
    (memory_create : MemoryCreate.t json_obj) : M vector memory :=
  let! collection :=
    _get_or_create_collection (MemoryCreate.project_id memory_create)
                              (MemoryCreate.agent_id memory_create) in
  let memory_id := uuid4 in
  let! embedding := provider_embed (MemoryCreate.content memory_create) in
  let chroma_metadata :=
    chroma_metadata_of
      (MemoryCreate.project_id memory_create)
      (MemoryCreate.agent_id memory_create)
      (_serialize_metadata (MemoryCreate.metadata memory_create))
      provider_name model_name (isoformat now) (isoformat now) in
  let! _ :=
    collection_add collection
      {| rec_id := memory_id;
         rec_embedding := embedding;
         rec_document := MemoryCreate.content memory_create;
         rec_metadata := chroma_metadata |} in
  ret (Memory.mk json_obj datetime memory_id
         (MemoryCreate.project_id memory_create)
         (MemoryCreate.agent_id memory_create)
         (MemoryCreate.content memory_create)
         (MemoryCreate.metadata memory_create)
         provider_name model_name now now).

Definition get_memory
    (project_id agent_id memory_id : string) : M vector (option memory) :=
  let! collection := _get_or_create_collection project_id agent_id in
  let! result := collection_get collection (Some [memory_id]) in
  match result with
  | [] => ret None
  | r :: _ => let! m := lift (memory_of_record r) in ret (Some m)
  end.

(** The body of the loop of [search_memories]. *)
Definition search_result_of
    (hit : chroma_record vector * Q) : outcome (SearchResult.t json_obj datetime) :=
  let '(r, distance) := hit in
  let? similarity := py_div 1 (1 + distance) in
  let? m := memory_of_record r in
  SearchResult.init m (py_min similarity 1).

Definition search_memories
    (project_id agent_id query : string) (limit : Z)
    (filters : option where_clause)
  : M vector (list (SearchResult.t json_obj datetime)) :=
  let! collection := _get_or_create_collection project_id agent_id in
  let! query_embedding := provider_embed query in
  let wh :=
    match filters with
    | Some f => if where_truthy f then Some f else None
    | None => None
    end in
  let! results := collection_query collection query_embedding limit wh in
  mapM (fun hit => lift (search_result_of hit)) results.

Definition update_memory
    (now : datetime)
    (project_id agent_id memory_id : string)
    (update : MemoryUpdate.t json_obj) : M vector (option memory) :=
  let! existing := get_memory project_id agent_id memory_id in
  match existing with
  | None => ret None
  | Some existing =>
      let! collection := _get_or_create_collection project_id agent_id in
      let new_content :=
        default (Memory.content existing) (MemoryUpdate.content update) in
      let new_metadata :=
        default (Memory.metadata existing) (MemoryUpdate.metadata update) in
      let chroma_metadata :=
        chroma_metadata_of project_id agent_id
          (_serialize_metadata new_metadata)
          (Memory.embedding_provider existing)
          (Memory.embedding_model existing)
          (isoformat (Memory.created_at existing))
          (isoformat now) in
      let! _ :=
        match MemoryUpdate.content update with
        | Some _ =>
            let! new_embedding := provider_embed new_content in
            collection_update collection memory_id
              (Some new_embedding) (Some new_content) (Some chroma_metadata)
        | None =>
            collection_update collection memory_id
              None (Some new_content) (Some chroma_metadata)
        end in
      ret (Some (Memory.mk json_obj datetime memory_id project_id agent_id
                   new_content new_metadata
                   (Memory.embedding_provider existing)
                   (Memory.embedding_model existing)
                   (Memory.created_at existing) now))
  end.

Definition delete_memory
    (project_id agent_id memory_id : string) : M vector bool :=
  let! collection := _get_or_create_collection project_id agent_id in
  try_except
    (let! _ := collection_delete collection [memory_id] in ret true)
    (fun _ => ret false).

Definition list_memories
    (project_id agent_id : string) (limit offset : Z)
    (filters : option where_clause)
  : M vector (list (MemoryMetadata.t json_obj datetime)) :=
  let! collection := _get_or_create_collection project_id agent_id in
  let! result := collection_get collection None in
  let page := py_slice result offset (offset + limit) in
  mapM (fun r => lift (memory_metadata_of_record r)) page.

End MemoryStore.

Arguments partition_metadata : simpl never.
Arguments chroma_metadata_of : simpl never.
Arguments _get_collection_name : simpl never.

(** ** The tool-call facade ([src/server.py], [call_tool]), as far as it
    builds the validated requests.  [arguments] holds the string-valued
    entries of the argument bag, [metadata] its ["metadata"] entry. *)

Section Facade.

Context {vector json_obj datetime where_clause : Type}.
Context `{!EmbeddingProvider vector, !JsonCodec json_obj,
          !DatetimeCodec datetime, !VectorIndex vector where_clause}.

Local Open Scope store_scope.

(** The branch [name == "store_memory"]. *)
Definition call_tool_store_memory
    (uuid4 : string) (now : datetime)
    (arguments : gmap string string) (metadata : option json_obj)
  : M vector (Memory.t json_obj datetime) :=
  let! project_id := lift (getitem arguments "project_id") in
  let! agent_id := lift (getitem arguments "agent_id") in
  let! content := lift (getitem arguments "content") in
  let! memory_create :=
    lift (MemoryCreate.init (Some project_id) (Some agent_id) (Some content)
            (Some (default empty_dict metadata))) in
  store_memory uuid4 now memory_create.

(** The branch [name == "update_memory"]. *)
Definition call_tool_update_memory
    (now : datetime)
    (arguments : gmap string string) (metadata : option json_obj)
  : M vector (option (Memory.t json_obj datetime)) :=
  let! update := lift (MemoryUpdate.init (arguments !! "content") metadata) in
  let! project_id := lift (getitem arguments "project_id") in
  let! agent_id := lift (getitem arguments "agent_id") in
  let! memory_id := lift (getitem arguments "memory_id") in
  update_memory now project_id agent_id memory_id update.

End Facade.

(** ** A specification logic for the store monad *)

Section Logic.

Context {vector : Type}.

(** From a world satisfying [P], [m] ends in a world satisfying [Q a] when
    it returns [a] and [E e] when it raises [e]. *)
Definition triple {A}
    (P : world vector -> Prop) (m : M vector A)
    (Q : A -> world vector -> Prop) (E : exn -> world vector -> Prop) : Prop :=
  forall w, P w ->
    match m w with
    | (Return a, w') => Q a w'
    | (Raise e, w') => E e w'
    end.

(** [m] keeps [I], whatever its outcome. *)
Definition keeps {A} (I : world vector -> Prop) (m : M vector A) : Prop :=
  triple I m (fun _ => I) (fun _ => I).

(** A property of the collections alone. *)
Definition store_pred
    (J : gmap string (collection vector) -> Prop) : world vector -> Prop :=
  fun w => J (collections w).

(** [J] survives the creation and the rewriting of any collection. *)
Definition insert_closed (J : gmap string (collection vector) -> Prop) : Prop :=
  forall cs k c, J cs -> J (<[k := c]> cs).

(** [phi name r] holds of every record [r] of every partition [name]. *)
Definition all_records
    (phi : string -> chroma_record vector -> Prop) : world vector -> Prop :=
  store_pred (fun cs =>
    forall name c r, cs !! name = Some c -> r ∈ col_records c -> phi name r).

End Logic.

(** ** Histories of the store *)

Section Histories.

Context {vector json_obj datetime where_clause : Type}.
Context `{!EmbeddingProvider vector, !JsonCodec json_obj,
          !DatetimeCodec datetime, !VectorIndex vector where_clause}.

Local Abbreviation world := (world vector).

(** One public operation on the store, with a request that passed its
    model's validation, or a change of the engine's fault schedule. *)
Inductive step : world -> world -> Prop :=
| step_store uuid4 now p a c md mc w :
    MemoryCreate.init p a c md = Return mc ->
    step w (store_memory uuid4 now mc w).2
| step_get p a id w :
    step w (get_memory (json_obj := json_obj) (datetime := datetime) p a id w).2
| step_search p a q limit (filters : option where_clause) w :
    step w (search_memories (json_obj := json_obj) (datetime := datetime)
              p a q limit filters w).2
| step_update now p a id c md u w :
    MemoryUpdate.init c md = Return u ->
    step w (update_memory now p a id u w).2
| step_delete p a id w :
    step w (delete_memory p a id w).2
| step_list p a limit offset (filters : option where_clause) w :
    step w (list_memories (json_obj := json_obj) (datetime := datetime)
              p a limit offset filters w).2
| step_faults fs w :
    step w (set_faults fs w).

(** The worlds a freshly created store can get into. *)
Definition reachable (w : world) : Prop :=
  exists fs, rtc step (empty_world fs) w.

(** The content test of the two request models. *)
Definition blank (v : string) : bool :=
  negb (PyStr.truthy v) || negb (PyStr.truthy (PyStr.strip v)).

(** The record's own scope fields resolve to the partition [name]. *)
Definition scope_tag (name : string) (r : chroma_record vector) : Prop :=
  exists p a,
    rec_metadata r !! "project_id" = Some p /\
    rec_metadata r !! "agent_id" = Some a /\
    _get_collection_name p a = name.

(** Every record sits in the partition its own scope fields resolve to. *)
Definition scope_tagged : world -> Prop := all_records scope_tag.

(** No record has an empty or whitespace-only document. *)
Definition content_at_rest : world -> Prop :=
  all_records (fun _ r => blank (rec_document r) = false).

(** The partition of a scope exists. *)
Definition has_partition (project_id agent_id : string) (w : world) : Prop :=
  is_Some (collections w !! _get_collection_name project_id agent_id).

(** The partition a scope gets when it is resolved for the first time. *)
Definition fresh_partition (project_id agent_id : string) : collection vector :=
  {| col_metadata := partition_metadata project_id agent_id;
     col_records := [] |}.

End Histories.

(** What the engine relies on from the nearest-neighbour index. *)

Section IndexContract.

Context {vector where_clause : Type} `{!VectorIndex vector where_clause}.

(** A query for a positive number of results is answered. *)
Definition knn_answers : Prop :=
  forall q n wh (rs : list (chroma_record vector)),
    0 < n -> exists hits, knn_query q n wh rs = Return hits.

(** An answer has at most [n_results] matches. *)
Definition knn_at_most : Prop :=
  forall q n wh (rs : list (chroma_record vector)) hits,
    knn_query q n wh rs = Return hits -> Z.of_nat (length hits) <= n.

(** The matches are records of the queried collection. *)
Definition knn_from_records : Prop :=
  forall q n wh (rs : list (chroma_record vector)) hits,
    knn_query q n wh rs = Return hits -> forall h, h ∈ hits -> h.1 ∈ rs.

End IndexContract.

(** * Concrete collaborators

    The instances below stand in for the collaborators in closed
    statements: the provider double of [tests/test_memory_store.py], a JSON
    codec for mappings of strings to JSON values without floats, ISO-8601
    timestamps, and a nearest-neighbour index that behaves as ChromaDB's
    documented [query] does. *)

(** ** Decimal numerals *)

Module Digits.

Fixpoint chars_of_uint (u : Decimal.uint) : list ascii :=
  match u with
  | Decimal.Nil => []
  | Decimal.D0 u => "0"%char :: chars_of_uint u
  | Decimal.D1 u => "1"%char :: chars_of_uint u
  | Decimal.D2 u => "2"%char :: chars_of_uint u
  | Decimal.D3 u => "3"%char :: chars_of_uint u
  | Decimal.D4 u => "4"%char :: chars_of_uint u
  | Decimal.D5 u => "5"%char :: chars_of_uint u
  | Decimal.D6 u => "6"%char :: chars_of_uint u
  | Decimal.D7 u => "7"%char :: chars_of_uint u
  | Decimal.D8 u => "8"%char :: chars_of_uint u
  | Decimal.D9 u => "9"%char :: chars_of_uint u
  end.

(** The decimal numeral of [n], without leading zeros. *)
Definition of_N (n : N) : list ascii := chars_of_uint (N.to_uint n).

(** The numeral of [n], filled with zeros on the left up to [width]. *)
Definition padded (width : nat) (n : N) : list ascii :=
  List.repeat "0"%char (width - length (of_N n)) ++ of_N n.

Definition digit_of_char (c : ascii) : option (Decimal.uint -> Decimal.uint) :=
  match c with
  | "0"%char => Some Decimal.D0
  | "1"%char => Some Decimal.D1
  | "2"%char => Some Decimal.D2
  | "3"%char => Some Decimal.D3
  | "4"%char => Some Decimal.D4
  | "5"%char => Some Decimal.D5
  | "6"%char => Some Decimal.D6
  | "7"%char => Some Decimal.D7
  | "8"%char => Some Decimal.D8
  | "9"%char => Some Decimal.D9
  | _ => None
  end.

Definition is_digit (c : ascii) : bool :=
  match digit_of_char c with Some _ => true | None => false end.

(** The longest prefix of digits, and what follows it. *)
Fixpoint read_uint (s : list ascii) : Decimal.uint * list ascii :=
  match s with
  | [] => (Decimal.Nil, [])
  | c :: s' =>
      match digit_of_char c with
      | Some d => let '(u, rest) := read_uint s' in (d u, rest)
      | None => (Decimal.Nil, s)
      end
  end.

(** A numeral at the head of [s]: its value and what follows it. *)
Definition read_N (s : list ascii) : option (N * list ascii) :=
  match s with
  | c :: _ =>
      if is_digit c
      then let '(u, rest) := read_uint s in Some (N.of_uint u, rest)
      else None
  | [] => None
  end.

(** [s] does not go on with a digit. *)
Definition ends_numeral (s : list ascii) : bool :=
  match s with
  | c :: _ => negb (is_digit c)
  | [] => true
  end.

End Digits.

(** ** JSON *)

Module Json.

#[local] Set Warnings "-register-all".

Inductive value : Type :=
| Null
| Bool (b : bool)
| Int (z : Z)
| Str (s : string)
| Array (l : list value)
| Object (l : list (string * value)).

Definition is_char (c : ascii) (n : N) : bool := (N_of_ascii c =? n)%N.

(** The quotation mark. *)
Definition quote : ascii := ascii_of_N 34.

Definition hex_digit (n : N) : ascii :=
  if (n <? 10)%N then ascii_of_N (48 + n) else ascii_of_N (87 + n).

(** One character of a string literal, as [json.dumps] writes it with
    [ensure_ascii]. *)
Definition escape_char (c : ascii) : list ascii :=
  let n := N_of_ascii c in
  if (n =? 34)%N then ["\"%char; quote]
  else if (n =? 92)%N then ["\"; "\"]%char
  else if (n =? 10)%N then ["\"; "n"]%char
  else if (n =? 13)%N then ["\"; "r"]%char
  else if (n =? 9)%N then ["\"; "t"]%char
  else if (n =? 8)%N then ["\"; "b"]%char
  else if (n =? 12)%N then ["\"; "f"]%char
  else if ((32 <=? n) && (n <=? 126))%N then [c]
  else ["\"; "u"; "0"; "0"; hex_digit (n / 16); hex_digit (n mod 16)]%char.

Fixpoint escape (s : string) : list ascii :=
  match s with
  | EmptyString => []
  | String c s' => escape_char c ++ escape s'
  end.

Definition print_string (s : string) : list ascii :=
  quote :: escape s ++ [quote].

Definition print_int (z : Z) : list ascii :=
  if z <? 0 then "-"%char :: Digits.of_N (Z.abs_N z) else Digits.of_N (Z.to_N z).

Definition chars (s : string) : list ascii := list_ascii_of_string s.

(** Items separated by [", "]. *)
Fixpoint join (items : list (list ascii)) : list ascii :=
  match items with
  | [] => []
  | [x] => x
  | x :: rest => x ++ chars ", " ++ join rest
  end.

(** One member of an object, its value printed by [pr]. *)
Definition print_member (pr : value -> list ascii) (kv : string * value)
  : list ascii :=
  print_string kv.1 ++ chars ": " ++ pr kv.2.

Fixpoint print (v : value) : list ascii :=
  match v with
  | Null => chars "null"
  | Bool true => chars "true"
  | Bool false => chars "false"
  | Int z => print_int z
  | Str s => print_string s
  | Array l => "["%char :: join (List.map print l) ++ ["]"%char]
  | Object l =>
      "{"%char :: join (List.map (print_member print) l) ++ ["}"%char]
  end.

Definition print_object (l : list (string * value)) : list ascii :=
  print (Object l).

Definition hex_value (c : ascii) : option N :=
  let n := N_of_ascii c in
  if ((48 <=? n) && (n <=? 57))%N then Some (n - 48)%N
  else if ((97 <=? n) && (n <=? 102))%N then Some (n - 87)%N
  else if ((65 <=? n) && (n <=? 70))%N then Some (n - 55)%N
  else None.

(** The body of a string literal up to its closing quote. *)
Fixpoint parse_chars (s : list ascii) : option (string * list ascii) :=
  match s with
  | [] => None
  | c :: rest =>
      if is_char c 34 then Some (EmptyString, rest)
      else if is_char c 92 then
        match rest with
        | e :: rest' =>
            let simple (x : ascii) :=
              match parse_chars rest' with
              | Some (t, r) => Some (String x t, r)
              | None => None
              end in
            if is_char e 34 then simple quote
            else if is_char e 92 then simple "\"%char
            else if is_char e 47 then simple "/"%char
            else if is_char e 110 then simple (ascii_of_N 10)
            else if is_char e 114 then simple (ascii_of_N 13)
            else if is_char e 116 then simple (ascii_of_N 9)
            else if is_char e 98 then simple (ascii_of_N 8)
            else if is_char e 102 then simple (ascii_of_N 12)
            else if is_char e 117 then
              match rest' with
              | h1 :: h2 :: h3 :: h4 :: rest'' =>
                  match hex_value h1, hex_value h2, hex_value h3, hex_value h4 with
                  | Some 0%N, Some 0%N, Some a, Some b =>
                      match parse_chars rest'' with
                      | Some (t, r) => Some (String (ascii_of_N (16 * a + b)) t, r)
                      | None => None
                      end
                  | _, _, _, _ => None
                  end
              | _ => None
              end
            else None
        | [] => None
        end
      else
        match parse_chars rest with
        | Some (t, r) => Some (String c t, r)
        | None => None
        end
  end.

Definition parse_int (s : list ascii) : option (Z * list ascii) :=
  match s with
  | c :: s' =>
      if is_char c 45 then
        match Digits.read_N s' with
        | Some (n, rest) => Some (- Z.of_N n, rest)
        | None => None
        end
      else
        match Digits.read_N s with
        | Some (n, rest) => Some (Z.of_N n, rest)
        | None => None
        end
  | [] => None
  end.

(** Whitespace between tokens. *)
Fixpoint skip_space (s : list ascii) : list ascii :=
  match s with
  | c :: s' => if is_char c 32 then skip_space s' else s
  | [] => []
  end.

(** The rest of a keyword whose first letter has been read. *)
Fixpoint expect (word : list ascii) (s : list ascii) : option (list ascii) :=
  match word, s with
  | [], _ => Some s
  | w :: word', c :: s' => if Ascii.eqb w c then expect word' s' else None
  | _ :: _, [] => None
  end.

(** A JSON value at the head of [s], with [fuel] bounding the number of
    values read. *)
Fixpoint parse_value (fuel : nat) (s : list ascii) : option (value * list ascii) :=
  match fuel with
  | O => None
  | S fuel' =>
      match s with
      | [] => None
      | c :: rest =>
          if Digits.is_digit c || is_char c 45 then
            match parse_int s with
            | Some (z, r) => Some (Int z, r)
            | None => None
            end
          else if is_char c 110 then
            match expect (chars "ull") rest with
            | Some r => Some (Null, r)
            | None => None
            end
          else if is_char c 116 then
            match expect (chars "rue") rest with
            | Some r => Some (Bool true, r)
            | None => None
            end
          else if is_char c 102 then
            match expect (chars "alse") rest with
            | Some r => Some (Bool false, r)
            | None => None
            end
          else if is_char c 34 then
            match parse_chars rest with
            | Some (t, r) => Some (Str t, r)
            | None => None
            end
          else if is_char c 91 then
            match rest with
            | c' :: r =>
                if is_char c' 93 then Some (Array [], r)
                else
                  match parse_items fuel' rest with
                  | Some (l, r') => Some (Array l, r')
                  | None => None
                  end
            | [] => None
            end
          else if is_char c 123 then
            match rest with
            | c' :: r =>
                if is_char c' 125 then Some (Object [], r)
                else
                  match parse_members fuel' rest with
                  | Some (l, r') => Some (Object l, r')
                  | None => None
                  end
            | [] => None
            end
          else None
      end
  end

with parse_items (fuel : nat) (s : list ascii) : option (list value * list ascii) :=
  match fuel with
  | O => None
  | S fuel' =>
      match parse_value fuel' s with
      | Some (v, c :: rest) =>
          if is_char c 44 then
            match parse_items fuel' (skip_space rest) with
            | Some (l, r) => Some (v :: l, r)
            | None => None
            end
          else if is_char c 93 then Some ([v], rest)
          else None
      | _ => None
      end
  end

with parse_members (fuel : nat) (s : list ascii)
  : option (list (string * value) * list ascii) :=
  match fuel with
  | O => None
  | S fuel' =>
      match s with
      | c :: s' =>
          if is_char c 34 then
            match parse_chars s' with
            | Some (k, c1 :: s'') =>
                if is_char c1 58 then
                  match parse_value fuel' (skip_space s'') with
                  | Some (v, c2 :: rest) =>
                      if is_char c2 44 then
                        match parse_members fuel' (skip_space rest) with
                        | Some (l, r) => Some ((k, v) :: l, r)
                        | None => None
                        end
                      else if is_char c2 125 then Some ([(k, v)], rest)
                      else None
                  | _ => None
                  end
                else None
            | _ => None
            end
          else None
      | [] => None
      end
  end.

(** The number of values the parser reads for [v]. *)
Fixpoint size (v : value) : nat :=
  match v with
  | Array l => S (List.fold_right (fun x acc => S (size x + acc)) O l)
  | Object l => S (List.fold_right (fun kv acc => S (size kv.2 + acc)) O l)
  | _ => 1
  end.

(** [json.dumps] of a mapping. *)
Definition dumps (m : list (string * value)) : string :=
  string_of_list_ascii (print_object m).

(** [json.loads], accepting the texts that denote a mapping. *)
Definition loads (s : string) : option (list (string * value)) :=
  match parse_value (S (String.length s)) (chars s) with
  | Some (Object l, []) => Some l
  | _ => None
  end.

End Json.

(** ** ISO-8601 timestamps *)

Module IsoDatetime.

(** A naive [datetime]. *)
Record t : Type := mk {
  year : N;
  month : N;
  day : N;
  hour : N;
  minute : N;
  second : N;
  microsecond : N
}.

Definition fraction (us : N) : list ascii :=
  if (us =? 0)%N then [] else "."%char :: Digits.padded 6 us.

(** [YYYY-MM-DDTHH:MM:SS], followed by [.ffffff] when the microseconds
    are not zero. *)
Definition print (d : t) : list ascii :=
  Digits.padded 4 (year d) ++ "-"%char ::
  Digits.padded 2 (month d) ++ "-"%char ::
  Digits.padded 2 (day d) ++ "T"%char ::
  Digits.padded 2 (hour d) ++ ":"%char ::
  Digits.padded 2 (minute d) ++ ":"%char ::
  Digits.padded 2 (second d) ++ fraction (microsecond d).

Definition isoformat (d : t) : string := string_of_list_ascii (print d).

Definition expect_char (c : ascii) (s : list ascii) : option (list ascii) :=
  match s with
  | c' :: rest => if Ascii.eqb c c' then Some rest else None
  | [] => None
  end.

Definition read_fraction (s : list ascii) : option N :=
  match s with
  | [] => Some 0%N
  | c :: s' =>
      if Ascii.eqb c "."%char then
        match Digits.read_N s' with
        | Some (us, []) => Some us
        | _ => None
        end
      else None
  end.

Definition parse (s : list ascii) : option t :=
  '(y, s) ← Digits.read_N s;
  s ← expect_char "-"%char s;
  '(mo, s) ← Digits.read_N s;
  s ← expect_char "-"%char s;
  '(d, s) ← Digits.read_N s;
  s ← expect_char "T"%char s;
  '(h, s) ← Digits.read_N s;
  s ← expect_char ":"%char s;
  '(mi, s) ← Digits.read_N s;
  s ← expect_char ":"%char s;
  '(se, s) ← Digits.read_N s;
  us ← read_fraction s;
  Some (mk y mo d h mi se us).

Definition fromisoformat (s : string) : option t :=
  parse (list_ascii_of_string s).

End IsoDatetime.

(** ** The nearest-neighbour index *)

Module ChromaIndex.

(** A [where] clause that asks for equal values: [{"key": "value", ...}]. *)
Definition where_clause : Type := list (string * string).

Definition matches (wh : option where_clause) (r : chroma_record (list Q)) : bool :=
  match wh with
  | None => true
  | Some conds =>
      forallb (fun kv => bool_decide (rec_metadata r !! kv.1 = Some kv.2)) conds
  end.

(** The squared L2 distance, ChromaDB's default. *)
Fixpoint squared_l2 (a b : list Q) : Q :=
  match a, b with
  | x :: a', y :: b' => ((x - y) * (x - y) + squared_l2 a' b')%Q
  | _, _ => 0%Q
  end.

Fixpoint insert_hit {A} (h : A * Q) (l : list (A * Q)) : list (A * Q) :=
  match l with
  | [] => [h]
  | h' :: l' => if Qle_bool h.2 h'.2 then h :: l else h' :: insert_hit h l'
  end.

(** Nearest first; matches at the same distance keep their order. *)
Definition nearest_first {A} (l : list (A * Q)) : list (A * Q) :=
  List.fold_right insert_hit [] l.

(** [collection.query]: a number of results that is not positive is
    rejected; otherwise the nearest [n] of the records that pass the
    [where] clause are returned, fewer when there are fewer. *)
Definition query
    (q : list Q) (n : Z) (wh : option where_clause)
    (rs : list (chroma_record (list Q)))
  : outcome (list (chroma_record (list Q) * Q)) :=
  if n <=? 0 then Raise EngineError
  else
    Return
      (take (Z.to_nat n)
         (nearest_first
            (List.map (fun r => (r, squared_l2 q (rec_embedding r)))
               (List.filter (matches wh) rs)))).

Definition truthy (wh : where_clause) : bool :=
  match wh with [] => false | _ :: _ => true end.

End ChromaIndex.

(** ** The instances *)

(** The provider double of [tests/test_memory_store.py]. *)
#[export] Instance mock_embedding_provider : EmbeddingProvider (list Q) := {|
  provider_name := "local";
  model_name := "test-model";
  dimension := 384;
  embed := fun _ => Some [0.1; 0.2; 0.3; 0.4]%Q
|}.

(** A provider whose backend cannot be reached: every [embed] raises. *)
Definition unreachable_provider : EmbeddingProvider (list Q) := {|
  provider_name := "openai";
  model_name := "text-embedding-3-small";
  dimension := 1536;
  embed := fun _ => None
|}.

#[export] Instance json_codec : JsonCodec (list (string * Json.value)) := {|
  empty_dict := [];
  json_dumps := Json.dumps;
  json_loads := Json.loads
|}.

#[export] Instance datetime_codec : DatetimeCodec IsoDatetime.t := {|
  isoformat := IsoDatetime.isoformat;
  fromisoformat := IsoDatetime.fromisoformat
|}.

#[export] Instance chroma_index : VectorIndex (list Q) ChromaIndex.where_clause := {|
  where_truthy := ChromaIndex.truthy;
  knn_query := ChromaIndex.query
|}.

(** ** Scenarios *)

Module Scenario.

Abbreviation json_obj := (list (string * Json.value)).
Abbreviation memory := (Memory.t json_obj IsoDatetime.t).

Definition t0 : IsoDatetime.t := IsoDatetime.mk 2025 1 1 0 0 0 0.
Definition t1 : IsoDatetime.t := IsoDatetime.mk 2025 1 2 9 30 15 250000.

Definition id1 : string := "3f2b8c1e-0d4a-4b6f-9a57-6c1d2e3f4a5b".

(** §8, scenario 1. *)
Definition jwt_request : MemoryCreate.t json_obj :=
  MemoryCreate.mk json_obj "p1" "a1" "Use JWT for auth"
    [("tags", Json.Array [Json.Str "auth"])].

(** A request under a project id that is not a safe collection name. *)
Definition slash_request : MemoryCreate.t json_obj :=
  MemoryCreate.mk json_obj "a/b" "x" "Rotate the signing key monthly" [].

(** A fresh store with a healthy engine. *)
Definition fresh : world (list Q) := empty_world [].

(** The store after the request of scenario 1, and the memory it holds. *)
Definition after_jwt : world (list Q) := (store_memory id1 t0 jwt_request fresh).2.

Definition jwt_memory : memory :=
  Memory.mk json_obj IsoDatetime.t id1 "p1" "a1" "Use JWT for auth"
    [("tags", Json.Array [Json.Str "auth"])] "local" "test-model" t0 t0.

(** The store after the request under ["a/b"], and the memory it holds. *)
Definition after_slash : world (list Q) := (store_memory id1 t0 slash_request fresh).2.

Definition slash_memory : memory :=
  Memory.mk json_obj IsoDatetime.t id1 "a/b" "x" "Rotate the signing key monthly"
    [] "local" "test-model" t0 t0.

(** What a search of the store after scenario 1 returns: the stored
    vector and the query vector coincide, the distance is zero. *)
Definition jwt_hit : SearchResult.t json_obj IsoDatetime.t :=
  SearchResult.mk json_obj IsoDatetime.t jwt_memory 1.0000000000000000%Q.

(** An update of the content alone. *)
Definition new_content : MemoryUpdate.t json_obj :=
  MemoryUpdate.mk json_obj (Some "Use OAuth 2.0 for auth") None.

End Scenario.

(** ** What a computation touches *)

Section Effects.

Context {vector : Type}.

(** [m] makes no call to the embedding provider. *)
Definition silent {A} (m : M vector A) : Prop :=
  forall w, embed_log (m w).2 = embed_log w.

(** [m] leaves the records of every partition as they are. *)
Definition read_only {A} (m : M vector A) : Prop :=
  forall w name, records_of name (m w).2 = records_of name w.

End Effects.

(** ** More fixtures *)

Module Fixtures.

Import Scenario.

Definition id2 : string := "9d1c7f3a-5b2e-4c8d-8e6f-0a1b2c3d4e5f".

(** The record [after_jwt] holds. *)
Definition jwt_record : chroma_record (list Q) :=
  {| rec_id := id1;
     rec_embedding := [0.1; 0.2; 0.3; 0.4]%Q;
     rec_document := "Use JWT for auth";
     rec_metadata :=
       chroma_metadata_of "p1" "a1"
         (Json.dumps [("tags", Json.Array [Json.Str "auth"])])
         "local" "test-model" (IsoDatetime.isoformat t0) (IsoDatetime.isoformat t0) |}.


(** An update of the metadata alone. *)
Definition new_metadata : MemoryUpdate.t json_obj :=
  MemoryUpdate.mk json_obj None (Some [("reviewed", Json.Bool true)]).

End Fixtures.

(** * The scratchpad store ([src/scratchpad_store.py])

    One JSON file for each scope, in the directory [data_path].  The
    directory is a finite map from file names to texts; every call that
    opens or removes a file first consumes one entry of a fault schedule
    and raises [OSError] when that entry is [true].  [json.dump] and
    [json.load] are a parameter, as is the constructor of [Scratchpad]:
    [src/models.py] does not declare the three models the store imports,
    so the records below have the fields the store reads and writes, and
    what the constructor accepts is a hypothesis wherever it matters. *)

Module PyRe.

(** The class [\w] of [re] on the code points below U+0100: the letters,
    the digits and the other numeric characters, and the underscore. *)
Definition is_word_char (c : ascii) : bool :=
  PyStr.in_range 48 57 c || PyStr.in_range 65 90 c || PyStr.in_range 97 122 c
  || (PyStr.code c =? 95)%N
  || (PyStr.code c =? 170)%N || PyStr.in_range 178 179 c
  || (PyStr.code c =? 181)%N || PyStr.in_range 185 186 c
  || PyStr.in_range 188 190 c
  || PyStr.in_range 192 214 c || PyStr.in_range 216 246 c
  || PyStr.in_range 248 255 c.

(** The complement of the class [[^\w\-.]]. *)
Definition is_filename_char (c : ascii) : bool :=
  is_word_char c || (PyStr.code c =? 45)%N || (PyStr.code c =? 46)%N.

(** [re.sub(r'[^\w\-.]', '_', s)]. *)
Fixpoint sub_unsafe (s : string) : string :=
  match s with
  | EmptyString => EmptyString
  | String c s' =>
      String (if is_filename_char c then c else "_"%char) (sub_unsafe s')
  end.

(** Every character is in [[\w\-.]]. *)
Fixpoint all_filename_chars (s : string) : bool :=
  match s with
  | EmptyString => true
  | String c s' => is_filename_char c && all_filename_chars s'
  end.

(** No character is the underscore. *)
Fixpoint no_underscore (s : string) : bool :=
  match s with
  | EmptyString => true
  | String c s' => negb (PyStr.code c =? 95)%N && no_underscore s'
  end.

(** [s.endswith(suffix)]. *)
Definition endswith (s suffix : string) : bool :=
  bool_decide (String.length suffix <= String.length s)%nat
  && String.eqb
       (String.substring (String.length s - String.length suffix)
          (String.length suffix) s)
       suffix.

End PyRe.

Arguments PyRe.is_word_char : simpl never.
Arguments PyRe.is_filename_char : simpl never.

Module Scratchpad.

Record t {datetime : Type} : Type := mk {
  project_id : string;
  agent_id : string;
  content : string;
  created_at : datetime;
  updated_at : datetime
}.
Arguments t : clear implicits.

End Scratchpad.

Module ScratchpadCreate.

Record t : Type := mk {
  project_id : string;
  agent_id : string;
  content : string
}.

End ScratchpadCreate.

Module ScratchpadUpdate.

Record t : Type := mk {
  content : string
}.

End ScratchpadUpdate.

(** The constructor [Scratchpad(project_id=..., agent_id=..., content=...,
    created_at=..., updated_at=...)] on values as [json.load] gives them;
    [None] stands for pydantic's [ValidationError]. *)
Class ScratchpadModel (datetime : Type) : Type := {
  Scratchpad_new :
    Json.value -> Json.value -> Json.value -> datetime -> datetime ->
    option (Scratchpad.t datetime)
}.

(** [json.dump(data, f, indent=2, ensure_ascii=False)] and [json.load(f)];
    [None] stands for [json.JSONDecodeError]. *)
Class JsonFileCodec : Type := {
  json_dump : Json.value -> string;
  json_load : string -> option Json.value
}.

Class JsonFileCodecLaws `(JsonFileCodec) : Prop := {
  json_load_dump : forall l, json_load (json_dump (Json.Object l)) = Some (Json.Object l)
}.

Module Disk.

(** The exceptions of the store: those of the memory engine's model
    ([json.JSONDecodeError] and pydantic's [ValidationError] are
    [ValueError]s), [TypeError] and [OSError]. *)
Inductive error : Type :=
| Py (e : exn)
| TypeError
| OSError.

Inductive result (A : Type) : Type :=
| Ok (a : A)
| Fail (e : error).
Arguments Ok {A} a.
Arguments Fail {A} e.

(** The directory [data_path]. *)
Record t : Type := {
  files : gmap string string;   (* file name, text *)
  io_faults : list bool         (* true: that call to the file system raises *)
}.

Definition empty (fs : list bool) : t := {| files := ∅; io_faults := fs |}.

Definition IO (A : Type) : Type := t -> result A * t.

Definition ret {A} (a : A) : IO A := fun d => (Ok a, d).

Definition lift {A} (r : result A) : IO A := fun d => (r, d).

Definition bind {A B} (m : IO A) (k : A -> IO B) : IO B :=
  fun d =>
    match m d with
    | (Ok a, d') => k a d'
    | (Fail e, d') => (Fail e, d')
    end.

(** [try: m  except <classes>: h], the classes given by [caught]. *)
Definition try_except {A} (caught : error -> bool) (m : IO A) (h : IO A) : IO A :=
  fun d =>
    match m d with
    | (Ok a, d') => (Ok a, d')
    | (Fail e, d') => if caught e then h d' else (Fail e, d')
    end.

(** [except (json.JSONDecodeError, KeyError, ValueError)]. *)
Definition is_key_or_value_error (e : error) : bool :=
  match e with
  | Py (KeyError _) | Py (ValueError _) | Py (ValidationError _) => true
  | _ => false
  end.

(** [except OSError]. *)
Definition is_os_error (e : error) : bool :=
  match e with
  | OSError => true
  | _ => false
  end.

Definition io_call : IO unit :=
  fun d =>
    match io_faults d with
    | true :: fs => (Fail OSError, {| files := files d; io_faults := fs |})
    | false :: fs => (Ok tt, {| files := files d; io_faults := fs |})
    | [] => (Ok tt, d)
    end.

(** [filepath.exists()]. *)
Definition path_exists (name : string) : IO bool :=
  fun d => (Ok (bool_decide (is_Some (files d !! name))), d).

(** [with open(filepath, 'w', encoding='utf-8') as f: f.write(text)]. *)
Definition write_text (name text : string) : IO unit :=
  bind io_call (fun _ d =>
    (Ok tt, {| files := <[name := text]> (files d); io_faults := io_faults d |})).

(** [with open(filepath, 'r', encoding='utf-8') as f: f.read()]. *)
Definition read_text (name : string) : IO string :=
  bind io_call (fun _ d =>
    match files d !! name with
    | Some text => (Ok text, d)
    | None => (Fail OSError, d)
    end).

(** [filepath.unlink()]. *)
Definition unlink (name : string) : IO unit :=
  bind io_call (fun _ d =>
    match files d !! name with
    | Some _ =>
        (Ok tt, {| files := delete name (files d); io_faults := io_faults d |})
    | None => (Fail OSError, d)
    end).

(** [data_path.glob("*.json")]: the names that end in [.json], in the
    order of the map's keys; the order of a directory listing is not
    fixed, and no property below depends on it. *)
Definition json_names (d : t) : list string :=
  List.filter (fun name => PyRe.endswith name ".json")
    (List.map fst (map_to_list (files d))).

Definition glob_json : IO (list string) :=
  fun d => (Ok (json_names d), d).

End Disk.

Declare Scope disk_scope.
Delimit Scope disk_scope with disk.
Notation "'let*' x ':=' m 'in' k" := (Disk.bind m (fun x => k))
  (at level 10, x name, m at level 100, k at level 200) : disk_scope.

Section ScratchpadStore.

Context {datetime : Type}.
Context `{!DatetimeCodec datetime, !ScratchpadModel datetime} {codec : JsonFileCodec}.

Local Open Scope disk_scope.

Local Abbreviation scratchpad := (Scratchpad.t datetime).

Definition _sanitize_id (id_string : string) : string :=
  PyRe.sub_unsafe id_string.

(** The file name; [data_path / filename] is that file of the directory. *)
Definition _get_filepath (project_id agent_id : string) : string :=
  let safe_project := _sanitize_id project_id in
  let safe_agent := _sanitize_id agent_id in
  safe_project +:+ "_" +:+ safe_agent +:+ ".json".

(** The dict [data] of [_save_scratchpad]. *)
Definition scratchpad_data (s : scratchpad) : Json.value :=
  Json.Object
    [("project_id", Json.Str (Scratchpad.project_id s));
     ("agent_id", Json.Str (Scratchpad.agent_id s));
     ("content", Json.Str (Scratchpad.content s));
     ("created_at", Json.Str (isoformat (Scratchpad.created_at s)));
     ("updated_at", Json.Str (isoformat (Scratchpad.updated_at s)))].

Definition _save_scratchpad (s : scratchpad) : Disk.IO unit :=
  let filepath := _get_filepath (Scratchpad.project_id s) (Scratchpad.agent_id s) in
  let data := scratchpad_data s in
  Disk.write_text filepath (json_dump data).

(** The value of the last member called [key]. *)
Fixpoint lookup_member (l : list (string * Json.value)) (key : string)
  : option Json.value :=
  match l with
  | [] => None
  | (k, v) :: l' =>
      match lookup_member l' key with
      | Some v' => Some v'
      | None => if String.eqb k key then Some v else None
      end
  end.

(** [data[key]] on what [json.load] returned. *)
Definition data_getitem (data : Json.value) (key : string) : Disk.result Json.value :=
  match data with
  | Json.Object l =>
      match lookup_member l key with
      | Some v => Disk.Ok v
      | None => Disk.Fail (Disk.Py (KeyError key))
      end
  | _ => Disk.Fail Disk.TypeError
  end.

(** [datetime.fromisoformat(v)] on a value of the data. *)
Definition data_fromisoformat (v : Json.value) : Disk.result datetime :=
  match v with
  | Json.Str s =>
      match fromisoformat s with
      | Some t => Disk.Ok t
      | None => Disk.Fail (Disk.Py (ValueError "fromisoformat"))
      end
  | _ => Disk.Fail Disk.TypeError
  end.

Definition rbind {A B} (r : Disk.result A) (k : A -> Disk.result B) : Disk.result B :=
  match r with
  | Disk.Ok a => k a
  | Disk.Fail e => Disk.Fail e
  end.

(** The expression [Scratchpad(project_id=data["project_id"], ...)] of
    [_load_scratchpad], arguments evaluated in order. *)
Definition scratchpad_of_data (data : Json.value) : Disk.result scratchpad :=
  rbind (data_getitem data "project_id") (fun project_id =>
  rbind (data_getitem data "agent_id") (fun agent_id =>
  rbind (data_getitem data "content") (fun content =>
  rbind (rbind (data_getitem data "created_at") data_fromisoformat) (fun created_at =>
  rbind (rbind (data_getitem data "updated_at") data_fromisoformat) (fun updated_at =>
  match Scratchpad_new project_id agent_id content created_at updated_at with
  | Some s => Disk.Ok s
  | None => Disk.Fail (Disk.Py (ValidationError []))
  end))))).

Definition _load_scratchpad (filepath : string) : Disk.IO (option scratchpad) :=
  let* present := Disk.path_exists filepath in
  if negb present then Disk.ret None
  else
    Disk.try_except Disk.is_key_or_value_error
      (let* text := Disk.read_text filepath in
       let* data :=
         Disk.lift (match json_load text with
                    | Some v => Disk.Ok v
                    | None => Disk.Fail (Disk.Py (ValueError "json.load"))
                    end) in
       let* s := Disk.lift (scratchpad_of_data data) in
       Disk.ret (Some s))
      (Disk.ret None).

(** The constructor on the fields of a scratchpad in memory. *)
Definition Scratchpad_init
    (project_id agent_id content : string) (created_at updated_at : datetime)
  : Disk.result scratchpad :=
  match Scratchpad_new (Json.Str project_id) (Json.Str agent_id) (Json.Str content)
          created_at updated_at with
  | Some s => Disk.Ok s
  | None => Disk.Fail (Disk.Py (ValidationError []))
  end.

(** [now] is the value of [datetime.now()] during the call. *)
Definition create_scratchpad
    (now : datetime) (create : ScratchpadCreate.t) : Disk.IO (option scratchpad) :=
  let filepath :=
    _get_filepath (ScratchpadCreate.project_id create)
                  (ScratchpadCreate.agent_id create) in
  let* present := Disk.path_exists filepath in
  if present then Disk.ret None
  else
    let* s :=
      Disk.lift (Scratchpad_init (ScratchpadCreate.project_id create)
                   (ScratchpadCreate.agent_id create)
                   (ScratchpadCreate.content create) now now) in
    let* _ := _save_scratchpad s in
    Disk.ret (Some s).

Definition get_scratchpad (project_id agent_id : string) : Disk.IO (option scratchpad) :=
  let filepath := _get_filepath project_id agent_id in
  _load_scratchpad filepath.

Definition update_scratchpad
    (now : datetime) (project_id agent_id : string) (update : ScratchpadUpdate.t)
  : Disk.IO (option scratchpad) :=
  let* existing := get_scratchpad project_id agent_id in
  match existing with
  | None => Disk.ret None
  | Some existing =>
      let* updated :=
        Disk.lift (Scratchpad_init (Scratchpad.project_id existing)
                     (Scratchpad.agent_id existing)
                     (ScratchpadUpdate.content update)
                     (Scratchpad.created_at existing) now) in
      let* _ := _save_scratchpad updated in
      Disk.ret (Some updated)
  end.

Definition delete_scratchpad (project_id agent_id : string) : Disk.IO bool :=
  let filepath := _get_filepath project_id agent_id in
  let* present := Disk.path_exists filepath in
  if negb present then Disk.ret false
  else
    Disk.try_except Disk.is_os_error
      (let* _ := Disk.unlink filepath in Disk.ret true)
      (Disk.ret false).

(** One turn of the loop of [list_scratchpads]: the list with the
    scratchpad of [filepath] appended, when it loads and passes the filters. *)
Definition list_step
    (project_id agent_id : option string)
    (scratchpads : list scratchpad) (filepath : string) : Disk.IO (list scratchpad) :=
  let* loaded := _load_scratchpad filepath in
  match loaded with
  | None => Disk.ret scratchpads
  | Some s =>
      if match project_id with
         | Some p => PyStr.truthy p && negb (String.eqb (Scratchpad.project_id s) p)
         | None => false
         end
      then Disk.ret scratchpads
      else if match agent_id with
              | Some a => PyStr.truthy a && negb (String.eqb (Scratchpad.agent_id s) a)
              | None => false
              end
      then Disk.ret scratchpads
      else Disk.ret (scratchpads ++ [s])
  end.

Fixpoint foldM {A B} (f : B -> A -> Disk.IO B) (acc : B) (l : list A) : Disk.IO B :=
  match l with
  | [] => Disk.ret acc
  | x :: l' => let* acc' := f acc x in foldM f acc' l'
  end.

Definition list_scratchpads
    (project_id agent_id : option string) : Disk.IO (list scratchpad) :=
  let* paths := Disk.glob_json in
  foldM (list_step project_id agent_id) [] paths.

End ScratchpadStore.

Arguments _get_filepath : simpl never.

(** ** Histories of the scratchpad store *)

Section PadHistories.

Context {datetime : Type}.
Context `{!DatetimeCodec datetime, !ScratchpadModel datetime} {codec : JsonFileCodec}.




(** The filter of [list_scratchpads] on one field. *)
Definition passes (wanted : option string) (actual : string) : Prop :=
  match wanted with
  | Some v => PyStr.truthy v = true -> actual = v
  | None => True
  end.

End PadHistories.

(** ** Instances for the scratchpad store *)

Module FileJson.

(** [json.load] on a text: any JSON value, nothing after it. *)
Definition load (s : string) : option Json.value :=
  match Json.parse_value (S (String.length s)) (Json.chars s) with
  | Some (v, []) => Some v
  | _ => None
  end.

Definition dump (v : Json.value) : string :=
  string_of_list_ascii (Json.print v).

End FileJson.

(** A codec of the interface; it writes the compact form. *)
#[export] Instance file_codec : JsonFileCodec := {|
  json_dump := FileJson.dump;
  json_load := FileJson.load
|}.

(** A [Scratchpad] of three [str] fields without further constraints. *)
#[export] Instance plain_scratchpad_model : ScratchpadModel IsoDatetime.t := {|
  Scratchpad_new := fun p a c created updated =>
    match p, a, c with
    | Json.Str p, Json.Str a, Json.Str c =>
        Some (Scratchpad.mk IsoDatetime.t p a c created updated)
    | _, _, _ => None
    end
|}.

Module Pads.

Import Scenario.

(** The requests of [tests/test_scratchpad.py]. *)
Definition first_request : ScratchpadCreate.t :=
  ScratchpadCreate.mk "proj-1" "agent-1" "My first scratchpad".

Definition slashes_request : ScratchpadCreate.t :=
  ScratchpadCreate.mk "my-project/with/slashes" "agent@email.com" "Test".

Definition blank_disk : Disk.t := Disk.empty [].

Definition after_first : Disk.t := (create_scratchpad t0 first_request blank_disk).2.

Definition first_pad : Scratchpad.t IsoDatetime.t :=
  Scratchpad.mk IsoDatetime.t "proj-1" "agent-1" "My first scratchpad" t0 t0.

(** A directory with a file that holds a JSON array. *)
Definition with_array_file : Disk.t :=
  {| Disk.files := {["notes_x.json" := "[]"]}; Disk.io_faults := [] |}.

(** A directory with a file that holds no JSON. *)
Definition with_torn_file : Disk.t :=
  {| Disk.files := {["notes_x.json" := "{"]}; Disk.io_faults := [] |}.

End Pads.

(** * The provider factory ([src/embeddings.py])

    The providers are given by what their constructors keep of the
    environment; the models behind [embed] are not part of the repository. *)

Module PyLower.

(** [str.lower] on one character, for the code points below U+0100. *)
Definition lower_char (c : ascii) : ascii :=
  if PyStr.in_range 65 90 c || PyStr.in_range 192 214 c || PyStr.in_range 216 222 c
  then ascii_of_N (PyStr.code c + 32)
  else c.

Fixpoint lower (s : string) : string :=
  match s with
  | EmptyString => EmptyString
  | String c s' => String (lower_char c) (lower s')
  end.

End PyLower.

Arguments PyLower.lower_char : simpl never.

Module Embeddings.

(** [os.environ]. *)
Abbreviation environ := (gmap string string).

(** [os.getenv(key, default)]. *)
Definition getenv (env : environ) (key default : string) : string :=
  match env !! key with
  | Some value => value
  | None => default
  end.

Inductive provider : Type :=
| LocalEmbedding (model_name : string)
| OpenAIEmbedding (api_key base_url model_name : string).

Definition provider_name (p : provider) : string :=
  match p with
  | LocalEmbedding _ => "local"
  | OpenAIEmbedding _ _ _ => "openai"
  end.

Definition model_name (p : provider) : string :=
  match p with
  | LocalEmbedding m => m
  | OpenAIEmbedding _ _ m => m
  end.

(** [LocalEmbedding()], with the default of its [model_name]. *)
Definition LocalEmbedding_init : provider := LocalEmbedding "all-MiniLM-L6-v2".

(** [OpenAIEmbedding()].  The client library is not part of the
    repository: [OpenAI api_key base_url] is the outcome of building its
    client. *)
Definition OpenAIEmbedding_init
    (OpenAI : string -> string -> outcome unit) (env : environ) : outcome provider :=
  match env !! "MEMALPHA_OPENAI_API_KEY" with
  | Some api_key =>
      if negb (PyStr.truthy api_key)
      then Raise (ValueError
                    "MEMALPHA_OPENAI_API_KEY environment variable is required for OpenAI embeddings")
      else
        let base_url := getenv env "MEMALPHA_OPENAI_BASE_URL" "https://api.openai.com/v1" in
        let model_name := getenv env "MEMALPHA_OPENAI_MODEL" "text-embedding-3-small" in
        match OpenAI api_key base_url with
        | Return _ => Return (OpenAIEmbedding api_key base_url model_name)
        | Raise e => Raise e
        end
  | None =>
      Raise (ValueError
               "MEMALPHA_OPENAI_API_KEY environment variable is required for OpenAI embeddings")
  end.

Definition MODEL_DIMENSIONS : list (string * Z) :=
  [("text-embedding-3-small", 1536);
   ("text-embedding-3-large", 3072);
   ("text-embedding-ada-002", 1536)].

Fixpoint dict_get {A} (d : list (string * A)) (key : string) (default : A) : A :=
  match d with
  | [] => default
  | (k, v) :: d' => if String.eqb k key then v else dict_get d' key default
  end.

(** The property [dimension] of [OpenAIEmbedding]. *)
Definition openai_dimension (model : string) : Z :=
  dict_get MODEL_DIMENSIONS model 1536.

Definition get_embedding_provider
    (OpenAI : string -> string -> outcome unit) (env : environ) : outcome provider :=
  let provider_name :=
    PyLower.lower (getenv env "MEMALPHA_EMBEDDING_PROVIDER" "local") in
  if String.eqb provider_name "local" then Return LocalEmbedding_init
  else if String.eqb provider_name "openai" then OpenAIEmbedding_init OpenAI env
  else Raise (ValueError
                ("Unknown embedding provider: " +:+ provider_name +:+ ". "
                 +:+ "Valid options are: 'local', 'openai'")).

End Embeddings.

(** * The tool [delete_memory] of the server ([src/server.py], [call_tool]) *)

Section DeleteTool.

Context {vector : Type} `{!EmbeddingProvider vector}.

Local Open Scope store_scope.

(** The text [call_tool] answers with when [name == "delete_memory"].
    [initialized] tells whether the global [memory_store] is set, [str_exn]
    is [str(e)] of the exception caught, and [arguments] holds the
    string-valued entries of the argument bag. *)
Definition call_tool_delete_memory
    (initialized : bool) (str_exn : exn -> string)
    (arguments : gmap string string) : M vector string :=
  if negb initialized then ret "Error: Memory store not initialized" else
  try_except
    (let! project_id := lift (getitem arguments "project_id") in
     let! agent_id := lift (getitem arguments "agent_id") in
     let! memory_id := lift (getitem arguments "memory_id") in
     let! success := delete_memory project_id agent_id memory_id in
     if success
     then let! shown := lift (getitem arguments "memory_id") in
          ret ("Memory '" +:+ shown +:+ "' deleted successfully.")
     else let! shown := lift (getitem arguments "memory_id") in
          ret ("Failed to delete memory '" +:+ shown +:+ "'."))
    (fun e => ret ("Error executing delete_memory: " +:+ str_exn e)).

End DeleteTool.

(** * Properties *)

(** ** Rules of the specification logic *)

Section LogicRules.

Context {vector : Type}.
Implicit Types P I : world vector -> Prop.

Lemma triple_ret {A} P (a : A) Q E :
  (forall w, P w -> Q a w) -> triple P (ret a) Q E.
Proof. intros H w Hw. simpl. auto. Qed.

Lemma triple_lift {A} P (o : outcome A) Q E :
  (forall w, P w -> match o with Return a => Q a w | Raise e => E e w end) ->
  triple P (lift o) Q E.
Proof. intros H w Hw. unfold lift. specialize (H w Hw). destruct o; done. Qed.

Lemma triple_bind {A B} P (m : M vector A) (k : A -> M vector B) R Q E :
  triple P m R E ->
  (forall a, triple (R a) (k a) Q E) ->
  triple P (bind m k) Q E.
Proof.
  intros Hm Hk w Hw. unfold bind. specialize (Hm w Hw).
  destruct (m w) as [[a|e] w']; [|done].
  apply (Hk a w' Hm).
Qed.

Lemma triple_weaken {A} P P' (m : M vector A) Q Q' E E' :
  triple P' m Q' E' ->
  (forall w, P w -> P' w) ->
  (forall a w, Q' a w -> Q a w) ->
  (forall e w, E' e w -> E e w) ->
  triple P m Q E.
Proof.
  intros Hm HP HQ HE w Hw. specialize (Hm w (HP w Hw)).
  destruct (m w) as [[a|e] w']; auto.
Qed.

Lemma triple_assume {A} (fact : Prop) P (m : M vector A) Q E :
  (fact -> triple P m Q E) -> triple (fun w => fact /\ P w) m Q E.
Proof. intros H w [Hf Hw]. by apply H. Qed.

Lemma triple_try_except {A} P (m : M vector A) (h : exn -> M vector A) Q E R :
  triple P m Q R ->
  (forall e, triple (R e) (h e) Q E) ->
  triple P (try_except m h) Q E.
Proof.
  intros Hm Hh w Hw. unfold try_except. specialize (Hm w Hw).
  destruct (m w) as [[a|e] w']; [done|].
  apply (Hh e w' Hm).
Qed.

Lemma keeps_ret {A} I (a : A) : keeps I (ret a).
Proof. by apply triple_ret. Qed.

Lemma keeps_lift {A} I (o : outcome A) : keeps I (lift o).
Proof. apply triple_lift. intros w Hw. by destruct o. Qed.

Lemma keeps_bind {A B} I (m : M vector A) (k : A -> M vector B) :
  keeps I m -> (forall a, keeps I (k a)) -> keeps I (bind m k).
Proof. intros Hm Hk. by eapply triple_bind. Qed.

Lemma keeps_mapM_lift {A B} I (f : A -> outcome B) (l : list A) :
  keeps I (mapM (fun x => lift (f x)) l).
Proof.
  induction l as [|x l IH]; simpl.
  - apply keeps_ret.
  - apply keeps_bind; [apply keeps_lift|]. intros y.
    apply keeps_bind; [exact IH|]. intros ys. apply keeps_ret.
Qed.

Lemma triple_mapM_lift {A B} I (f : A -> outcome B) (l : list A) :
  triple I (mapM (fun x => lift (f x)) l)
    (fun ys w => Forall2 (fun x y => f x = Return y) l ys /\ I w)
    (fun _ => I).
Proof.
  induction l as [|x l IH]; simpl.
  - apply triple_ret. intros w Hw. by split.
  - eapply triple_bind.
    { apply (triple_lift _ _ (fun y w => f x = Return y /\ I w) (fun _ => I)).
      intros w Hw. by destruct (f x). }
    intros y. apply triple_assume. intros Hy.
    eapply triple_bind; [exact IH|].
    intros ys. apply triple_assume. intros Hys.
    apply triple_ret. intros w Hw. split; [|done]. by constructor.
Qed.

(** A mapped pure function returns a list as long as its input. *)
Lemma mapM_lift_length {A B} (f : A -> outcome B) (l : list A) (w w' : world vector) ys :
  mapM (fun x => lift (f x)) l w = (Return ys, w') ->
  w' = w /\ Forall2 (fun x y => f x = Return y) l ys.
Proof.
  revert ys w'. induction l as [|x l IH]; simpl; intros ys w' Hrun.
  - inversion Hrun; subst. by split.
  - unfold bind in Hrun. unfold lift at 1 in Hrun.
    destruct (f x) as [y|e] eqn:Hfx; [|done].
    destruct (mapM (fun x => lift (f x)) l w) as [[ys'|e] w''] eqn:Hrest; [|done].
    destruct (IH ys' w'' eq_refl) as [-> Hall].
    inversion Hrun; subst. split; [done|]. by constructor.
Qed.

End LogicRules.

(** ** The storage engine's calls *)

Section ChromaProps.

Context {vector where_clause : Type} `{!VectorIndex vector where_clause}.
Implicit Types J : gmap string (collection vector) -> Prop.
Implicit Types w : world vector.
Implicit Types phi : string -> chroma_record vector -> Prop.

Lemma engine_call_healthy w : faults w = [] -> engine_call w = (Return tt, w).
Proof. intros H. unfold engine_call. by rewrite H. Qed.

Lemma engine_call_collections w : collections (engine_call w).2 = collections w.
Proof. unfold engine_call. by destruct (faults w) as [|[] fs]. Qed.

Lemma engine_call_embed_log w : embed_log (engine_call w).2 = embed_log w.
Proof. unfold engine_call. by destruct (faults w) as [|[] fs]. Qed.

Lemma engine_call_faults w : faults w = [] -> faults (engine_call w).2 = [].
Proof. intros H. by rewrite engine_call_healthy. Qed.

Lemma keeps_engine_call J : keeps (store_pred J) engine_call.
Proof.
  intros w Hw. pose proof (engine_call_collections w) as Hc.
  unfold store_pred in *.
  destruct (engine_call w) as [[[]|e] w']; simpl in Hc; by rewrite Hc.
Qed.

Lemma get_or_create_collection_triple J name md :
  (forall cs, J cs -> cs !! name = None ->
     J (<[name := {| col_metadata := md; col_records := [] |}]> cs)) ->
  triple (store_pred J) (get_or_create_collection name md)
    (fun h w => h = name /\ store_pred J w /\ is_Some (collections w !! name))
    (fun _ => store_pred J).
Proof.
  intros Hnew. unfold get_or_create_collection.
  eapply triple_bind; [apply keeps_engine_call|].
  intros _ w Hw. unfold store_pred, ensure_collection in *.
  destruct (collections w !! name) as [c|] eqn:Hc; simpl.
  - rewrite Hc. eauto.
  - rewrite lookup_insert_eq. split_and!; eauto.
Qed.

Lemma read_collection_triple {A} J handle (f : collection vector -> outcome A) :
  triple (store_pred J) (read_collection handle f)
    (fun a w => store_pred J w /\
                exists c, collections w !! handle = Some c /\ f c = Return a)
    (fun _ => store_pred J).
Proof.
  unfold read_collection.
  eapply triple_bind; [apply keeps_engine_call|].
  intros _ w Hw.
  destruct (collections w !! handle) as [c|] eqn:Hc; [|done].
  destruct (f c) as [a|e] eqn:Hf; [|done]. eauto.
Qed.

Lemma write_collection_keeps J handle f :
  (forall cs c, J cs -> cs !! handle = Some c ->
     J (<[handle := {| col_metadata := col_metadata c;
                       col_records := f (col_records c) |}]> cs)) ->
  keeps (store_pred J) (write_collection handle f).
Proof.
  intros Hf. unfold write_collection.
  eapply triple_bind; [apply keeps_engine_call|].
  intros _ w Hw.
  destruct (collections w !! handle) as [c|] eqn:Hc; [|done].
  simpl. by apply Hf.
Qed.

(** Rewriting the records of one partition keeps a property of all
    records when the new records of that partition have it. *)
Lemma write_collection_all_records phi handle f :
  (forall rs, (forall r, r ∈ rs -> phi handle r) ->
     forall r, r ∈ f rs -> phi handle r) ->
  keeps (all_records phi) (write_collection handle f).
Proof.
  intros Hf. apply write_collection_keeps.
  intros cs c HJ Hc name c' r Hlook Hr.
  destruct (decide (handle = name)) as [->|Hne].
  - rewrite lookup_insert_eq in Hlook. inversion Hlook; subst; simpl in *.
    eapply Hf; [|done]. intros r' Hr'. by eapply HJ.
  - rewrite lookup_insert_ne in Hlook by done. by eapply HJ.
Qed.

Lemma get_or_create_collection_all_records phi name md :
  triple (all_records phi) (get_or_create_collection name md)
    (fun h w => h = name /\ all_records phi w /\ is_Some (collections w !! name))
    (fun _ => all_records phi).
Proof.
  apply get_or_create_collection_triple.
  intros cs HJ Hnone n c r Hlook Hr.
  destruct (decide (name = n)) as [->|Hne].
  - rewrite lookup_insert_eq in Hlook. inversion Hlook; subst. by apply elem_of_nil in Hr.
  - rewrite lookup_insert_ne in Hlook by done. by eapply HJ.
Qed.

Lemma collection_get_all_records phi handle ids :
  triple (all_records phi) (collection_get handle ids)
    (fun rs w => (forall r, r ∈ rs -> phi handle r) /\ all_records phi w)
    (fun _ => all_records phi).
Proof.
  unfold all_records.
  eapply triple_weaken;
    [apply read_collection_triple
    |intros w Hw; exact Hw
    |
    |intros e w Hw; exact Hw].
  intros rs w [HJ (c & Hc & Hf)]. split; [|done].
  intros r Hr. apply (HJ handle c r Hc).
  destruct ids as [ids|]; inversion Hf; subst; [|done].
  rewrite list_elem_of_In in Hr. apply filter_In in Hr as [Hr _].
  by rewrite list_elem_of_In.
Qed.

End ChromaProps.

(** ** The methods of [MemoryStore] on arbitrary worlds *)

Section MemoryStoreProps.

Context {vector json_obj datetime where_clause : Type}.
Context `{!EmbeddingProvider vector, !JsonCodec json_obj,
          !DatetimeCodec datetime, !VectorIndex vector where_clause}.

Local Abbreviation memory := (Memory.t json_obj datetime).
Local Abbreviation world := (world vector).
Implicit Types w : world.
Implicit Types J : gmap string (collection vector) -> Prop.
Implicit Types phi : string -> chroma_record vector -> Prop.
Implicit Types r : chroma_record vector.

Lemma chroma_metadata_of_project_id p a c ep em ca ua :
  chroma_metadata_of p a c ep em ca ua !! "project_id" = Some p.
Proof. reflexivity. Qed.

Lemma chroma_metadata_of_agent_id p a c ep em ca ua :
  chroma_metadata_of p a c ep em ca ua !! "agent_id" = Some a.
Proof. reflexivity. Qed.

Lemma chroma_metadata_of_custom_metadata p a c ep em ca ua :
  chroma_metadata_of p a c ep em ca ua !! "custom_metadata" = Some c.
Proof. reflexivity. Qed.

Lemma chroma_metadata_of_embedding_provider p a c ep em ca ua :
  chroma_metadata_of p a c ep em ca ua !! "embedding_provider" = Some ep.
Proof. reflexivity. Qed.

Lemma chroma_metadata_of_embedding_model p a c ep em ca ua :
  chroma_metadata_of p a c ep em ca ua !! "embedding_model" = Some em.
Proof. reflexivity. Qed.

Lemma chroma_metadata_of_created_at p a c ep em ca ua :
  chroma_metadata_of p a c ep em ca ua !! "created_at" = Some ca.
Proof. reflexivity. Qed.

Lemma chroma_metadata_of_updated_at p a c ep em ca ua :
  chroma_metadata_of p a c ep em ca ua !! "updated_at" = Some ua.
Proof. reflexivity. Qed.

Lemma getitem_Return (d : gmap string string) k v :
  getitem d k = Return v <-> d !! k = Some v.
Proof.
  unfold getitem. destruct (d !! k); split; intros H; by inversion H.
Qed.

Lemma obind_Return {A B} (o : outcome A) (k : A -> outcome B) b :
  obind o k = Return b <-> exists a, o = Return a /\ k a = Return b.
Proof.
  destruct o as [a|e]; simpl; split.
  - eauto.
  - by intros (a' & [= ->] & H).
  - done.
  - by intros (a' & [=] & _).
Qed.

(** What a record must hold for [Memory(...)] to be built from it, and
    what the built [Memory] then shows. *)
Lemma memory_of_record_Return r m :
  memory_of_record r = Return m ->
  Memory.memory_id m = rec_id r /\
  Memory.content m = rec_document r /\
  rec_metadata r !! "project_id" = Some (Memory.project_id m) /\
  rec_metadata r !! "agent_id" = Some (Memory.agent_id m) /\
  _deserialize_metadata (default "{}" (rec_metadata r !! "custom_metadata"))
    = Return (Memory.metadata m) /\
  rec_metadata r !! "embedding_provider" = Some (Memory.embedding_provider m) /\
  rec_metadata r !! "embedding_model" = Some (Memory.embedding_model m) /\
  (exists s, rec_metadata r !! "created_at" = Some s /\
             fromisoformat s = Some (Memory.created_at m)) /\
  (exists s, rec_metadata r !! "updated_at" = Some s /\
             fromisoformat s = Some (Memory.updated_at m)).
Proof.
  unfold memory_of_record. intros H.
  apply obind_Return in H as (p & Hp & H).
  apply obind_Return in H as (a & Ha & H).
  apply obind_Return in H as (c & Hc & H).
  apply obind_Return in H as (ep & Hep & H).
  apply obind_Return in H as (em & Hem & H).
  apply obind_Return in H as (ca & Hca & H).
  apply obind_Return in H as (ua & Hua & H).
  apply obind_Return in Hca as (sca & Hsca & Hca).
  apply obind_Return in Hua as (sua & Hsua & Hua).
  apply getitem_Return in Hp, Ha, Hep, Hem, Hsca, Hsua.
  unfold datetime_fromisoformat in Hca, Hua.
  destruct (fromisoformat sca) as [tca|] eqn:Eca; [|done].
  destruct (fromisoformat sua) as [tua|] eqn:Eua; [|done].
  inversion Hca; inversion Hua; inversion H; subst; simpl.
  split_and!; eauto.
Qed.

Lemma memory_metadata_of_record_Return r mm :
  memory_metadata_of_record r = Return mm ->
  MemoryMetadata.memory_id mm = rec_id r /\
  rec_metadata r !! "project_id" = Some (MemoryMetadata.project_id mm) /\
  rec_metadata r !! "agent_id" = Some (MemoryMetadata.agent_id mm).
Proof.
  unfold memory_metadata_of_record. intros H.
  apply obind_Return in H as (p & Hp & H).
  apply obind_Return in H as (a & Ha & H).
  apply obind_Return in H as (c & Hc & H).
  apply obind_Return in H as (ep & Hep & H).
  apply obind_Return in H as (em & Hem & H).
  apply obind_Return in H as (ca & Hca & H).
  apply obind_Return in H as (ua & Hua & H).
  apply getitem_Return in Hp, Ha.
  inversion H; subst; simpl. by split_and!.
Qed.

Lemma keeps_provider_embed J text : keeps (store_pred J) (provider_embed text).
Proof.
  intros w Hw. unfold provider_embed. by destruct (embed text).
Qed.

Lemma _get_or_create_collection_all_records phi p a :
  triple (all_records phi) (_get_or_create_collection p a)
    (fun h w => h = _get_collection_name p a /\ all_records phi w /\
                is_Some (collections w !! _get_collection_name p a))
    (fun _ => all_records phi).
Proof. apply get_or_create_collection_all_records. Qed.

(** [get_memory] keeps a property of all records, and a memory it returns
    was built from a record of the scope's partition. *)
Lemma get_memory_all_records phi p a id :
  triple (all_records phi) (get_memory p a id)
    (fun res w =>
       (forall m, res = Some m ->
          exists r, phi (_get_collection_name p a) r /\
                    memory_of_record r = Return m) /\
       all_records phi w)
    (fun _ => all_records phi).
Proof.
  unfold get_memory.
  eapply triple_bind; [apply _get_or_create_collection_all_records|].
  intros h. apply triple_assume. intros ->.
  eapply triple_bind.
  { eapply triple_weaken; [apply (collection_get_all_records phi)| | |].
    - by intros w [Hw _].
    - intros rs w H. exact H.
    - done. }
  intros rs. apply triple_assume. intros Hrs.
  destruct rs as [|r rs].
  - apply triple_ret. intros w Hw. by split.
  - eapply triple_bind.
    { apply (triple_lift _ _ (fun m w => memory_of_record r = Return m /\ all_records phi w)
               (fun _ => all_records phi)).
      intros w Hw. by destruct (memory_of_record r). }
    intros m. apply triple_assume. intros Hm.
    apply triple_ret. intros w Hw. split; [|done].
    intros m' [= <-]. exists r. split; [|done].
    apply Hrs. by left.
Qed.

Lemma keeps_weaken_pre {A} (P I : world -> Prop) (m : M vector A) :
  keeps I m -> (forall w, P w -> I w) -> triple P m (fun _ => I) (fun _ => I).
Proof. intros Hm HP. eapply triple_weaken; [exact Hm|exact HP|done|done]. Qed.

Lemma collection_add_all_records phi handle r :
  phi handle r -> keeps (all_records phi) (collection_add handle r).
Proof.
  intros Hr. apply write_collection_all_records.
  intros rs Hrs r' Hr'.
  destruct (List.existsb (has_id (rec_id r)) rs); [by apply Hrs|].
  apply elem_of_app in Hr' as [Hr'|Hr']; [by apply Hrs|].
  apply list_elem_of_singleton in Hr'. by subst.
Qed.

Lemma collection_update_all_records phi handle id emb doc md :
  (forall r, phi handle r -> phi handle (update_record emb doc md r)) ->
  keeps (all_records phi) (collection_update handle id emb doc md).
Proof.
  intros Hup. apply write_collection_all_records.
  intros rs Hrs r' Hr'.
  rewrite list_elem_of_In in Hr'. apply in_map_iff in Hr' as (r & <- & Hr).
  rewrite <- list_elem_of_In in Hr.
  destruct (has_id id r); [apply Hup|]; by apply Hrs.
Qed.

Lemma collection_delete_all_records phi handle ids :
  keeps (all_records phi) (collection_delete handle ids).
Proof.
  apply write_collection_all_records.
  intros rs Hrs r' Hr'.
  rewrite list_elem_of_In in Hr'. apply filter_In in Hr' as [Hr' _].
  apply Hrs. by rewrite list_elem_of_In.
Qed.

Lemma store_memory_all_records phi uuid4 now (mc : MemoryCreate.t json_obj) :
  (forall e,
     phi (_get_collection_name (MemoryCreate.project_id mc) (MemoryCreate.agent_id mc))
         {| rec_id := uuid4;
            rec_embedding := e;
            rec_document := MemoryCreate.content mc;
            rec_metadata :=
              chroma_metadata_of
                (MemoryCreate.project_id mc) (MemoryCreate.agent_id mc)
                (_serialize_metadata (MemoryCreate.metadata mc))
                provider_name model_name (isoformat now) (isoformat now) |}) ->
  keeps (all_records phi) (store_memory uuid4 now mc).
Proof.
  intros Hnew. unfold store_memory.
  eapply triple_bind; [apply _get_or_create_collection_all_records|].
  intros h. apply triple_assume. intros ->.
  eapply triple_bind.
  { apply keeps_weaken_pre; [apply keeps_provider_embed|]. by intros w [Hw _]. }
  intros e.
  eapply triple_bind; [by apply collection_add_all_records|].
  intros ?. apply keeps_ret.
Qed.

Lemma update_memory_all_records phi now p a id (u : MemoryUpdate.t json_obj) :
  (forall r0 existing r emb,
     phi (_get_collection_name p a) r0 ->
     memory_of_record r0 = Return existing ->
     phi (_get_collection_name p a) r ->
     phi (_get_collection_name p a)
       (update_record emb
          (Some (default (Memory.content existing) (MemoryUpdate.content u)))
          (Some (chroma_metadata_of p a
                   (_serialize_metadata
                      (default (Memory.metadata existing) (MemoryUpdate.metadata u)))
                   (Memory.embedding_provider existing)
                   (Memory.embedding_model existing)
                   (isoformat (Memory.created_at existing))
                   (isoformat now)))
          r)) ->
  keeps (all_records phi) (update_memory now p a id u).
Proof.
  intros Hup. unfold update_memory.
  eapply triple_bind; [apply get_memory_all_records|].
  intros [existing|]; apply triple_assume; intros Hex; [|apply keeps_ret].
  destruct (Hex existing eq_refl) as (r0 & Hr0 & Hm).
  eapply triple_bind; [apply _get_or_create_collection_all_records|].
  intros h. apply triple_assume. intros ->.
  eapply triple_bind; [|intros ?; apply keeps_ret].
  destruct (MemoryUpdate.content u) as [c|] eqn:Hc; simpl.
  - eapply triple_bind.
    { apply keeps_weaken_pre; [apply keeps_provider_embed|]. by intros w [Hw _]. }
    intros e. apply collection_update_all_records.
    intros r Hr. specialize (Hup r0 existing r (Some e) Hr0 Hm Hr).
    exact Hup.
  - apply keeps_weaken_pre; [|by intros w [Hw _]].
    apply collection_update_all_records.
    intros r Hr. specialize (Hup r0 existing r None Hr0 Hm Hr).
    exact Hup.
Qed.

Lemma delete_memory_all_records phi p a id :
  keeps (all_records phi) (delete_memory p a id).
Proof.
  unfold delete_memory.
  eapply triple_bind; [apply _get_or_create_collection_all_records|].
  intros h. apply keeps_weaken_pre; [|by intros w (_ & Hw & _)].
  eapply triple_try_except.
  - eapply triple_bind; [apply collection_delete_all_records|].
    intros ?. apply keeps_ret.
  - intros e. apply keeps_ret.
Qed.

Lemma search_memories_all_records phi p a q limit (filters : option where_clause) :
  keeps (all_records phi)
    (search_memories (json_obj := json_obj) (datetime := datetime) p a q limit filters).
Proof.
  unfold search_memories.
  eapply triple_bind; [apply _get_or_create_collection_all_records|].
  intros h. apply keeps_weaken_pre; [|by intros w (_ & Hw & _)].
  eapply triple_bind; [apply keeps_provider_embed|]. intros e.
  eapply triple_bind; [|intros hits; apply keeps_mapM_lift].
  unfold collection_query.
  eapply triple_weaken; [apply read_collection_triple|done| |done].
  by intros hits w [Hw _].
Qed.

Lemma list_memories_all_records phi p a limit offset (filters : option where_clause) :
  keeps (all_records phi)
    (list_memories (json_obj := json_obj) (datetime := datetime)
       p a limit offset filters).
Proof.
  unfold list_memories.
  eapply triple_bind; [apply _get_or_create_collection_all_records|].
  intros h. apply keeps_weaken_pre; [|by intros w (_ & Hw & _)].
  eapply triple_bind; [|intros rs; apply keeps_mapM_lift].
  eapply triple_weaken; [apply (collection_get_all_records phi)|done| |done].
  by intros rs w [_ Hw].
Qed.

Lemma keeps_run {A} (I : world -> Prop) (m : M vector A) w :
  keeps I m -> I w -> I (m w).2.
Proof. intros Hm Hw. specialize (Hm w Hw). by destruct (m w) as [[?|?] ?]. Qed.

Lemma triple_run {A} (P : world -> Prop) (m : M vector A) Q E w a w' :
  triple P m Q E -> P w -> m w = (Return a, w') -> Q a w'.
Proof. intros Hm Hw Hrun. specialize (Hm w Hw). by rewrite Hrun in Hm. Qed.

(** A search result was built from a record of the scope's partition. *)
Lemma search_memories_from_records phi p a q limit (filters : option where_clause) :
  knn_from_records ->
  triple (all_records phi)
    (search_memories (json_obj := json_obj) (datetime := datetime) p a q limit filters)
    (fun results w =>
       (forall sr, sr ∈ results ->
          exists r, phi (_get_collection_name p a) r /\
                    memory_of_record r = Return (SearchResult.memory sr)) /\
       all_records phi w)
    (fun _ => all_records phi).
Proof.
  intros Hknn. unfold search_memories.
  eapply triple_bind; [apply _get_or_create_collection_all_records|].
  intros h. apply triple_assume. intros ->.
  eapply triple_bind.
  { apply keeps_weaken_pre; [apply keeps_provider_embed|]. by intros w [Hw _]. }
  intros e.
  eapply triple_bind.
  { unfold collection_query, all_records.
    eapply triple_weaken;
      [apply read_collection_triple|intros w Hw; exact Hw| |intros e' w Hw; exact Hw].
    intros hits w [Hw (c & Hc & Hq)].
    assert (forall h, h ∈ hits -> phi (_get_collection_name p a) h.1) as Hhits.
    { intros h Hh. eapply Hw; [exact Hc|]. by eapply Hknn. }
    exact (conj Hhits Hw). }
  intros hits. apply triple_assume. intros Hhits.
  eapply triple_weaken; [apply triple_mapM_lift|done| |done].
  intros results w [Hall Hw]. split; [|done].
  intros sr Hsr.
  apply (proj1 (list_elem_of_lookup _ _)) in Hsr as [i Hi].
  destruct (Forall2_lookup_r _ _ _ _ _ Hall Hi) as ([r d] & Hhit & Hconv).
  exists r. split.
  - apply (Hhits (r, d)). by eapply list_elem_of_lookup_2.
  - unfold search_result_of in Hconv.
    apply obind_Return in Hconv as (sim & _ & Hconv).
    apply obind_Return in Hconv as (m & Hm & Hconv).
    unfold SearchResult.init in Hconv.
    destruct (Qle_bool 0 _ && Qle_bool _ 1); [|done].
    by inversion Hconv; subst.
Qed.

Lemma py_slice_subset {A} (l : list A) start stop x :
  x ∈ py_slice l start stop -> x ∈ l.
Proof.
  unfold py_slice. intros Hx.
  apply subseteq_take in Hx. by apply subseteq_drop in Hx.
Qed.

(** A listed projection was built from a record of the scope's partition. *)
Lemma list_memories_from_records phi p a limit offset (filters : option where_clause) :
  triple (all_records phi)
    (list_memories (json_obj := json_obj) (datetime := datetime)
       p a limit offset filters)
    (fun results w =>
       (forall mm, mm ∈ results ->
          exists r, phi (_get_collection_name p a) r /\
                    memory_metadata_of_record r = Return mm) /\
       all_records phi w)
    (fun _ => all_records phi).
Proof.
  unfold list_memories.
  eapply triple_bind; [apply _get_or_create_collection_all_records|].
  intros h. apply triple_assume. intros ->.
  eapply triple_bind.
  { eapply triple_weaken; [apply (collection_get_all_records phi)| | |].
    - by intros w [Hw _].
    - intros rs w H. exact H.
    - done. }
  intros rs. apply triple_assume. intros Hrs.
  eapply triple_weaken; [apply triple_mapM_lift|done| |done].
  intros results w [Hall Hw]. split; [|done].
  intros mm Hmm.
  apply (proj1 (list_elem_of_lookup _ _)) in Hmm as [i Hi].
  destruct (Forall2_lookup_r _ _ _ _ _ Hall Hi) as (r & Hr & Hconv).
  exists r. split; [|done].
  apply Hrs. eapply py_slice_subset. by eapply list_elem_of_lookup_2.
Qed.

End MemoryStoreProps.

(** ** Validation of the request models *)

Section Validation.

Lemma truthy_false s : PyStr.truthy s = false <-> s = "".
Proof. destruct s; split; intros H; done. Qed.

Lemma lstrip_all_space s : PyStr.all_space (PyStr.lstrip s) = PyStr.all_space s.
Proof.
  induction s as [|c s IH]; simpl; [done|].
  destruct (PyStr.isspace c) eqn:Hc; simpl; [done|]. by rewrite Hc.
Qed.

Lemma lstrip_empty s : PyStr.lstrip s = "" <-> PyStr.all_space s = true.
Proof.
  induction s as [|c s IH]; simpl; [done|].
  destruct (PyStr.isspace c) eqn:Hc; simpl; [done|].
  split; intros H; done.
Qed.

Lemma all_space_forallb s :
  PyStr.all_space s = forallb PyStr.isspace (list_ascii_of_string s).
Proof. induction s as [|c s IH]; simpl; [done|]. by rewrite IH. Qed.

Lemma all_space_rev s : PyStr.all_space (PyStr.rev s) = PyStr.all_space s.
Proof.
  unfold PyStr.rev. rewrite !all_space_forallb, list_ascii_of_string_of_list_ascii.
  apply eq_true_iff_eq. rewrite !forallb_forall.
  split; intros H x Hx; apply H; by apply in_rev in Hx || apply in_rev.
Qed.

(** The validators' test [not v or not v.strip()] holds exactly of the
    empty and the whitespace-only strings. *)
Lemma blank_all_space v : blank v = PyStr.all_space v.
Proof.
  unfold blank. apply eq_true_iff_eq. rewrite orb_true_iff, !negb_true_iff.
  rewrite !truthy_false. unfold PyStr.strip. split.
  - intros [->|H]; [done|].
    assert (PyStr.lstrip (PyStr.rev (PyStr.lstrip v)) = "") as H'.
    { unfold PyStr.rev in H at 1.
      destruct (List.rev (list_ascii_of_string
                  (PyStr.lstrip (PyStr.rev (PyStr.lstrip v))))) as [|x l] eqn:Hl;
        [|done].
      apply (f_equal (@List.rev _)) in Hl. rewrite rev_involutive in Hl. simpl in Hl.
      apply (f_equal string_of_list_ascii) in Hl.
      by rewrite string_of_list_ascii_of_string in Hl. }
    apply lstrip_empty in H'.
    by rewrite all_space_rev, lstrip_all_space in H'.
  - intros H. right.
    assert (PyStr.lstrip v = "") as -> by by apply lstrip_empty.
    reflexivity.
Qed.

Lemma required_Return {A} (v : option A) x :
  Pydantic.required v = Return x -> v = Some x.
Proof. destruct v; simpl; by intros [= ->]. Qed.

Lemma min_length_1_Return v x :
  Pydantic.min_length_1 v = Return x -> x = v /\ v <> "".
Proof.
  unfold Pydantic.min_length_1. destruct v; simpl; [done|].
  by intros [= <-].
Qed.

Lemma required_min_length_Return v x :
  obind (Pydantic.required v) Pydantic.min_length_1 = Return x -> v = Some x.
Proof.
  intros H. apply obind_Return in H as (y & Hy & Hx).
  apply required_Return in Hy. apply min_length_1_Return in Hx as [-> _]. done.
Qed.

Lemma create_content_not_empty_Return v x :
  MemoryCreate.content_not_empty v = Return x -> x = v /\ blank v = false.
Proof.
  unfold MemoryCreate.content_not_empty. fold (blank v).
  destruct (blank v); [done|]. by intros [= <-].
Qed.

Lemma update_content_not_empty_Return v x :
  MemoryUpdate.content_not_empty v = Return x ->
  x = v /\ forall s, v = Some s -> blank s = false.
Proof.
  unfold MemoryUpdate.content_not_empty. destruct v as [s|].
  - fold (blank s). destruct (blank s) eqn:Hs; [done|].
    intros [= <-]. split; [done|]. by intros ? [= <-].
  - intros [= <-]. by split.
Qed.

Context {json_obj : Type} `{!JsonCodec json_obj}.

Lemma MemoryCreate_init_Return p a c md (mc : MemoryCreate.t json_obj) :
  MemoryCreate.init p a c md = Return mc ->
  p = Some (MemoryCreate.project_id mc) /\
  a = Some (MemoryCreate.agent_id mc) /\
  c = Some (MemoryCreate.content mc) /\
  MemoryCreate.metadata mc = default empty_dict md /\
  blank (MemoryCreate.content mc) = false.
Proof.
  unfold MemoryCreate.init.
  destruct (obind (Pydantic.required p) _) as [p'|] eqn:Hp;
    destruct (obind (Pydantic.required a) _) as [a'|] eqn:Ha;
    destruct (obind (obind (Pydantic.required c) _) _) as [c'|] eqn:Hc;
    try done.
  intros [= <-]. simpl.
  apply required_min_length_Return in Hp, Ha.
  apply obind_Return in Hc as (y & Hy & Hc).
  apply required_min_length_Return in Hy.
  apply create_content_not_empty_Return in Hc as [-> Hblank].
  by split_and!.
Qed.

Lemma MemoryUpdate_init_Return c md (u : MemoryUpdate.t json_obj) :
  MemoryUpdate.init c md = Return u ->
  MemoryUpdate.content u = c /\
  MemoryUpdate.metadata u = md /\
  forall v, c = Some v -> blank v = false.
Proof.
  unfold MemoryUpdate.init.
  destruct (obind _ MemoryUpdate.content_not_empty) as [c'|] eqn:Hc; [|done].
  intros [= <-]. simpl.
  apply obind_Return in Hc as (y & Hy & Hc).
  apply update_content_not_empty_Return in Hc as [-> Hblank].
  assert (y = c) as ->.
  { destruct c as [s|]; [|by inversion Hy].
    apply obind_Return in Hy as (s' & Hs' & Hy).
    apply min_length_1_Return in Hs' as [-> _]. by inversion Hy. }
  by split_and!.
Qed.

End Validation.

(** ** Collection names *)

Section CollectionNames.

Context {vector : Type} `{!EmbeddingProvider vector}.

Lemma re_sub_unsafe_safe s : PyStr.all_safe s = true -> PyStr.re_sub_unsafe s = s.
Proof.
  induction s as [|c s IH]; simpl; [done|].
  intros [Hc Hs]%andb_true_iff. by rewrite Hc, IH.
Qed.

Lemma all_plain_safe s : PyStr.all_plain s = true -> PyStr.all_safe s = true.
Proof.
  induction s as [|c s IH]; simpl; [done|].
  intros [[Hc _]%andb_true_iff Hs]%andb_true_iff. by rewrite Hc, IH.
Qed.

Lemma length_append (a s : string) :
  String.length (a +:+ s) = (String.length a + String.length s)%nat.
Proof. induction a as [|c a IH]; simpl; [done|]. by rewrite IH. Qed.

Lemma append_inv_tail (a1 a2 s : string) : a1 +:+ s = a2 +:+ s -> a1 = a2.
Proof.
  revert a2. induction a1 as [|c a1 IH]; intros [|c' a2] H; simpl in H.
  - done.
  - apply (f_equal String.length) in H.
    rewrite !length_append in H. simpl in H. lia.
  - apply (f_equal String.length) in H.
    rewrite !length_append in H. simpl in H. lia.
  - injection H as -> H. f_equal. by apply IH.
Qed.

(** The first underscore of the name's tail marks the end of a project id
    that has none. *)
Lemma plain_prefix_inj (p1 p2 x1 x2 : string) :
  PyStr.all_plain p1 = true -> PyStr.all_plain p2 = true ->
  p1 +:+ String "_" x1 = p2 +:+ String "_" x2 ->
  p1 = p2 /\ x1 = x2.
Proof.
  revert p2. induction p1 as [|c p1 IH]; intros [|c' p2] H1 H2 H; simpl in *.
  - by injection H as ->.
  - injection H as <- _. simpl in H2. done.
  - injection H as -> _. simpl in H1. done.
  - injection H as -> H.
    apply andb_true_iff in H1 as [_ H1]. apply andb_true_iff in H2 as [_ H2].
    destruct (IH p2 H1 H2 H) as [-> ->]. done.
Qed.

(** Scopes whose project ids are taken from [[A-Za-z0-9-]] and whose agent
    ids are taken from [[A-Za-z0-9_-]] resolve to the same partition only
    when they are the same scope. *)
Lemma _get_collection_name_inj p1 a1 p2 a2 :
  PyStr.all_plain p1 = true -> PyStr.all_plain p2 = true ->
  PyStr.all_safe a1 = true -> PyStr.all_safe a2 = true ->
  _get_collection_name p1 a1 = _get_collection_name p2 a2 ->
  p1 = p2 /\ a1 = a2.
Proof.
  intros Hp1 Hp2 Ha1 Ha2. unfold _get_collection_name.
  rewrite !re_sub_unsafe_safe by (done || by apply all_plain_safe).
  intros H. simpl in H. injection H as H.
  apply plain_prefix_inj in H as [-> H]; [|done..].
  split; [done|]. simpl in H. injection H as H.
  by apply append_inv_tail in H.
Qed.

(** The separator is no safeguard: an underscore in the project id lets two
    scopes of safe ids share one name. *)
Lemma _get_collection_name_separator_collision :
  _get_collection_name "x_a_y" "z" = _get_collection_name "x" "y_a_z".
Proof. reflexivity. Qed.

End CollectionNames.

(** ** Invariants of the histories *)

Section HistoryProps.

Context {vector json_obj datetime where_clause : Type}.
Context `{!EmbeddingProvider vector, !JsonCodec json_obj,
          !DatetimeCodec datetime, !VectorIndex vector where_clause}.

Local Abbreviation world := (world vector).
Implicit Types w : world.

Lemma update_record_lookup emb doc m (r : chroma_record vector) k v :
  m !! k = Some v ->
  rec_metadata (update_record emb doc (Some m) r) !! k = Some v.
Proof. intros H. simpl. by apply lookup_union_Some_l. Qed.

Lemma step_scope_tagged w w' :
  step (json_obj := json_obj) (datetime := datetime) (where_clause := where_clause) w w' ->
  scope_tagged w -> scope_tagged w'.
Proof.
  unfold scope_tagged.
  destruct 1 as [uuid4 now p a c md mc w Hmc|p a id w|p a q limit filters w
                |now p a id c md u w Hu|p a id w|p a limit offset filters w|fs w];
    intros Hw.
  - apply keeps_run; [|done]. apply store_memory_all_records.
    intros e. eexists _, _. split_and!; [| |reflexivity].
    + apply chroma_metadata_of_project_id.
    + apply chroma_metadata_of_agent_id.
  - apply keeps_run; [|done].
    eapply triple_weaken; [apply (get_memory_all_records scope_tag)|done| |done].
    by intros res w0 [_ Hw0].
  - apply keeps_run; [|done]. apply search_memories_all_records.
  - apply keeps_run; [|done]. apply update_memory_all_records.
    intros r0 existing r emb _ _ _. exists p, a. split_and!; [| |done].
    + apply update_record_lookup, chroma_metadata_of_project_id.
    + apply update_record_lookup, chroma_metadata_of_agent_id.
  - apply keeps_run; [|done]. apply delete_memory_all_records.
  - apply keeps_run; [|done]. apply list_memories_all_records.
  - exact Hw.
Qed.

Lemma step_content_at_rest w w' :
  step (json_obj := json_obj) (datetime := datetime) (where_clause := where_clause) w w' ->
  content_at_rest w -> content_at_rest w'.
Proof.
  unfold content_at_rest.
  destruct 1 as [uuid4 now p a c md mc w Hmc|p a id w|p a q limit filters w
                |now p a id c md u w Hu|p a id w|p a limit offset filters w|fs w];
    intros Hw.
  - apply keeps_run; [|done]. apply store_memory_all_records.
    intros e. simpl. by apply MemoryCreate_init_Return in Hmc as (_ & _ & _ & _ & ?).
  - apply keeps_run; [|done].
    eapply triple_weaken;
      [apply (get_memory_all_records (fun _ r => blank (rec_document r) = false))
      |done| |done].
    by intros res w0 [_ Hw0].
  - apply keeps_run; [|done]. apply search_memories_all_records.
  - apply keeps_run; [|done]. apply update_memory_all_records.
    intros r0 existing r emb Hr0 Hm _. simpl.
    apply MemoryUpdate_init_Return in Hu as (Hc & _ & Hblank).
    rewrite Hc. destruct c as [v|]; simpl; [by apply Hblank|].
    apply memory_of_record_Return in Hm as (_ & -> & _). exact Hr0.
  - apply keeps_run; [|done]. apply delete_memory_all_records.
  - apply keeps_run; [|done]. apply list_memories_all_records.
  - exact Hw.
Qed.

Lemma empty_world_all_records phi fs :
  all_records phi (empty_world (vector := vector) fs).
Proof. intros name c r Hc. simpl in Hc. by rewrite lookup_empty in Hc. Qed.

Lemma reachable_scope_tagged w :
  reachable (json_obj := json_obj) (datetime := datetime) (where_clause := where_clause) w ->
  scope_tagged w.
Proof.
  intros [fs Hrtc]. revert w Hrtc. apply rtc_ind_r.
  - apply empty_world_all_records.
  - intros y z _ Hstep IH. by eapply step_scope_tagged.
Qed.

Lemma reachable_content_at_rest w :
  reachable (json_obj := json_obj) (datetime := datetime) (where_clause := where_clause) w ->
  content_at_rest w.
Proof.
  intros [fs Hrtc]. revert w Hrtc. apply rtc_ind_r.
  - apply empty_world_all_records.
  - intros y z _ Hstep IH. by eapply step_content_at_rest.
Qed.

(** C1, as amended.  In every world a store can get into, a memory whose
    scope resolves to another partition name than the scope of the request
    is returned neither by [get_memory] nor by [search_memories] nor by
    [list_memories], provided the index answers a query with records of
    the queried collection. *)
Theorem isolation_between_partitions w p1 a1 p2 a2 :
  knn_from_records ->
  reachable (json_obj := json_obj) (datetime := datetime) (where_clause := where_clause) w ->
  _get_collection_name p1 a1 <> _get_collection_name p2 a2 ->
  (forall id m w',
      get_memory (json_obj := json_obj) (datetime := datetime) p2 a2 id w
        = (Return (Some m), w') ->
      ~ (Memory.project_id m = p1 /\ Memory.agent_id m = a1)) /\
  (forall q limit (filters : option where_clause) results w',
      search_memories (json_obj := json_obj) (datetime := datetime)
        p2 a2 q limit filters w = (Return results, w') ->
      forall sr, sr ∈ results ->
        ~ (Memory.project_id (SearchResult.memory sr) = p1 /\
           Memory.agent_id (SearchResult.memory sr) = a1)) /\
  (forall limit offset (filters : option where_clause) results w',
      list_memories (json_obj := json_obj) (datetime := datetime)
        p2 a2 limit offset filters w = (Return results, w') ->
      forall mm, mm ∈ results ->
        ~ (MemoryMetadata.project_id mm = p1 /\ MemoryMetadata.agent_id mm = a1)).
Proof.
  intros Hknn Hreach Hname. apply reachable_scope_tagged in Hreach.
  split_and!.
  - intros id m w' Hrun [Hp Ha].
    destruct (triple_run _ _ _ _ _ _ _ (get_memory_all_records scope_tag p2 a2 id)
                Hreach Hrun) as [Hres _].
    destruct (Hres m eq_refl) as (r & (p & a & Hrp & Hra & Hn) & Hm).
    apply memory_of_record_Return in Hm as (_ & _ & Hmp & Hma & _).
    congruence.
  - intros q limit filters results w' Hrun sr Hsr [Hp Ha].
    destruct (triple_run _ _ _ _ _ _ _
                (search_memories_from_records scope_tag p2 a2 q limit filters Hknn)
                Hreach Hrun) as [Hres _].
    destruct (Hres sr Hsr) as (r & (p & a & Hrp & Hra & Hn) & Hm).
    apply memory_of_record_Return in Hm as (_ & _ & Hmp & Hma & _).
    congruence.
  - intros limit offset filters results w' Hrun mm Hmm [Hp Ha].
    destruct (triple_run _ _ _ _ _ _ _
                (list_memories_from_records scope_tag p2 a2 limit offset filters)
                Hreach Hrun) as [Hres _].
    destruct (Hres mm Hmm) as (r & (p & a & Hrp & Hra & Hn) & Hm).
    apply memory_metadata_of_record_Return in Hm as (_ & Hmp & Hma).
    congruence.
Qed.

End HistoryProps.

(** ** Runs of the methods *)

Section Runs.

Context {vector json_obj datetime where_clause : Type}.
Context `{!EmbeddingProvider vector, !JsonCodec json_obj,
          !DatetimeCodec datetime, !VectorIndex vector where_clause}.

Local Abbreviation memory := (Memory.t json_obj datetime).
Local Abbreviation world := (world vector).
Implicit Types w : world.
Implicit Types r : chroma_record vector.

Lemma set_faults_id w : set_faults (faults w) w = w.
Proof. by destruct w. Qed.

Lemma engine_call_first_ok w :
  hd false (faults w) = false ->
  engine_call w = (Return tt, set_faults (tl (faults w)) w).
Proof.
  unfold engine_call. destruct (faults w) as [|[] fs] eqn:Hf; simpl; [|done|done].
  intros _. by rewrite <- Hf, set_faults_id.
Qed.

Lemma mapM_lift_world {A B} (f : A -> outcome B) (l : list A) w :
  (mapM (fun x => lift (f x)) l w).2 = w.
Proof.
  induction l as [|x l IH]; simpl; [done|].
  unfold bind. unfold lift at 1. destruct (f x) as [y|e]; [|done].
  destruct (mapM (fun x => lift (f x)) l w) as [[ys|e] w1]; simpl in *; done.
Qed.

Lemma records_of_ensure_collection k name md w :
  records_of k (ensure_collection name md w) = records_of k w.
Proof.
  unfold ensure_collection, records_of.
  destruct (collections w !! name) as [c|] eqn:Hc; [done|]. simpl.
  destruct (decide (name = k)) as [->|Hne].
  - by rewrite lookup_insert_eq, Hc.
  - by rewrite lookup_insert_ne.
Qed.

Lemma faults_ensure_collection name md w :
  faults (ensure_collection name md w) = faults w.
Proof. unfold ensure_collection. by destruct (collections w !! name). Qed.

Lemma embed_log_ensure_collection name md w :
  embed_log (ensure_collection name md w) = embed_log w.
Proof. unfold ensure_collection. by destruct (collections w !! name). Qed.

Lemma lookup_ensure_collection name md w :
  collections (ensure_collection name md w) !! name
  = Some (default {| col_metadata := md; col_records := [] |}
            (collections w !! name)).
Proof.
  unfold ensure_collection.
  destruct (collections w !! name) as [c|] eqn:Hc; simpl; [done|].
  by rewrite lookup_insert_eq.
Qed.

Lemma get_or_create_collection_healthy name md w :
  faults w = [] ->
  get_or_create_collection name md w = (Return name, ensure_collection name md w).
Proof.
  intros Hf. unfold get_or_create_collection, bind.
  by rewrite engine_call_healthy.
Qed.

Lemma read_collection_healthy {A} handle (f : collection vector -> outcome A) c w :
  faults w = [] ->
  collections w !! handle = Some c ->
  read_collection handle f w = (f c, w).
Proof.
  intros Hf Hc. unfold read_collection, bind.
  rewrite engine_call_healthy by done. by rewrite Hc.
Qed.

Lemma write_collection_healthy handle f c w :
  faults w = [] ->
  collections w !! handle = Some c ->
  write_collection handle f w
  = (Return tt,
     set_collections
       (<[handle := {| col_metadata := col_metadata c;
                       col_records := f (col_records c) |}]> (collections w)) w).
Proof.
  intros Hf Hc. unfold write_collection, bind.
  rewrite engine_call_healthy by done. by rewrite Hc.
Qed.

(** C2.  When the provider's [embed] fails on the content, [store_memory]
    raises, and the records of every partition are what they were: the
    record is written only after [embed] has returned. *)
Theorem store_memory_embedding_failure uuid4 now (mc : MemoryCreate.t json_obj) w :
  embed (MemoryCreate.content mc) = None ->
  (exists e, (store_memory uuid4 now mc w).1 = Raise e) /\
  (forall name,
      records_of name (store_memory uuid4 now mc w).2 = records_of name w).
Proof.
  intros Hembed.
  unfold store_memory, _get_or_create_collection, get_or_create_collection,
    bind, engine_call, provider_embed.
  rewrite Hembed.
  destruct (faults w) as [|[] fs]; simpl.
  - split; [by eexists|]. intros name.
    apply (records_of_ensure_collection name _ _ w).
  - split; [by eexists|]. done.
  - split; [by eexists|]. intros name.
    apply (records_of_ensure_collection name _ _ (set_faults fs w)).
Qed.

(** *** Properties kept by every rewriting of the store *)

Implicit Types J : gmap string (collection vector) -> Prop.

Lemma keeps_get_or_create_collection_closed J name md :
  insert_closed J -> keeps (store_pred J) (get_or_create_collection name md).
Proof.
  intros HJ.
  eapply triple_weaken; [apply (get_or_create_collection_triple J)|done| |done].
  - intros cs Hcs _. by apply HJ.
  - by intros h w (_ & Hw & _).
Qed.

Lemma keeps_read_collection {A} J handle (f : collection vector -> outcome A) :
  keeps (store_pred J) (read_collection handle f).
Proof.
  eapply triple_weaken; [apply (read_collection_triple J)|done| |done].
  by intros x w [Hw _].
Qed.

Lemma keeps_write_collection_closed J handle f :
  insert_closed J -> keeps (store_pred J) (write_collection handle f).
Proof. intros HJ. apply write_collection_keeps. intros cs c Hcs _. by apply HJ. Qed.

Lemma keeps_try_except {A} (I : world -> Prop) (m : M vector A) h :
  keeps I m -> (forall e, keeps I (h e)) -> keeps I (try_except m h).
Proof. intros Hm Hh. by eapply triple_try_except. Qed.

Ltac keeps_closed HJ :=
  repeat first
    [ apply keeps_ret
    | apply keeps_lift
    | apply keeps_mapM_lift
    | apply keeps_provider_embed
    | apply keeps_read_collection
    | apply (keeps_write_collection_closed _ _ _ HJ)
    | apply (keeps_get_or_create_collection_closed _ _ _ HJ)
    | apply keeps_try_except; [|intros ?]
    | apply keeps_bind; [|intros ?]
    | match goal with
      | |- keeps _ (match ?x with _ => _ end) => destruct x
      end ].

Lemma get_memory_keeps_closed J p a id :
  insert_closed J ->
  keeps (store_pred J) (get_memory (json_obj := json_obj) (datetime := datetime) p a id).
Proof.
  intros HJ.
  unfold get_memory, _get_or_create_collection, collection_get.
  keeps_closed HJ.
Qed.

Lemma store_memory_keeps_closed J uuid4 now (mc : MemoryCreate.t json_obj) :
  insert_closed J -> keeps (store_pred J) (store_memory uuid4 now mc).
Proof.
  intros HJ.
  unfold store_memory, _get_or_create_collection, collection_add.
  keeps_closed HJ.
Qed.

Lemma search_memories_keeps_closed J p a q limit (filters : option where_clause) :
  insert_closed J ->
  keeps (store_pred J)
    (search_memories (json_obj := json_obj) (datetime := datetime) p a q limit filters).
Proof.
  intros HJ.
  unfold search_memories, _get_or_create_collection, collection_query.
  keeps_closed HJ.
Qed.

Lemma update_memory_keeps_closed J now p a id (u : MemoryUpdate.t json_obj) :
  insert_closed J -> keeps (store_pred J) (update_memory now p a id u).
Proof.
  intros HJ. unfold update_memory.
  apply keeps_bind; [by apply get_memory_keeps_closed|].
  intros [existing|]; [|apply keeps_ret].
  unfold _get_or_create_collection, collection_update.
  keeps_closed HJ.
Qed.

Lemma delete_memory_keeps_closed J p a id :
  insert_closed J -> keeps (store_pred J) (delete_memory p a id).
Proof.
  intros HJ.
  unfold delete_memory, _get_or_create_collection, collection_delete.
  keeps_closed HJ.
Qed.

Lemma list_memories_keeps_closed J p a limit offset (filters : option where_clause) :
  insert_closed J ->
  keeps (store_pred J)
    (list_memories (json_obj := json_obj) (datetime := datetime)
       p a limit offset filters).
Proof.
  intros HJ.
  unfold list_memories, _get_or_create_collection, collection_get.
  keeps_closed HJ.
Qed.

Lemma has_partition_closed name :
  insert_closed (fun cs : gmap string (collection vector) => is_Some (cs !! name)).
Proof.
  intros cs k c Hcs. destruct (decide (k = name)) as [->|Hne].
  - by rewrite lookup_insert_eq.
  - by rewrite lookup_insert_ne.
Qed.

Lemma bind_run_keeps {A B} (I : world -> Prop) (m : M vector A) (k : A -> M vector B) w :
  I (m w).2 -> (forall a, keeps I (k a)) -> I (bind m k w).2.
Proof.
  intros Hm Hk. unfold bind. destruct (m w) as [[a|e] w1]; simpl in *; [|done].
  by apply keeps_run.
Qed.

Lemma _get_or_create_collection_first_ok p a w :
  hd false (faults w) = false ->
  _get_or_create_collection p a w
  = (Return (_get_collection_name p a),
     ensure_collection (_get_collection_name p a) (partition_metadata p a)
       (set_faults (tl (faults w)) w)).
Proof.
  intros Hok. unfold _get_or_create_collection, get_or_create_collection, bind.
  by rewrite (engine_call_first_ok w Hok).
Qed.

Lemma resolved_has_partition p a w :
  hd false (faults w) = false ->
  has_partition p a (_get_or_create_collection p a w).2.
Proof.
  intros Hok. rewrite (_get_or_create_collection_first_ok p a w Hok).
  unfold has_partition. simpl. by rewrite lookup_ensure_collection.
Qed.

Lemma resolved_fresh p a w :
  hd false (faults w) = false ->
  collections w !! _get_collection_name p a = None ->
  _get_or_create_collection p a w
  = (Return (_get_collection_name p a),
     set_collections
       (<[_get_collection_name p a := fresh_partition p a]> (collections w))
       (set_faults (tl (faults w)) w)).
Proof.
  intros Hok Hnone. rewrite (_get_or_create_collection_first_ok p a w Hok).
  unfold ensure_collection. simpl. by rewrite Hnone.
Qed.

(** [get_memory] on a scope that has no partition yet. *)
Lemma get_memory_fresh p a id w :
  hd false (faults w) = false ->
  collections w !! _get_collection_name p a = None ->
  exists o w1,
    get_memory (json_obj := json_obj) (datetime := datetime) p a id w = (o, w1) /\
    collections w1
    = <[_get_collection_name p a := fresh_partition p a]> (collections w) /\
    (o = Return None \/ exists e, o = Raise e) /\
    (faults w = [] -> o = Return None).
Proof.
  intros Hok Hnone. unfold get_memory, bind.
  rewrite (resolved_fresh p a w Hok Hnone).
  unfold collection_get, read_collection, bind, engine_call. simpl.
  destruct (faults w) as [|f [|[] fs]]; simpl; rewrite ?lookup_insert_eq; simpl;
    eexists _, _; split_and!; eauto; done.
Qed.

(** C10.  While the engine answers their first call, all six operations
    leave the partition of their scope in existence; on a scope that has
    no partition yet, [get_memory], [search_memories], [list_memories],
    [delete_memory] and [update_memory] leave a new, empty partition
    behind, and [get_memory] on a healthy engine reports the absence. *)
Theorem partition_created_by_every_operation w p a :
  hd false (faults w) = false ->
  ((forall uuid4 now (mc : MemoryCreate.t json_obj),
       MemoryCreate.project_id mc = p -> MemoryCreate.agent_id mc = a ->
       has_partition p a (store_memory uuid4 now mc w).2) /\
   (forall id,
       has_partition p a
         (get_memory (json_obj := json_obj) (datetime := datetime) p a id w).2) /\
   (forall q limit (filters : option where_clause),
       has_partition p a
         (search_memories (json_obj := json_obj) (datetime := datetime)
            p a q limit filters w).2) /\
   (forall now id (u : MemoryUpdate.t json_obj),
       has_partition p a (update_memory now p a id u w).2) /\
   (forall id, has_partition p a (delete_memory p a id w).2) /\
   (forall limit offset (filters : option where_clause),
       has_partition p a
         (list_memories (json_obj := json_obj) (datetime := datetime)
            p a limit offset filters w).2)) /\
  (collections w !! _get_collection_name p a = None ->
   let created :=
     <[_get_collection_name p a := fresh_partition p a]> (collections w) in
   (forall id,
       collections
         (get_memory (json_obj := json_obj) (datetime := datetime) p a id w).2
       = created) /\
   (forall q limit (filters : option where_clause),
       collections
         (search_memories (json_obj := json_obj) (datetime := datetime)
            p a q limit filters w).2
       = created) /\
   (forall now id (u : MemoryUpdate.t json_obj),
       collections (update_memory now p a id u w).2 = created) /\
   (forall id, collections (delete_memory p a id w).2 = created) /\
   (forall limit offset (filters : option where_clause),
       collections
         (list_memories (json_obj := json_obj) (datetime := datetime)
            p a limit offset filters w).2
       = created) /\
   (faults w = [] ->
    forall id,
      (get_memory (json_obj := json_obj) (datetime := datetime) p a id w).1
      = Return None)).
Proof.
  intros Hok. split.
  - pose proof (has_partition_closed (_get_collection_name p a)) as HJ.
    pose proof (resolved_has_partition p a w Hok) as Hres.
    set (I := store_pred
                (fun cs : gmap string (collection vector) =>
                   is_Some (cs !! _get_collection_name p a))).
    change (has_partition p a) with I in *.
    split_and!.
    + intros uuid4 now mc <- <-. unfold store_memory.
      apply (bind_run_keeps I); [done|].
      intros h. unfold I, collection_add. keeps_closed HJ.
    + intros id. unfold get_memory.
      apply (bind_run_keeps I); [done|].
      intros h. unfold I, collection_get. keeps_closed HJ.
    + intros q limit filters. unfold search_memories.
      apply (bind_run_keeps I); [done|].
      intros h. unfold I, collection_query. keeps_closed HJ.
    + intros now id u. unfold update_memory.
      apply (bind_run_keeps I).
      * unfold get_memory.
        apply (bind_run_keeps I); [done|].
        intros h. unfold I, collection_get. keeps_closed HJ.
      * intros [existing|]; [|apply keeps_ret].
        unfold I, _get_or_create_collection, collection_update.
        keeps_closed HJ.
    + intros id. unfold delete_memory.
      apply (bind_run_keeps I); [done|].
      intros h. unfold I, collection_delete. keeps_closed HJ.
    + intros limit offset filters. unfold list_memories.
      apply (bind_run_keeps I); [done|].
      intros h. unfold I, collection_get. keeps_closed HJ.
  - intros Hnone created.
    pose proof (resolved_fresh p a w Hok Hnone) as Hres.
    split_and!.
    + intros id.
      destruct (get_memory_fresh p a id w Hok Hnone) as (o & w1 & -> & Hc & _).
      exact Hc.
    + intros q limit filters. unfold search_memories, bind. rewrite Hres.
      unfold provider_embed. destruct (embed q) as [e|]; simpl; [|done].
      unfold collection_query, read_collection, bind, engine_call. simpl.
      destruct (tl (faults w)) as [|[] fs]; simpl; rewrite ?lookup_insert_eq; simpl;
        try done.
      all: destruct (knn_query e limit _ _) as [hits|e']; simpl; [|done].
      all: by rewrite mapM_lift_world.
    + intros now id u. unfold update_memory, bind.
      destruct (get_memory_fresh p a id w Hok Hnone)
        as (o & w1 & -> & Hc & [->|[e ->]] & _); exact Hc.
    + intros id. unfold delete_memory, bind. rewrite Hres.
      unfold try_except, collection_delete, write_collection, bind, engine_call.
      simpl.
      destruct (tl (faults w)) as [|[] fs]; simpl; rewrite ?lookup_insert_eq; simpl;
        try done.
      all: by rewrite insert_insert_eq.
    + intros limit offset filters. unfold list_memories, bind. rewrite Hres.
      unfold collection_get, read_collection, bind, engine_call. simpl.
      destruct (tl (faults w)) as [|[] fs]; simpl; rewrite ?lookup_insert_eq; simpl;
        try done.
      all: by rewrite mapM_lift_world.
    + intros Hf id.
      destruct (get_memory_fresh p a id w Hok Hnone) as (o & w1 & -> & _ & _ & Ho).
      by apply Ho.
Qed.

(** *** Runs on a healthy engine *)

Lemma records_of_lookup name c w :
  collections w !! name = Some c -> records_of name w = col_records c.
Proof. intros H. unfold records_of. by rewrite H. Qed.

Lemma records_of_ensured name md w :
  col_records (default {| col_metadata := md; col_records := [] |}
                 (collections w !! name))
  = records_of name w.
Proof. unfold records_of. by destruct (collections w !! name). Qed.

Lemma _get_or_create_collection_healthy p a w :
  faults w = [] ->
  _get_or_create_collection p a w
  = (Return (_get_collection_name p a),
     ensure_collection (_get_collection_name p a) (partition_metadata p a) w).
Proof. apply get_or_create_collection_healthy. Qed.

Lemma collection_get_healthy name md ids w :
  faults w = [] ->
  collection_get name ids (ensure_collection name md w)
  = (Return (match ids with
             | None => records_of name w
             | Some ids => List.filter (id_in ids) (records_of name w)
             end),
     ensure_collection name md w).
Proof.
  intros Hf. unfold collection_get.
  erewrite read_collection_healthy;
    [|by rewrite faults_ensure_collection|apply lookup_ensure_collection].
  rewrite records_of_ensured. by destruct ids.
Qed.

Lemma get_memory_healthy p a id w :
  faults w = [] ->
  get_memory (json_obj := json_obj) (datetime := datetime) p a id w
  = (match List.filter (id_in [id]) (records_of (_get_collection_name p a) w) with
     | [] => Return None
     | r :: _ => obind (memory_of_record r) (fun m => Return (Some m))
     end,
     ensure_collection (_get_collection_name p a) (partition_metadata p a) w).
Proof.
  intros Hf. unfold get_memory, bind.
  rewrite _get_or_create_collection_healthy by done.
  rewrite collection_get_healthy by done.
  destruct (List.filter _ _) as [|r rs]; [done|].
  unfold lift, ret. by destruct (memory_of_record r).
Qed.

Lemma collection_write_healthy name md f w :
  faults w = [] ->
  write_collection name f (ensure_collection name md w)
  = (Return tt,
     set_collections
       (<[name := {| col_metadata :=
                       col_metadata
                         (default {| col_metadata := md; col_records := [] |}
                            (collections w !! name));
                     col_records := f (records_of name w) |}]>
          (collections (ensure_collection name md w)))
       (ensure_collection name md w)).
Proof.
  intros Hf.
  erewrite write_collection_healthy;
    [|by rewrite faults_ensure_collection|apply lookup_ensure_collection].
  by rewrite records_of_ensured.
Qed.

Lemma ensure_collection_idem name md w :
  ensure_collection name md (ensure_collection name md w)
  = ensure_collection name md w.
Proof.
  unfold ensure_collection at 1. by rewrite lookup_ensure_collection.
Qed.

Lemma get_memory_Some_healthy p a id w existing w1 :
  faults w = [] ->
  get_memory (json_obj := json_obj) (datetime := datetime) p a id w
    = (Return (Some existing), w1) ->
  w1 = ensure_collection (_get_collection_name p a) (partition_metadata p a) w /\
  exists r rs,
    List.filter (id_in [id]) (records_of (_get_collection_name p a) w) = r :: rs /\
    memory_of_record r = Return existing.
Proof.
  intros Hf Hget. rewrite get_memory_healthy in Hget by done.
  inversion Hget as [[Ho Hw]]. split; [done|].
  destruct (List.filter _ _) as [|r rs]; [done|].
  exists r, rs. split; [done|].
  destruct (memory_of_record r) as [m|e]; [|done]. by inversion Ho.
Qed.

(** C3.  On a healthy engine, an update of an existing memory passes the
    new content to the provider's [embed] exactly once when content is
    supplied, and makes no call to [embed] when it is not. *)
Theorem update_memory_embed_calls now p a id (u : MemoryUpdate.t json_obj) w existing w1 :
  faults w = [] ->
  get_memory (json_obj := json_obj) (datetime := datetime) p a id w
    = (Return (Some existing), w1) ->
  embed_log (update_memory now p a id u w).2
  = embed_log w ++ match MemoryUpdate.content u with
                   | Some c => [c]
                   | None => []
                   end.
Proof.
  intros Hf Hget.
  destruct (get_memory_Some_healthy p a id w existing w1 Hf Hget) as [-> _].
  unfold update_memory, bind at 1. rewrite Hget.
  unfold bind at 1.
  rewrite _get_or_create_collection_healthy by by rewrite faults_ensure_collection.
  rewrite ensure_collection_idem.
  destruct (MemoryUpdate.content u) as [c|]; simpl.
  - unfold bind, provider_embed.
    destruct (embed c) as [e|]; simpl.
    + unfold collection_update, write_collection, bind.
      rewrite engine_call_healthy by (simpl; by rewrite faults_ensure_collection).
      simpl. rewrite lookup_ensure_collection. simpl.
      by rewrite embed_log_ensure_collection.
    + by rewrite embed_log_ensure_collection.
  - unfold bind. rewrite app_nil_r.
    unfold collection_update. rewrite collection_write_healthy by done.
    simpl. by rewrite embed_log_ensure_collection.
Qed.

Lemma records_of_set_collections_insert name c cs w :
  records_of name (set_collections (<[name := c]> cs) w) = col_records c.
Proof. unfold records_of. simpl. by rewrite lookup_insert_eq. Qed.

Lemma id_in_singleton id r : id_in [id] r = true <-> rec_id r = id.
Proof.
  unfold id_in. rewrite bool_decide_eq_true. apply list_elem_of_singleton.
Qed.

Lemma has_id_id_in id r : has_id id r = id_in [id] r.
Proof.
  apply eq_true_iff_eq. rewrite id_in_singleton. unfold has_id.
  apply bool_decide_eq_true.
Qed.

Lemma filter_id_fresh id (rs : list (chroma_record vector)) :
  Forall (fun r => rec_id r <> id) rs -> List.filter (id_in [id]) rs = [].
Proof.
  induction 1 as [|r rs Hr _ IH]; simpl; [done|].
  destruct (id_in [id] r) eqn:Hid; [|done].
  by apply id_in_singleton in Hid.
Qed.

Lemma existsb_id_fresh id (rs : list (chroma_record vector)) :
  Forall (fun r => rec_id r <> id) rs -> List.existsb (has_id id) rs = false.
Proof.
  induction 1 as [|r rs Hr _ IH]; simpl; [done|].
  rewrite IH, has_id_id_in. destruct (id_in [id] r) eqn:Hid; [|done].
  by apply id_in_singleton in Hid.
Qed.


(** A record whose envelope holds serialized values is read back as the
    memory it was written from. *)
Lemma memory_of_record_envelope
    `{!JsonCodecLaws JsonCodec0, !DatetimeCodecLaws DatetimeCodec0}
    r p a md ep em ca ua :
  rec_metadata r !! "project_id" = Some p ->
  rec_metadata r !! "agent_id" = Some a ->
  rec_metadata r !! "custom_metadata" = Some (_serialize_metadata md) ->
  rec_metadata r !! "embedding_provider" = Some ep ->
  rec_metadata r !! "embedding_model" = Some em ->
  rec_metadata r !! "created_at" = Some (isoformat ca) ->
  rec_metadata r !! "updated_at" = Some (isoformat ua) ->
  memory_of_record r
  = Return (Memory.mk json_obj datetime (rec_id r) p a (rec_document r)
              md ep em ca ua).
Proof.
  intros Hp Ha Hc Hep Hem Hca Hua.
  unfold memory_of_record, getitem, _deserialize_metadata, datetime_fromisoformat.
  rewrite Hp, Ha, Hc, Hep, Hem, Hca, Hua. simpl.
  unfold _serialize_metadata.
  by rewrite json_dumps_truthy, json_loads_dumps, !fromisoformat_isoformat.
Qed.

Lemma log_embed_ensure_collection text name md w :
  log_embed text (ensure_collection name md w)
  = ensure_collection name md (log_embed text w).
Proof. unfold ensure_collection. simpl. by destruct (collections w !! name). Qed.

(** C6.  On a healthy engine, with codecs that read back what they wrote
    and an id that is new to the partition: a stored request is returned
    by [get_memory] under the id and the scope it was stored with, as the
    very memory [store_memory] returned; its content is the stored
    content and its metadata the stored metadata, the empty mapping when
    none was given. *)
Theorem store_then_get_round_trip
    `{!JsonCodecLaws JsonCodec0, !DatetimeCodecLaws DatetimeCodec0}
    uuid4 now p a c md (mc : MemoryCreate.t json_obj) w :
  faults w = [] ->
  MemoryCreate.init (Some p) (Some a) (Some c) md = Return mc ->
  is_Some (embed c) ->
  Forall (fun r => rec_id r <> uuid4) (records_of (_get_collection_name p a) w) ->
  exists m w1 w2,
    store_memory uuid4 now mc w = (Return m, w1) /\
    get_memory p a (Memory.memory_id m) w1 = (Return (Some m), w2) /\
    Memory.content m = c /\
    Memory.metadata m = default empty_dict md.
Proof.
  intros Hf Hmc [e He] Hfresh.
  apply MemoryCreate_init_Return in Hmc as (Hp & Ha & Hc & Hmd & _).
  destruct mc as [p' a' c' md']; simpl in *.
  inversion Hp; inversion Ha; inversion Hc; subst p' a' c' md'. clear Hp Ha Hc.
  unfold store_memory, bind. simpl.
  rewrite _get_or_create_collection_healthy by done.
  unfold provider_embed. rewrite He. simpl.
  rewrite log_embed_ensure_collection.
  unfold collection_add. rewrite collection_write_healthy by done.
  eexists _, _, _. split; [reflexivity|]. simpl.
  rewrite get_memory_healthy by (simpl; by rewrite faults_ensure_collection).
  rewrite records_of_set_collections_insert. simpl.
  change (records_of (_get_collection_name p a) (log_embed c w))
    with (records_of (_get_collection_name p a) w).
  rewrite (existsb_id_fresh uuid4) by done.
  rewrite List.filter_app, (filter_id_fresh uuid4) by done. simpl.
  assert (id_in [uuid4]
            {| rec_id := uuid4; rec_embedding := e; rec_document := c;
               rec_metadata :=
                 chroma_metadata_of p a
                   (_serialize_metadata (default empty_dict md))
                   provider_name model_name (isoformat now) (isoformat now) |}
          = true) as -> by by apply id_in_singleton.
  erewrite memory_of_record_envelope by reflexivity.
  simpl. by split_and!.
Qed.


(** *** Search *)

(** The [where] argument [search_memories] passes to the index. *)
Lemma search_memories_Return p a q limit (filters : option where_clause) w results w' :
  search_memories (json_obj := json_obj) (datetime := datetime)
    p a q limit filters w = (Return results, w') ->
  exists e wh rs hits,
    embed q = Some e /\
    knn_query e limit wh rs = Return hits /\
    Forall2 (fun h sr => search_result_of h = Return sr) hits results.
Proof.
  unfold search_memories, bind. intros H.
  destruct (_get_or_create_collection p a w) as [[h|?] w1]; [|done].
  unfold provider_embed in H. destruct (embed q) as [e|]; [|done].
  unfold collection_query, read_collection, bind in H.
  destruct (engine_call _) as [[[]|?] w2]; [|done].
  destruct (collections w2 !! h) as [c|]; [|done].
  destruct (knn_query e limit _ (col_records c)) as [hits|?] eqn:Hk; [|done].
  apply mapM_lift_length in H as [_ Hall].
  by eexists e, _, _, hits.
Qed.

Lemma search_memories_healthy p a q limit (filters : option where_clause) w e :
  faults w = [] ->
  embed q = Some e ->
  exists wh,
    knn_query e limit wh (records_of (_get_collection_name p a) w) = Return [] ->
    (search_memories (json_obj := json_obj) (datetime := datetime)
       p a q limit filters w).1 = Return [].
Proof.
  intros Hf He. eexists. intros Hk.
  unfold search_memories, bind.
  rewrite _get_or_create_collection_healthy by done.
  unfold provider_embed. rewrite He.
  rewrite log_embed_ensure_collection.
  unfold collection_query.
  erewrite read_collection_healthy;
    [|by rewrite faults_ensure_collection|apply lookup_ensure_collection].
  rewrite records_of_ensured.
  change (records_of (_get_collection_name p a) (log_embed q w))
    with (records_of (_get_collection_name p a) w).
  by rewrite Hk.
Qed.

(** C8, as amended.  With an index that answers every query for a
    positive number of results, with at most that many matches, all of
    them records of the queried collection: [search_memories] returns at
    most [limit] results; with a [limit] of zero it returns nothing but
    the empty list, when it returns; and on a healthy engine, with a query
    the provider embeds and a positive [limit], a scope without stored
    memories gives the empty list. *)
Theorem search_memories_at_most_limit p a q (filters : option where_clause) w :
  knn_answers -> knn_at_most -> knn_from_records ->
  (forall limit results w',
      search_memories (json_obj := json_obj) (datetime := datetime)
        p a q limit filters w = (Return results, w') ->
      Z.of_nat (length results) <= limit) /\
  (forall results w',
      search_memories (json_obj := json_obj) (datetime := datetime)
        p a q 0 filters w = (Return results, w') ->
      results = []) /\
  (faults w = [] -> is_Some (embed q) ->
   forall limit,
     0 < limit ->
     records_of (_get_collection_name p a) w = [] ->
     (search_memories (json_obj := json_obj) (datetime := datetime)
        p a q limit filters w).1 = Return []).
Proof.
  intros Hans Hmost Hfrom.
  assert (forall limit results w',
             search_memories (json_obj := json_obj) (datetime := datetime)
               p a q limit filters w = (Return results, w') ->
             Z.of_nat (length results) <= limit) as Hlen.
  { intros limit results w' Hrun.
    apply search_memories_Return in Hrun as (e & wh & rs & hits & _ & Hk & Hall).
    rewrite <- (Forall2_length _ _ _ Hall). by eapply Hmost. }
  split_and!.
  - exact Hlen.
  - intros results w' Hrun. apply Hlen in Hrun.
    destruct results as [|sr results]; [done|]. simpl in Hrun. lia.
  - intros Hf [e He] limit Hlimit Hempty.
    destruct (search_memories_healthy p a q limit filters w e Hf He) as [wh Hrun].
    apply Hrun. rewrite Hempty.
    destruct (Hans e limit wh [] Hlimit) as [hits Hk]. rewrite Hk.
    destruct hits as [|h hits]; [done|].
    assert (h.1 ∈ @nil (chroma_record vector)) as Hin
        by (eapply Hfrom; [exact Hk|by left]).
    by apply elem_of_nil in Hin.
Qed.

Lemma py_min_Qmin x y : (py_min x y == Qmin x y)%Q.
Proof.
  unfold py_min. destruct (Qlt_le_dec y x) as [Hlt|Hle].
  - symmetry. apply Q.min_r. by apply Qlt_le_weak.
  - symmetry. by apply Q.min_l.
Qed.

Lemma similarity_in_unit_interval d :
  (0 <= d)%Q ->
  Qeq_bool (1 + d) 0 = false /\
  py_min (1 / (1 + d)) 1 = (1 / (1 + d))%Q /\
  (0 <= 1 / (1 + d))%Q /\ (1 / (1 + d) <= 1)%Q.
Proof.
  intros Hd.
  assert (0 < 1 + d)%Q as Hpos by lra.
  assert (1 / (1 + d) <= 1)%Q as Hle by (apply Qle_shift_div_r; [done|lra]).
  split_and!.
  - destruct (Qeq_bool (1 + d) 0) eqn:E; [|done].
    apply Qeq_bool_iff in E. lra.
  - unfold py_min. destruct (Qlt_le_dec 1 (1 / (1 + d))) as [Hlt|_]; [lra|done].
  - apply Qle_shift_div_l; [done|lra].
  - done.
Qed.

(** C5.  Every result [search_memories] returns carries, for the distance
    the index reported for it, the value [min(1 / (1 + distance), 1.0)],
    and lies between zero and one.  For a non-negative distance the
    conversion of a match cannot fail on the score: the result carries
    [1 / (1 + distance)], which is that value capped at one. *)
Theorem similarity_score_bounds p a q limit (filters : option where_clause) w results w' :
  search_memories (json_obj := json_obj) (datetime := datetime)
    p a q limit filters w = (Return results, w') ->
  (exists e wh rs hits,
      knn_query e limit wh rs = Return hits /\
      Forall2
        (fun (h : chroma_record vector * Q) sr =>
           SearchResult.similarity_score sr = py_min (1 / (1 + h.2)) 1 /\
           (SearchResult.similarity_score sr == Qmin (1 / (1 + h.2)) 1)%Q /\
           (0 <= SearchResult.similarity_score sr)%Q /\
           (SearchResult.similarity_score sr <= 1)%Q)
        hits results) /\
  (forall r d m,
      (0 <= d)%Q ->
      memory_of_record r = Return m ->
      search_result_of (r, d)
      = Return (SearchResult.mk json_obj datetime m (1 / (1 + d))%Q) /\
      (1 / (1 + d) == Qmin (1 / (1 + d)) 1)%Q /\
      (0 <= 1 / (1 + d))%Q /\ (1 / (1 + d) <= 1)%Q).
Proof.
  intros Hrun. split.
  - apply search_memories_Return in Hrun as (e & wh & rs & hits & _ & Hk & Hall).
    exists e, wh, rs, hits. split; [done|].
    eapply Forall2_impl; [exact Hall|].
    intros [r d] sr Hconv. simpl.
    unfold search_result_of in Hconv.
    apply obind_Return in Hconv as (sim & Hsim & Hconv).
    apply obind_Return in Hconv as (m & _ & Hconv).
    unfold py_div in Hsim. destruct (Qeq_bool (1 + d) 0); [done|].
    inversion Hsim; subst sim.
    unfold SearchResult.init in Hconv.
    destruct (Qle_bool 0 _) eqn:H0; [|done].
    destruct (Qle_bool _ 1) eqn:H1; [|done].
    inversion Hconv; subst sr. simpl.
    apply Qle_bool_iff in H0, H1.
    split_and!; [done|apply py_min_Qmin|done|done].
  - intros r d m Hd Hm.
    destruct (similarity_in_unit_interval d Hd) as (Hz & Hmin & H0 & H1).
    split_and!; [|rewrite <- py_min_Qmin, Hmin; reflexivity|done|done].
    unfold search_result_of, py_div. rewrite Hz, Hm. simpl.
    unfold SearchResult.init. rewrite Hmin.
    assert (Qle_bool 0 (1 / (1 + d)) = true) as -> by by apply Qle_bool_iff.
    assert (Qle_bool (1 / (1 + d)) 1 = true) as -> by by apply Qle_bool_iff.
    done.
Qed.

(** *** Deletion *)

Lemma delete_memory_healthy p a id w :
  faults w = [] ->
  exists w1,
    delete_memory p a id w = (Return true, w1) /\
    faults w1 = [] /\
    records_of (_get_collection_name p a) w1
    = List.filter (fun r => negb (id_in [id] r))
        (records_of (_get_collection_name p a) w).
Proof.
  intros Hf. unfold delete_memory, bind, try_except.
  rewrite _get_or_create_collection_healthy by done.
  unfold collection_delete. rewrite collection_write_healthy by done.
  eexists. split; [reflexivity|]. split.
  - simpl. by rewrite faults_ensure_collection.
  - by rewrite records_of_set_collections_insert.
Qed.

(** A failure of the engine while the partition is resolved is not caught. *)
Lemma delete_memory_resolution_fault p a id w fs :
  faults w = true :: fs ->
  delete_memory p a id w = (Raise EngineError, set_faults fs w).
Proof.
  intros Hf.
  unfold delete_memory, _get_or_create_collection, get_or_create_collection,
    bind, engine_call.
  by rewrite Hf.
Qed.

(** A failure of the engine in [collection.delete] is reported as [False]. *)
Lemma delete_memory_delete_fault p a id w fs :
  faults w = false :: true :: fs ->
  (delete_memory p a id w).1 = Return false.
Proof.
  intros Hf.
  unfold delete_memory, _get_or_create_collection, get_or_create_collection,
    bind, engine_call, try_except, collection_delete, write_collection,
    bind, engine_call.
  rewrite Hf. simpl. by rewrite faults_ensure_collection.
Qed.

Lemma filter_id_deleted id (rs : list (chroma_record vector)) :
  List.filter (id_in [id]) (List.filter (fun r => negb (id_in [id] r)) rs) = [].
Proof.
  induction rs as [|r rs IH]; simpl; [done|].
  destruct (id_in [id] r) eqn:Hr; simpl; [done|]. by rewrite Hr.
Qed.

(** On a healthy engine [delete_memory] returns [True] whether or not the
    id is present; afterwards [get_memory] finds nothing under the id, and
    a second [delete_memory] returns [True] again. *)
Lemma delete_memory_then p a id w :
  faults w = [] ->
  exists w1,
    delete_memory p a id w = (Return true, w1) /\
    (get_memory (json_obj := json_obj) (datetime := datetime) p a id w1).1
    = Return None /\
    (delete_memory p a id w1).1 = Return true.
Proof.
  intros Hf.
  destruct (delete_memory_healthy p a id w Hf) as (w1 & Hdel & Hf1 & Hrecs).
  exists w1. split_and!; [done| |].
  - rewrite get_memory_healthy by done. by rewrite Hrecs, filter_id_deleted.
  - by destruct (delete_memory_healthy p a id w1 Hf1) as (w2 & -> & _).
Qed.

End Runs.

(** ** Rejection of blank content *)

Section Rejection.

Context {vector json_obj datetime where_clause : Type}.
Context `{!EmbeddingProvider vector, !JsonCodec json_obj,
          !DatetimeCodec datetime, !VectorIndex vector where_clause}.

Lemma create_content_blank content :
  blank content = true ->
  exists msg,
    obind (obind (Pydantic.required (Some content)) Pydantic.min_length_1)
      MemoryCreate.content_not_empty
    = Raise (ValueError msg).
Proof.
  intros Hb. simpl. unfold Pydantic.min_length_1.
  destruct (String.length content <? 1)%nat; simpl; [by eexists|].
  unfold MemoryCreate.content_not_empty. fold (blank content). rewrite Hb.
  by eexists.
Qed.

Lemma MemoryCreate_init_blank p a content (md : option json_obj) :
  blank content = true ->
  exists errs msg,
    MemoryCreate.init p a (Some content) md = Raise (ValidationError errs) /\
    ("content", msg) ∈ errs.
Proof.
  intros Hb. destruct (create_content_blank content Hb) as [msg Hc].
  unfold MemoryCreate.init. rewrite Hc.
  set (P := obind (Pydantic.required p) Pydantic.min_length_1).
  set (A := obind (Pydantic.required a) Pydantic.min_length_1).
  exists (Pydantic.errors_of "project_id" P ++ Pydantic.errors_of "agent_id" A
          ++ [("content", msg)]), msg.
  split; [by destruct P, A|].
  rewrite !elem_of_app. right. right. by left.
Qed.

Lemma MemoryUpdate_init_blank content (md : option json_obj) :
  blank content = true ->
  exists msg,
    MemoryUpdate.init (Some content) md
    = Raise (ValidationError [("content", msg)]).
Proof.
  intros Hb. unfold MemoryUpdate.init. simpl. unfold Pydantic.min_length_1.
  destruct (String.length content <? 1)%nat; simpl; [by eexists|].
  fold (blank content). rewrite Hb. by eexists.
Qed.

Lemma MemoryCreate_init_missing_project_id a c (md : option json_obj) :
  exists errs,
    MemoryCreate.init None a c md = Raise (ValidationError errs) /\
    ("project_id", "Field required") ∈ errs.
Proof.
  unfold MemoryCreate.init. simpl.
  set (A := obind (Pydantic.required a) Pydantic.min_length_1).
  set (C := obind (obind (Pydantic.required c) Pydantic.min_length_1)
              MemoryCreate.content_not_empty).
  eexists. split; [reflexivity|]. by left.
Qed.

Lemma MemoryCreate_init_missing_agent_id p c (md : option json_obj) :
  exists errs,
    MemoryCreate.init p None c md = Raise (ValidationError errs) /\
    ("agent_id", "Field required") ∈ errs.
Proof.
  unfold MemoryCreate.init. simpl.
  set (P := obind (Pydantic.required p) Pydantic.min_length_1).
  set (C := obind (obind (Pydantic.required c) Pydantic.min_length_1)
              MemoryCreate.content_not_empty).
  exists (Pydantic.errors_of "project_id" P ++ [("agent_id", "Field required")]
          ++ Pydantic.errors_of "content" C).
  split; [by destruct P|].
  rewrite !elem_of_app. right. left. by left.
Qed.

(** C9.  A store or update request whose content is empty or consists of
    whitespace only is refused by its model with a validation error that
    names [content], and a store request without [project_id] or without
    [agent_id] with one that names the missing field; the facade then
    raises without having touched the store, the engine or the provider.
    In every world a store can get into, no record has an empty or
    whitespace-only document. *)
Theorem blank_content_rejected content (w : world vector) :
  PyStr.all_space content = true ->
  reachable (json_obj := json_obj) (datetime := datetime)
    (where_clause := where_clause) w ->
  (forall p a (md : option json_obj),
      exists errs msg,
        MemoryCreate.init p a (Some content) md = Raise (ValidationError errs) /\
        ("content", msg) ∈ errs) /\
  (forall md : option json_obj,
      exists msg,
        MemoryUpdate.init (Some content) md
        = Raise (ValidationError [("content", msg)])) /\
  (forall a c (md : option json_obj),
      exists errs,
        MemoryCreate.init None a c md = Raise (ValidationError errs) /\
        ("project_id", "Field required") ∈ errs) /\
  (forall p c (md : option json_obj),
      exists errs,
        MemoryCreate.init p None c md = Raise (ValidationError errs) /\
        ("agent_id", "Field required") ∈ errs) /\
  (forall uuid4 (now : datetime) arguments (md : option json_obj) (w0 : world vector),
      arguments !! "content" = Some content ->
      exists e, call_tool_store_memory uuid4 now arguments md w0 = (Raise e, w0)) /\
  (forall (now : datetime) arguments (md : option json_obj) (w0 : world vector),
      arguments !! "content" = Some content ->
      exists e,
        call_tool_update_memory now arguments md w0 = (Raise e, w0)) /\
  (forall name c r,
      collections w !! name = Some c ->
      r ∈ col_records c ->
      PyStr.all_space (rec_document r) = false).
Proof.
  intros Hspace Hreach. rewrite <- blank_all_space in Hspace.
  split_and!.
  - intros p a md. by apply MemoryCreate_init_blank.
  - intros md. by apply MemoryUpdate_init_blank.
  - apply MemoryCreate_init_missing_project_id.
  - apply MemoryCreate_init_missing_agent_id.
  - intros uuid4 now arguments md w0 Hc.
    unfold call_tool_store_memory, bind, lift, getitem. rewrite Hc.
    destruct (arguments !! "project_id") as [p|]; [|by eexists].
    destruct (arguments !! "agent_id") as [a|]; [|by eexists].
    destruct (MemoryCreate_init_blank (Some p) (Some a) content
                (Some (default empty_dict md)) Hspace) as (errs & msg & -> & _).
    by eexists.
  - intros now arguments md w0 Hc.
    unfold call_tool_update_memory, bind, lift. rewrite Hc.
    destruct (MemoryUpdate_init_blank content md Hspace) as (msg & ->).
    by eexists.
  - intros name c r Hc Hr. rewrite <- blank_all_space.
    by apply (reachable_content_at_rest w Hreach name c r).
Qed.

End Rejection.

(** ** The concrete codecs read back what they write *)

Section DigitsProps.

Import Digits.

Lemma read_uint_chars u rest :
  ends_numeral rest = true ->
  read_uint (chars_of_uint u ++ rest) = (u, rest).
Proof.
  intros Hrest. induction u as [|u IH|u IH|u IH|u IH|u IH|u IH|u IH|u IH|u IH|u IH];
    simpl; try (by rewrite IH).
  destruct rest as [|c rest]; [done|]. simpl in *.
  unfold is_digit in Hrest. by destruct (digit_of_char c).
Qed.

Lemma read_uint_zeros k s :
  read_uint (List.repeat "0"%char k ++ s)
  = (Nat.iter k Decimal.D0 (read_uint s).1, (read_uint s).2).
Proof.
  induction k as [|k IH]; simpl.
  - by destruct (read_uint s).
  - by rewrite IH.
Qed.

Lemma of_uint_zeros k u : N.of_uint (Nat.iter k Decimal.D0 u) = N.of_uint u.
Proof. induction k as [|k IH]; simpl; [done|]. exact IH. Qed.

Lemma chars_of_uint_head u :
  u <> Decimal.Nil ->
  exists c tl, chars_of_uint u = c :: tl /\ is_digit c = true.
Proof. destruct u; intros H; try done; simpl; by eexists _, _. Qed.

Lemma to_uint_not_Nil n : N.to_uint n <> Decimal.Nil.
Proof.
  intros H. pose proof (Unsigned.of_to n) as Hn. rewrite H in Hn.
  simpl in Hn. subst n. discriminate H.
Qed.

Lemma of_N_head n : exists c tl, of_N n = c :: tl /\ is_digit c = true.
Proof. apply chars_of_uint_head, to_uint_not_Nil. Qed.

(** A numeral, padded or not, is read back as its value. *)
Lemma read_N_padded width n rest :
  ends_numeral rest = true ->
  read_N (padded width n ++ rest) = Some (n, rest).
Proof.
  intros Hrest. unfold padded.
  set (k := (width - length (of_N n))%nat). clearbody k.
  assert (exists c tl, List.repeat "0"%char k ++ of_N n = c :: tl /\
                       is_digit c = true) as (c & tl & Heq & Hc).
  { destruct k as [|k]; simpl; [apply of_N_head|by eexists _, _]. }
  unfold read_N. rewrite <- app_assoc.
  assert (read_uint (List.repeat "0"%char k ++ of_N n ++ rest)
          = (Nat.iter k Decimal.D0 (N.to_uint n), rest)) as Hread.
  { rewrite read_uint_zeros. unfold of_N. by rewrite read_uint_chars. }
  rewrite app_assoc, Heq in *. simpl in *. rewrite Hc.
  rewrite Hread. by rewrite of_uint_zeros, Unsigned.of_to.
Qed.

Lemma read_N_of_N n rest :
  ends_numeral rest = true -> read_N (of_N n ++ rest) = Some (n, rest).
Proof.
  intros Hrest. pose proof (read_N_padded 0 n rest Hrest) as H.
  by unfold padded in H.
Qed.

End DigitsProps.

Section IsoDatetimeProps.

Import IsoDatetime.

Lemma read_fraction_fraction us : read_fraction (fraction us) = Some us.
Proof.
  unfold fraction. destruct (us =? 0)%N eqn:Hus.
  - apply N.eqb_eq in Hus. by subst.
  - simpl. pose proof (read_N_padded 6 us [] eq_refl) as H.
    rewrite app_nil_r in H. by rewrite H.
Qed.

Lemma ends_numeral_fraction us : Digits.ends_numeral (fraction us) = true.
Proof. unfold fraction. by destruct (us =? 0)%N. Qed.

Lemma parse_print d : parse (print d) = Some d.
Proof.
  destruct d as [y mo da h mi se us]. unfold parse, print. simpl.
  rewrite read_N_padded by done. simpl.
  rewrite read_N_padded by done. simpl.
  rewrite read_N_padded by done. simpl.
  rewrite read_N_padded by done. simpl.
  rewrite read_N_padded by done. simpl.
  rewrite read_N_padded by apply ends_numeral_fraction. simpl.
  by rewrite read_fraction_fraction.
Qed.

Lemma fromisoformat_isoformat_iso d : fromisoformat (isoformat d) = Some d.
Proof.
  unfold fromisoformat, isoformat.
  rewrite list_ascii_of_string_of_list_ascii. apply parse_print.
Qed.

End IsoDatetimeProps.

#[export] Instance datetime_codec_laws : DatetimeCodecLaws datetime_codec.
Proof. constructor. exact fromisoformat_isoformat_iso. Qed.

Section JsonProps.

Import Json.

(** Induction on JSON values, through arrays and objects. *)
Lemma value_ind' (P : value -> Prop) :
  P Null ->
  (forall b, P (Bool b)) ->
  (forall z, P (Int z)) ->
  (forall s, P (Str s)) ->
  (forall l, Forall P l -> P (Array l)) ->
  (forall l, Forall (fun kv => P kv.2) l -> P (Object l)) ->
  forall v, P v.
Proof.
  intros HN HB HI HS HA HO. fix IH 1. intros [|b|z|s|l|l].
  - exact HN.
  - apply HB.
  - apply HI.
  - apply HS.
  - apply HA. revert l. fix IHl 1. intros [|x l]; constructor; [apply IH|apply IHl].
  - apply HO. revert l. fix IHl 1. intros [|[k x] l]; constructor; [apply IH|apply IHl].
Qed.

Lemma parse_chars_escape_char c rest :
  parse_chars (escape_char c ++ rest)
  = match parse_chars rest with
    | Some (t, r) => Some (String c t, r)
    | None => None
    end.
Proof. destruct c as [[] [] [] [] [] [] [] []]; reflexivity. Qed.

Lemma parse_chars_escape s rest :
  parse_chars (escape s ++ quote :: rest) = Some (s, rest).
Proof.
  induction s as [|c s IH]; simpl; [done|].
  by rewrite <- app_assoc, parse_chars_escape_char, IH.
Qed.

Lemma digit_is_not c n :
  Digits.is_digit c = true -> (n < 48 \/ 57 < n)%N -> is_char c n = false.
Proof.
  intros Hc Hn. unfold is_char. apply N.eqb_neq. intros <-.
  destruct c as [[] [] [] [] [] [] [] []]; try discriminate Hc; simpl in Hn; lia.
Qed.

Lemma parse_int_digit c s :
  Digits.is_digit c = true ->
  parse_int (c :: s)
  = match Digits.read_N (c :: s) with
    | Some (n, rest) => Some (Z.of_N n, rest)
    | None => None
    end.
Proof.
  intros Hc. unfold parse_int. by rewrite (digit_is_not c 45) by (done || lia).
Qed.

Lemma parse_int_print_int z rest :
  Digits.ends_numeral rest = true ->
  parse_int (print_int z ++ rest) = Some (z, rest).
Proof.
  intros Hrest. unfold print_int. destruct (z <? 0) eqn:Hz.
  - change (parse_int (("-"%char :: Digits.of_N (Z.abs_N z)) ++ rest))
      with (match Digits.read_N (Digits.of_N (Z.abs_N z) ++ rest) with
            | Some (n, r) => Some (- Z.of_N n, r)
            | None => None
            end).
    rewrite read_N_of_N by done. f_equal. f_equal. lia.
  - destruct (of_N_head (Z.to_N z)) as (c & tl & Heq & Hc).
    pose proof (parse_int_digit c (tl ++ rest) Hc) as Hp.
    change (c :: tl ++ rest) with ((c :: tl) ++ rest) in Hp.
    rewrite <- Heq in Hp. rewrite Hp.
    rewrite read_N_of_N by done. f_equal. f_equal. lia.
Qed.

(** *** Unfoldings of the parser *)

Lemma parse_value_int fuel c s :
  Digits.is_digit c || is_char c 45 = true ->
  parse_value (S fuel) (c :: s)
  = match parse_int (c :: s) with
    | Some (z, r) => Some (Int z, r)
    | None => None
    end.
Proof. intros H. simpl. by rewrite H. Qed.

Lemma parse_value_array fuel c s :
  is_char c 93 = false ->
  parse_value (S fuel) ("["%char :: c :: s)
  = match parse_items fuel (c :: s) with
    | Some (l, r) => Some (Array l, r)
    | None => None
    end.
Proof. intros H. simpl. by rewrite H. Qed.

Lemma parse_value_object fuel c s :
  is_char c 125 = false ->
  parse_value (S fuel) ("{"%char :: c :: s)
  = match parse_members fuel (c :: s) with
    | Some (l, r) => Some (Object l, r)
    | None => None
    end.
Proof. intros H. simpl. by rewrite H. Qed.

Lemma parse_items_S fuel s :
  parse_items (S fuel) s
  = match parse_value fuel s with
    | Some (v, c :: rest) =>
        if is_char c 44 then
          match parse_items fuel (skip_space rest) with
          | Some (l, r) => Some (v :: l, r)
          | None => None
          end
        else if is_char c 93 then Some ([v], rest)
        else None
    | _ => None
    end.
Proof. reflexivity. Qed.

Lemma parse_members_S fuel s' :
  parse_members (S fuel) (quote :: s')
  = match parse_chars s' with
    | Some (k, c1 :: s'') =>
        if is_char c1 58 then
          match parse_value fuel (skip_space s'') with
          | Some (v, c2 :: rest) =>
              if is_char c2 44 then
                match parse_members fuel (skip_space rest) with
                | Some (l, r) => Some ((k, v) :: l, r)
                | None => None
                end
              else if is_char c2 125 then Some ([(k, v)], rest)
              else None
          | _ => None
          end
        else None
    | _ => None
    end.
Proof. reflexivity. Qed.

(** *** What a printed value starts with *)

Lemma print_head v :
  exists c tl,
    print v = c :: tl /\ is_char c 93 = false /\ is_char c 32 = false.
Proof.
  destruct v as [|[]|z|s|l|l]; try (by eexists _, _).
  simpl. unfold print_int. destruct (z <? 0); [by eexists _, _|].
  destruct (of_N_head (Z.to_N z)) as (c & tl & Heq & Hc).
  exists c, tl. split_and!; [done|apply digit_is_not; (done || lia)..].
Qed.

Lemma print_int_head z :
  exists c tl,
    print_int z = c :: tl /\ Digits.is_digit c || is_char c 45 = true.
Proof.
  unfold print_int. destruct (z <? 0); [by eexists _, _|].
  destruct (of_N_head (Z.to_N z)) as (c & tl & Heq & Hc).
  exists c, tl. by rewrite Hc.
Qed.

Lemma skip_space_print v rest : skip_space (print v ++ rest) = print v ++ rest.
Proof.
  destruct (print_head v) as (c & tl & -> & _ & Hc). simpl. by rewrite Hc.
Qed.

(** *** Values *)

Local Abbreviation items_fuel :=
  (List.fold_right (fun x acc => S (size x + acc)) O).
Local Abbreviation members_fuel :=
  (List.fold_right (fun (kv : string * value) acc => S (size kv.2 + acc)) O).
Local Abbreviation member_print := (print_member print).

Let reads (v : value) : Prop :=
  forall fuel rest,
    (size v <= fuel)%nat ->
    Digits.ends_numeral rest = true ->
    parse_value fuel (print v ++ rest) = Some (v, rest).

Lemma join_two (a b : list ascii) l :
  join (a :: b :: l) = a ++ ","%char :: " "%char :: join (b :: l).
Proof. reflexivity. Qed.

Lemma skip_space_space s : skip_space (" "%char :: s) = skip_space s.
Proof. reflexivity. Qed.

Lemma skip_space_items v l rest :
  skip_space (join (List.map print (v :: l)) ++ rest)
  = join (List.map print (v :: l)) ++ rest.
Proof.
  destruct l as [|y l]; cbn [List.map].
  - apply skip_space_print.
  - rewrite join_two, <- app_assoc. apply skip_space_print.
Qed.

Lemma parse_items_print l :
  l <> [] ->
  Forall (fun x => reads x) l ->
  forall fuel rest,
    (items_fuel l <= fuel)%nat ->
    parse_items fuel (join (List.map print l) ++ "]"%char :: rest) = Some (l, rest).
Proof.
  induction l as [|x l IH]; [done|].
  intros _ HF fuel rest Hfuel.
  inversion HF as [|? ? Hx Hl]; subst.
  destruct fuel as [|f]; [simpl in Hfuel; lia|].
  cbn [List.fold_right] in Hfuel.
  rewrite parse_items_S. destruct l as [|y l].
  - cbn [List.map join]. rewrite Hx by (done || lia). reflexivity.
  - cbn [List.map]. rewrite join_two, <- app_assoc.
    cbn [app]. rewrite Hx by (done || lia).
    change (is_char ","%char 44) with true. cbv iota.
    rewrite skip_space_space.
    change (print y :: List.map print l) with (List.map print (y :: l)).
    rewrite skip_space_items.
    rewrite IH; [done|done|done|lia].
Qed.

Lemma member_print_app k v tail :
  member_print (k, v) ++ tail
  = quote :: escape k ++ quote :: ":"%char :: " "%char :: print v ++ tail.
Proof. unfold print_member, print_string. cbn. by rewrite <- !app_assoc. Qed.

Lemma parse_members_print l :
  l <> [] ->
  Forall (fun kv : string * value => reads kv.2) l ->
  forall fuel rest,
    (members_fuel l <= fuel)%nat ->
    parse_members fuel (join (List.map member_print l) ++ "}"%char :: rest)
    = Some (l, rest).
Proof.
  induction l as [|[k x] l IH]; [done|].
  intros _ HF fuel rest Hfuel.
  inversion HF as [|? ? Hx Hl]; subst. simpl in Hx.
  destruct fuel as [|f]; [simpl in Hfuel; lia|].
  cbn [List.fold_right snd] in Hfuel.
  destruct l as [|[k' y] l].
  - cbn [List.map join]. rewrite member_print_app, parse_members_S.
    rewrite parse_chars_escape.
    change (is_char ":"%char 58) with true. cbv iota.
    rewrite skip_space_space, skip_space_print.
    rewrite Hx by (done || lia). reflexivity.
  - cbn [List.map]. rewrite join_two, <- app_assoc.
    rewrite member_print_app, parse_members_S.
    rewrite parse_chars_escape.
    change (is_char ":"%char 58) with true. cbv iota.
    rewrite skip_space_space, skip_space_print.
    cbn [app]. rewrite Hx by (done || lia).
    change (is_char ","%char 44) with true. cbv iota.
    rewrite skip_space_space.
    change (member_print (k', y) :: List.map member_print l)
      with (List.map member_print ((k', y) :: l)).
    assert (forall t, skip_space (join (List.map member_print ((k', y) :: l)) ++ t)
                      = join (List.map member_print ((k', y) :: l)) ++ t) as ->.
    { intros t. destruct l as [|kv l]; cbn [List.map].
      - cbn [join]. by rewrite member_print_app.
      - by rewrite join_two, <- app_assoc, member_print_app. }
    rewrite IH; [done|done|done|lia].
Qed.

(** A printed value is read back, whatever follows it that does not
    continue a numeral. *)
Lemma parse_value_print v : reads v.
Proof.
  induction v as [|b|z|s|l IH|l IH] using value_ind'; intros fuel rest Hfuel Hrest;
    (destruct fuel as [|f]; [simpl in Hfuel; lia|]).
  - reflexivity.
  - by destruct b.
  - destruct (print_int_head z) as (c & tl & Heq & Hc).
    cbn [print]. pose proof (parse_value_int f c (tl ++ rest) Hc) as Hp.
    change (c :: tl ++ rest) with ((c :: tl) ++ rest) in Hp. rewrite <- Heq in Hp.
    rewrite Hp. by rewrite parse_int_print_int.
  - cbn [print]. unfold print_string.
    change (parse_value (S f) ((quote :: escape s ++ [quote]) ++ rest))
      with (match parse_chars ((escape s ++ [quote]) ++ rest) with
            | Some (t, r) => Some (Str t, r)
            | None => None
            end).
    rewrite <- app_assoc. cbn [app]. by rewrite parse_chars_escape.
  - destruct l as [|x l]; [reflexivity|].
    cbn [print]. cbn [app]. rewrite <- app_assoc. cbn [app].
    destruct (print_head x) as (c & tl & Hhead & Hc & _).
    assert (exists tl', join (List.map print (x :: l)) ++ "]"%char :: rest = c :: tl')
      as [tl' Htl'].
    { destruct l as [|y l]; cbn [List.map].
      - cbn [join]. rewrite Hhead. by eexists.
      - rewrite join_two, Hhead. by eexists. }
    pose proof (parse_value_array f c tl' Hc) as Hp. rewrite <- Htl' in Hp.
    rewrite Hp. cbn [size] in Hfuel.
    rewrite parse_items_print; [done|done|done|lia].
  - destruct l as [|[k x] l]; [reflexivity|].
    cbn [print]. cbn [app]. rewrite <- app_assoc. cbn [app].
    assert (exists tl',
               join (List.map member_print ((k, x) :: l)) ++ "}"%char :: rest
               = quote :: tl') as [tl' Htl'].
    { destruct l as [|y l]; cbn [List.map].
      - cbn [join]. rewrite member_print_app. by eexists.
      - rewrite join_two, <- app_assoc, member_print_app. by eexists. }
    pose proof (parse_value_object f quote tl' eq_refl) as Hp.
    rewrite <- Htl' in Hp. rewrite Hp. cbn [size] in Hfuel.
    rewrite parse_members_print; [done|done|done|lia].
Qed.

(** *** Fuel *)

Lemma items_fuel_le_length l :
  Forall (fun x => (size x <= length (print x))%nat) l ->
  (items_fuel l <= S (length (join (List.map print l))))%nat.
Proof.
  induction 1 as [|x l Hx Hl IH]; [simpl; lia|].
  cbn [List.fold_right List.map]. destruct l as [|y l].
  - cbn [join List.fold_right List.map]. lia.
  - cbn [List.map] in *. rewrite join_two. rewrite length_app. cbn [length].
    cbn [List.fold_right] in *. lia.
Qed.

Lemma members_fuel_le_length l :
  Forall (fun kv : string * value => (size kv.2 <= length (print kv.2))%nat) l ->
  (members_fuel l <= S (length (join (List.map member_print l))))%nat.
Proof.
  assert (forall kv : string * value,
             (length (print kv.2) <= length (member_print kv))%nat) as Hmem.
  { intros kv. unfold print_member. rewrite !length_app. lia. }
  induction 1 as [|x l Hx Hl IH]; [simpl; lia|].
  cbn [List.fold_right List.map]. pose proof (Hmem x). destruct l as [|y l].
  - cbn [join List.fold_right List.map]. lia.
  - cbn [List.map] in *. rewrite join_two. rewrite length_app. cbn [length].
    cbn [List.fold_right] in *. lia.
Qed.

Lemma size_le_length v : (size v <= length (print v))%nat.
Proof.
  induction v as [|b|z|s|l IH|l IH] using value_ind'.
  - simpl. lia.
  - destruct b; simpl; lia.
  - destruct (print_int_head z) as (c & tl & Heq & _). cbn [print size].
    rewrite Heq. simpl. lia.
  - simpl. lia.
  - cbn [print size length]. rewrite length_app. cbn [length].
    pose proof (items_fuel_le_length l IH). lia.
  - cbn [print size length]. rewrite length_app. cbn [length].
    pose proof (members_fuel_le_length l IH). lia.
Qed.

Lemma length_string_of_list_ascii l :
  String.length (string_of_list_ascii l) = length l.
Proof. induction l as [|c l IH]; simpl; [done|]. by rewrite IH. Qed.

(** *** The codec *)

Lemma loads_dumps m : loads (dumps m) = Some m.
Proof.
  unfold loads, dumps, chars, print_object.
  rewrite list_ascii_of_string_of_list_ascii, length_string_of_list_ascii.
  pose proof (parse_value_print (Object m) (S (length (print (Object m)))) []) as H.
  rewrite app_nil_r in H. rewrite H; [done| |done].
  pose proof (size_le_length (Object m)). lia.
Qed.

Lemma dumps_truthy m : PyStr.truthy (dumps m) = true.
Proof. reflexivity. Qed.

End JsonProps.

#[export] Instance json_codec_laws : JsonCodecLaws json_codec.
Proof. constructor; [exact loads_dumps|exact dumps_truthy]. Qed.

(** ** The concrete index keeps the contract *)

Section ChromaIndexProps.

Import ChromaIndex.

Lemma elem_of_insert_hit {A} (x h : A * Q) l :
  x ∈ insert_hit h l -> x = h \/ x ∈ l.
Proof.
  induction l as [|h' l IH]; simpl.
  - intros Hx. apply list_elem_of_singleton in Hx. by left.
  - destruct (Qle_bool h.2 h'.2).
    + intros Hx. apply elem_of_cons in Hx as [->|Hx]; [by left|by right].
    + intros Hx. apply elem_of_cons in Hx as [->|Hx].
      * right. by left.
      * destruct (IH Hx) as [->|Hl]; [by left|]. right. by right.
Qed.

Lemma elem_of_nearest_first {A} (x : A * Q) l : x ∈ nearest_first l -> x ∈ l.
Proof.
  induction l as [|h l IH]; simpl; [done|].
  intros Hx. apply elem_of_insert_hit in Hx as [->|Hx]; [by left|].
  right. by apply IH.
Qed.

Lemma query_Return q n wh rs hits :
  query q n wh rs = Return hits ->
  0 < n /\
  hits = take (Z.to_nat n)
           (nearest_first
              (List.map (fun r => (r, squared_l2 q (rec_embedding r)))
                 (List.filter (matches wh) rs))).
Proof.
  unfold query. destruct (n <=? 0) eqn:Hn; [done|].
  intros [= <-]. split; [lia|done].
Qed.

Lemma chroma_index_answers : knn_answers (VectorIndex0 := chroma_index).
Proof.
  intros q n wh rs Hn. simpl. unfold query.
  assert ((n <=? 0) = false) as -> by lia. by eexists.
Qed.

Lemma chroma_index_at_most : knn_at_most (VectorIndex0 := chroma_index).
Proof.
  intros q n wh rs hits Hq. apply query_Return in Hq as [Hn ->].
  rewrite length_take. lia.
Qed.

Lemma chroma_index_from_records : knn_from_records (VectorIndex0 := chroma_index).
Proof.
  intros q n wh rs hits Hq h Hh. apply query_Return in Hq as [Hn ->].
  apply subseteq_take, elem_of_nearest_first in Hh.
  rewrite list_elem_of_In in Hh. apply in_map_iff in Hh as (r & <- & Hr).
  apply filter_In in Hr as [Hr _]. simpl. by rewrite list_elem_of_In.
Qed.

End ChromaIndexProps.

(** ** The claims on the scenarios *)

Section Scenarios.

Import Scenario.

Lemma reachable_after_jwt :
  reachable (json_obj := json_obj) (datetime := IsoDatetime.t)
    (where_clause := ChromaIndex.where_clause) after_jwt.
Proof.
  exists []. eapply rtc_l; [|apply rtc_refl].
  by apply (step_store id1 t0 (Some "p1") (Some "a1") (Some "Use JWT for auth")
              (Some [("tags", Json.Array [Json.Str "auth"])]) jwt_request fresh).
Qed.

Lemma reachable_after_slash :
  reachable (json_obj := json_obj) (datetime := IsoDatetime.t)
    (where_clause := ChromaIndex.where_clause) after_slash.
Proof.
  exists []. eapply rtc_l; [|apply rtc_refl].
  by apply (step_store id1 t0 (Some "a/b") (Some "x")
              (Some "Rotate the signing key monthly") (Some []) slash_request fresh).
Qed.

(** C1, the claim as stated fails: the memory stored under project
    ["a/b"] is returned by [get_memory] under project ["a_b"]. *)
Lemma isolation_fails_for_colliding_ids :
  "a/b" <> "a_b" /\
  reachable (json_obj := json_obj) (datetime := IsoDatetime.t)
    (where_clause := ChromaIndex.where_clause) after_slash /\
  exists m w',
    get_memory "a_b" "x" id1 after_slash = (Return (Some m), w') /\
    Memory.project_id m = "a/b" /\ Memory.agent_id m = "x".
Proof.
  split; [done|]. split; [exact reachable_after_slash|].
  exists slash_memory, (get_memory (json_obj := json_obj) (datetime := IsoDatetime.t)
                          "a_b" "x" id1 after_slash).2.
  split; [by vm_compute|done].
Qed.

Lemma isolation_between_partitions_witness :
  knn_from_records (VectorIndex0 := chroma_index) /\
  reachable (json_obj := json_obj) (datetime := IsoDatetime.t)
    (where_clause := ChromaIndex.where_clause) after_jwt /\
  _get_collection_name "p1" "a1" <> _get_collection_name "p2" "a1" /\
  forall id (m : memory) w',
    get_memory "p2" "a1" id after_jwt = (Return (Some m), w') ->
    ~ (Memory.project_id m = "p1" /\ Memory.agent_id m = "a1").
Proof.
  split; [exact chroma_index_from_records|].
  split; [exact reachable_after_jwt|].
  split; [by vm_compute|].
  apply (isolation_between_partitions after_jwt "p1" "a1" "p2" "a1").
  - exact chroma_index_from_records.
  - exact reachable_after_jwt.
  - by vm_compute.
Defined.

Lemma store_memory_embedding_failure_witness :
  embed (EmbeddingProvider := unreachable_provider)
    (MemoryCreate.content jwt_request) = None /\
  (exists e,
      (store_memory (EmbeddingProvider0 := unreachable_provider)
         id1 t0 jwt_request fresh).1 = Raise e) /\
  (forall name,
      records_of name
        (store_memory (EmbeddingProvider0 := unreachable_provider)
           id1 t0 jwt_request fresh).2
      = records_of name fresh).
Proof.
  split; [reflexivity|].
  apply (store_memory_embedding_failure (EmbeddingProvider0 := unreachable_provider)
           id1 t0 jwt_request fresh).
  reflexivity.
Defined.

Lemma get_memory_after_jwt :
  get_memory "p1" "a1" id1 after_jwt
  = (Return (Some jwt_memory),
     (get_memory (json_obj := json_obj) (datetime := IsoDatetime.t)
        "p1" "a1" id1 after_jwt).2).
Proof. by vm_compute. Qed.

Lemma update_memory_embed_calls_witness :
  faults after_jwt = [] /\
  embed_log (update_memory t1 "p1" "a1" id1 new_content after_jwt).2
  = embed_log after_jwt ++ ["Use OAuth 2.0 for auth"].
Proof.
  split; [reflexivity|].
  apply (update_memory_embed_calls t1 "p1" "a1" id1 new_content after_jwt
           jwt_memory
           (get_memory (json_obj := json_obj) (datetime := IsoDatetime.t)
              "p1" "a1" id1 after_jwt).2).
  - reflexivity.
  - exact get_memory_after_jwt.
Defined.

(** C4, the code on the failing inputs: a second [delete_memory] of the
    id just deleted returns [True], and a failure of the engine while the
    partition is resolved is raised to the caller. *)
Theorem delete_memory_on_absent_id_and_on_failure :
  let w1 := (delete_memory "p1" "a1" id1 after_jwt).2 in
  (delete_memory "p1" "a1" id1 after_jwt).1 = Return true /\
  (get_memory (json_obj := json_obj) (datetime := IsoDatetime.t)
     "p1" "a1" id1 w1).1 = Return None /\
  (delete_memory "p1" "a1" id1 w1).1 = Return true /\
  (delete_memory "p1" "a1" id1 (set_faults [true] after_jwt)).1
  = Raise EngineError /\
  (delete_memory "p1" "a1" id1 (set_faults [false; true] after_jwt)).1
  = Return false.
Proof. by vm_compute. Qed.

Lemma search_after_jwt :
  search_memories "p1" "a1" "anything" 5 None after_jwt
  = (Return [jwt_hit],
     (search_memories (json_obj := json_obj) (datetime := IsoDatetime.t)
        "p1" "a1" "anything" 5 None after_jwt).2).
Proof. by vm_compute. Qed.

Lemma similarity_score_bounds_witness :
  (0 <= SearchResult.similarity_score jwt_hit)%Q /\
  (SearchResult.similarity_score jwt_hit <= 1)%Q.
Proof.
  destruct (similarity_score_bounds "p1" "a1" "anything" 5 None after_jwt
              [jwt_hit]
              (search_memories (json_obj := json_obj) (datetime := IsoDatetime.t)
                 "p1" "a1" "anything" 5 None after_jwt).2
              search_after_jwt) as [(e & wh & rs & hits & _ & Hall) _].
  inversion Hall as [|h sr hits' results' (_ & _ & H0 & H1) _]; subst.
  by split.
Defined.

Lemma store_then_get_round_trip_witness :
  exists (m : memory) w1 w2,
    store_memory id1 t0 jwt_request fresh = (Return m, w1) /\
    get_memory "p1" "a1" (Memory.memory_id m) w1 = (Return (Some m), w2) /\
    Memory.content m = "Use JWT for auth" /\
    Memory.metadata m = [("tags", Json.Array [Json.Str "auth"])].
Proof.
  apply (store_then_get_round_trip id1 t0 "p1" "a1" "Use JWT for auth"
           (Some [("tags", Json.Array [Json.Str "auth"])]) jwt_request fresh).
  - reflexivity.
  - reflexivity.
  - by eexists.
  - vm_compute. constructor.
Defined.


(** C8, the claim as stated fails: with a [limit] of zero the index
    rejects the query and [search_memories] raises. *)
Lemma search_with_limit_zero_raises :
  (search_memories (json_obj := json_obj) (datetime := IsoDatetime.t)
     "p1" "a1" "anything" 0 None fresh).1
  = Raise EngineError.
Proof. by vm_compute. Qed.

Lemma search_memories_at_most_limit_witness :
  knn_answers (VectorIndex0 := chroma_index) /\
  knn_at_most (VectorIndex0 := chroma_index) /\
  knn_from_records (VectorIndex0 := chroma_index) /\
  (search_memories (json_obj := json_obj) (datetime := IsoDatetime.t)
     "p1" "a1" "anything" 5 None fresh).1 = Return [].
Proof.
  split; [exact chroma_index_answers|].
  split; [exact chroma_index_at_most|].
  split; [exact chroma_index_from_records|].
  destruct (search_memories_at_most_limit (json_obj := json_obj)
              (datetime := IsoDatetime.t) "p1" "a1" "anything" None fresh
              chroma_index_answers chroma_index_at_most chroma_index_from_records)
    as (_ & _ & Hempty).
  apply Hempty; [reflexivity|by eexists|lia|reflexivity].
Defined.

Lemma blank_content_rejected_witness :
  PyStr.all_space "   " = true /\
  (forall p a (md : option json_obj),
      exists errs msg,
        MemoryCreate.init p a (Some "   ") md = Raise (ValidationError errs) /\
        ("content", msg) ∈ errs) /\
  (forall name c r,
      collections after_jwt !! name = Some c ->
      r ∈ col_records c ->
      PyStr.all_space (rec_document r) = false).
Proof.
  split; [reflexivity|].
  destruct (blank_content_rejected (json_obj := json_obj) (datetime := IsoDatetime.t)
              (where_clause := ChromaIndex.where_clause) "   " after_jwt
              eq_refl reachable_after_jwt)
    as (Hcreate & _ & _ & _ & _ & _ & Hrest).
  by split.
Defined.

Lemma partition_created_by_every_operation_witness :
  hd false (faults fresh) = false /\
  collections
    (get_memory (json_obj := json_obj) (datetime := IsoDatetime.t)
       "p9" "a9" id1 fresh).2
  = <[_get_collection_name "p9" "a9" := fresh_partition "p9" "a9"]>
      (collections fresh) /\
  (get_memory (json_obj := json_obj) (datetime := IsoDatetime.t)
     "p9" "a9" id1 fresh).1 = Return None.
Proof.
  split; [reflexivity|].
  destruct (partition_created_by_every_operation (json_obj := json_obj)
              (datetime := IsoDatetime.t) (where_clause := ChromaIndex.where_clause)
              fresh "p9" "a9" eq_refl)
    as [_ Hfresh].
  destruct (Hfresh eq_refl) as (Hget & _ & _ & _ & _ & Hnone).
  split; [apply Hget|by apply Hnone].
Defined.

End Scenarios.

(** ** What the methods touch *)

Section EffectRules.

Context {vector where_clause : Type} `{!VectorIndex vector where_clause}.
Implicit Types w : world vector.

Lemma silent_ret {A} (a : A) : silent (vector := vector) (ret a).
Proof. done. Qed.

Lemma silent_lift {A} (o : outcome A) : silent (vector := vector) (lift o).
Proof. done. Qed.

Lemma silent_bind {A B} (m : M vector A) (k : A -> M vector B) :
  silent m -> (forall a, silent (k a)) -> silent (bind m k).
Proof.
  intros Hm Hk w. unfold bind. specialize (Hm w).
  destruct (m w) as [[a|e] w1]; simpl in *; [|done].
  by rewrite Hk.
Qed.

Lemma silent_try_except {A} (m : M vector A) h :
  silent m -> (forall e, silent (h e)) -> silent (try_except m h).
Proof.
  intros Hm Hh w. unfold try_except. specialize (Hm w).
  destruct (m w) as [[a|e] w1]; simpl in *; [done|].
  by rewrite Hh.
Qed.

Lemma silent_mapM_lift {A B} (f : A -> outcome B) (l : list A) :
  silent (vector := vector) (mapM (fun x => lift (f x)) l).
Proof.
  induction l as [|x l IH]; simpl; [apply silent_ret|].
  apply silent_bind; [apply silent_lift|]. intros y.
  apply silent_bind; [exact IH|]. intros ys. apply silent_ret.
Qed.

Lemma silent_engine_call : silent (vector := vector) engine_call.
Proof. intros w. apply engine_call_embed_log. Qed.

Lemma silent_get_or_create_collection name md :
  silent (vector := vector) (get_or_create_collection name md).
Proof.
  unfold get_or_create_collection.
  apply silent_bind; [apply silent_engine_call|].
  intros _ w. simpl. unfold ensure_collection.
  by destruct (collections w !! name).
Qed.

Lemma silent_read_collection {A} handle (f : collection vector -> outcome A) :
  silent (read_collection handle f).
Proof.
  unfold read_collection.
  apply silent_bind; [apply silent_engine_call|].
  intros _ w. by destruct (collections w !! handle).
Qed.

Lemma silent_write_collection handle f :
  silent (vector := vector) (write_collection handle f).
Proof.
  unfold write_collection.
  apply silent_bind; [apply silent_engine_call|].
  intros _ w. by destruct (collections w !! handle).
Qed.

Lemma read_only_ret {A} (a : A) : read_only (vector := vector) (ret a).
Proof. done. Qed.

Lemma read_only_lift {A} (o : outcome A) : read_only (vector := vector) (lift o).
Proof. done. Qed.

Lemma read_only_bind {A B} (m : M vector A) (k : A -> M vector B) :
  read_only m -> (forall a, read_only (k a)) -> read_only (bind m k).
Proof.
  intros Hm Hk w name. unfold bind. specialize (Hm w name).
  destruct (m w) as [[a|e] w1]; simpl in *; [|done].
  by rewrite Hk.
Qed.

Lemma read_only_mapM_lift {A B} (f : A -> outcome B) (l : list A) :
  read_only (vector := vector) (mapM (fun x => lift (f x)) l).
Proof.
  induction l as [|x l IH]; simpl; [apply read_only_ret|].
  apply read_only_bind; [apply read_only_lift|]. intros y.
  apply read_only_bind; [exact IH|]. intros ys. apply read_only_ret.
Qed.

Lemma read_only_engine_call : read_only (vector := vector) engine_call.
Proof.
  intros w name. unfold records_of. by rewrite engine_call_collections.
Qed.

Lemma read_only_get_or_create_collection name md :
  read_only (vector := vector) (get_or_create_collection name md).
Proof.
  unfold get_or_create_collection.
  apply read_only_bind; [apply read_only_engine_call|].
  intros _ w k. simpl. apply records_of_ensure_collection.
Qed.

Lemma read_only_read_collection {A} handle (f : collection vector -> outcome A) :
  read_only (read_collection handle f).
Proof.
  unfold read_collection.
  apply read_only_bind; [apply read_only_engine_call|].
  intros _ w k. by destruct (collections w !! handle).
Qed.

End EffectRules.

Section Frames.

Context {vector json_obj datetime where_clause : Type}.
Context `{!EmbeddingProvider vector, !JsonCodec json_obj,
          !DatetimeCodec datetime, !VectorIndex vector where_clause}.

Local Abbreviation memory := (Memory.t json_obj datetime).
Local Abbreviation world := (world vector).
Implicit Types w : world.
Implicit Types r : chroma_record vector.

Lemma read_only_provider_embed text : read_only (provider_embed text).
Proof. intros w name. unfold provider_embed. by destruct (embed text). Qed.

Lemma get_memory_read_only p a id :
  read_only (get_memory (json_obj := json_obj) (datetime := datetime) p a id).
Proof.
  unfold get_memory, _get_or_create_collection, collection_get.
  apply read_only_bind; [apply read_only_get_or_create_collection|]. intros h.
  apply read_only_bind; [apply read_only_read_collection|]. intros [|r rs].
  - apply read_only_ret.
  - apply read_only_bind; [apply read_only_lift|]. intros m. apply read_only_ret.
Qed.

Lemma get_memory_silent p a id :
  silent (get_memory (json_obj := json_obj) (datetime := datetime) p a id).
Proof.
  unfold get_memory, _get_or_create_collection, collection_get.
  apply silent_bind; [apply silent_get_or_create_collection|]. intros h.
  apply silent_bind; [apply silent_read_collection|]. intros [|r rs].
  - apply silent_ret.
  - apply silent_bind; [apply silent_lift|]. intros m. apply silent_ret.
Qed.

(** X1.  The three reading operations change no record of any partition,
    whatever the engine does and whatever they return or raise;
    [get_memory], [list_memories] and [delete_memory] make no call to the
    embedding provider. *)
Theorem reading_operations_write_nothing p a w :
  (forall id name,
      records_of name
        (get_memory (json_obj := json_obj) (datetime := datetime) p a id w).2
      = records_of name w) /\
  (forall q limit (filters : option where_clause) name,
      records_of name
        (search_memories (json_obj := json_obj) (datetime := datetime)
           p a q limit filters w).2
      = records_of name w) /\
  (forall limit offset (filters : option where_clause) name,
      records_of name
        (list_memories (json_obj := json_obj) (datetime := datetime)
           p a limit offset filters w).2
      = records_of name w) /\
  (forall id,
      embed_log (get_memory (json_obj := json_obj) (datetime := datetime) p a id w).2
      = embed_log w) /\
  (forall limit offset (filters : option where_clause),
      embed_log
        (list_memories (json_obj := json_obj) (datetime := datetime)
           p a limit offset filters w).2
      = embed_log w) /\
  (forall id, embed_log (delete_memory p a id w).2 = embed_log w).
Proof.
  split_and!.
  - intros id name. apply get_memory_read_only.
  - intros q limit filters name. revert w name.
    change (read_only (search_memories (json_obj := json_obj) (datetime := datetime)
                         p a q limit filters)).
    unfold search_memories, _get_or_create_collection, collection_query.
    apply read_only_bind; [apply read_only_get_or_create_collection|]. intros h.
    apply read_only_bind; [apply read_only_provider_embed|]. intros e.
    apply read_only_bind; [apply read_only_read_collection|]. intros hits.
    apply read_only_mapM_lift.
  - intros limit offset filters name. revert w name.
    change (read_only (list_memories (json_obj := json_obj) (datetime := datetime)
                         p a limit offset filters)).
    unfold list_memories, _get_or_create_collection, collection_get.
    apply read_only_bind; [apply read_only_get_or_create_collection|]. intros h.
    apply read_only_bind; [apply read_only_read_collection|]. intros rs.
    apply read_only_mapM_lift.
  - intros id. apply get_memory_silent.
  - intros limit offset filters. revert w.
    change (silent (list_memories (json_obj := json_obj) (datetime := datetime)
                      p a limit offset filters)).
    unfold list_memories, _get_or_create_collection, collection_get.
    apply silent_bind; [apply silent_get_or_create_collection|]. intros h.
    apply silent_bind; [apply silent_read_collection|]. intros rs.
    apply silent_mapM_lift.
  - intros id. revert w. change (silent (delete_memory p a id)).
    unfold delete_memory, _get_or_create_collection, collection_delete.
    apply silent_bind; [apply silent_get_or_create_collection|]. intros h.
    apply silent_try_except; [|intros e; apply silent_ret].
    apply silent_bind; [apply silent_write_collection|]. intros ?. apply silent_ret.
Qed.

End Frames.

Section Writes.

Context {vector json_obj datetime where_clause : Type}.
Context `{!EmbeddingProvider vector, !JsonCodec json_obj,
          !DatetimeCodec datetime, !VectorIndex vector where_clause}.

Local Abbreviation memory := (Memory.t json_obj datetime).
Local Abbreviation world := (world vector).
Implicit Types w : world.
Implicit Types r : chroma_record vector.

Lemma hd_faults_true w :
  hd false (faults w) = true -> exists fs, faults w = true :: fs.
Proof. destruct (faults w) as [|[] fs]; simpl; intros H; by eauto. Qed.

Lemma _get_or_create_collection_first_fails p a w :
  hd false (faults w) = true ->
  exists w1,
    _get_or_create_collection p a w = (Raise EngineError, w1) /\
    embed_log w1 = embed_log w.
Proof.
  intros [fs Hf]%hd_faults_true.
  unfold _get_or_create_collection, get_or_create_collection, bind, engine_call.
  rewrite Hf. by eexists.
Qed.

(** X2.  [store_memory] passes the content, and [search_memories] the
    query, to the provider's [embed] exactly once, right after the
    partition has been resolved, also when the call to [embed] or a later
    call to the engine fails; neither makes a call to [embed] when the
    engine fails to resolve the partition. *)
Theorem embed_calls_of_store_and_search w :
  (forall uuid4 (now : datetime) (mc : MemoryCreate.t json_obj),
      embed_log (store_memory uuid4 now mc w).2
      = embed_log w ++ (if hd false (faults w) then []
                        else [MemoryCreate.content mc])) /\
  (forall p a q limit (filters : option where_clause),
      embed_log
        (search_memories (json_obj := json_obj) (datetime := datetime)
           p a q limit filters w).2
      = embed_log w ++ (if hd false (faults w) then [] else [q])).
Proof.
  split.
  - intros uuid4 now mc. unfold store_memory, bind at 1.
    destruct (hd false (faults w)) eqn:Hhd.
    + destruct (_get_or_create_collection_first_fails
                  (MemoryCreate.project_id mc) (MemoryCreate.agent_id mc) w Hhd)
        as (w1 & -> & Hlog).
      simpl. by rewrite app_nil_r.
    + rewrite _get_or_create_collection_first_ok by done.
      unfold bind at 1, provider_embed.
      destruct (embed (MemoryCreate.content mc)) as [e|]; simpl.
      * match goal with
        | |- embed_log (bind ?m ?k ?w0).2 = _ =>
            assert (silent (bind m k)) as Hs
        end.
        { apply silent_bind; [apply silent_write_collection|].
          intros ?. apply silent_ret. }
        rewrite Hs. simpl. by rewrite embed_log_ensure_collection.
      * by rewrite embed_log_ensure_collection.
  - intros p a q limit filters. unfold search_memories, bind at 1.
    destruct (hd false (faults w)) eqn:Hhd.
    + destruct (_get_or_create_collection_first_fails p a w Hhd) as (w1 & -> & Hlog).
      simpl. by rewrite app_nil_r.
    + rewrite _get_or_create_collection_first_ok by done.
      unfold bind at 1, provider_embed.
      destruct (embed q) as [e|]; simpl.
      * match goal with
        | |- embed_log (bind ?m ?k ?w0).2 = _ =>
            assert (silent (bind m k)) as Hs
        end.
        { apply silent_bind; [apply silent_read_collection|].
          intros ?. apply silent_mapM_lift. }
        rewrite Hs. simpl. by rewrite embed_log_ensure_collection.
      * by rewrite embed_log_ensure_collection.
Qed.

Lemma records_of_set_collections_insert_ne name other (c : collection vector) w :
  other <> name ->
  records_of other (set_collections (<[name := c]> (collections w)) w)
  = records_of other w.
Proof. intros Hne. unfold records_of. simpl. by rewrite lookup_insert_ne. Qed.

(** The record [store_memory] writes. *)
Lemma store_memory_healthy uuid4 now (mc : MemoryCreate.t json_obj) w e :
  faults w = [] ->
  embed (MemoryCreate.content mc) = Some e ->
  let name := _get_collection_name (MemoryCreate.project_id mc)
                (MemoryCreate.agent_id mc) in
  let r := {| rec_id := uuid4;
              rec_embedding := e;
              rec_document := MemoryCreate.content mc;
              rec_metadata :=
                chroma_metadata_of
                  (MemoryCreate.project_id mc) (MemoryCreate.agent_id mc)
                  (_serialize_metadata (MemoryCreate.metadata mc))
                  provider_name model_name (isoformat now) (isoformat now) |} in
  exists w1,
    store_memory uuid4 now mc w
    = (Return (Memory.mk json_obj datetime uuid4
                 (MemoryCreate.project_id mc) (MemoryCreate.agent_id mc)
                 (MemoryCreate.content mc) (MemoryCreate.metadata mc)
                 provider_name model_name now now), w1) /\
    faults w1 = [] /\
    records_of name w1
    = (if List.existsb (has_id uuid4) (records_of name w)
       then records_of name w else records_of name w ++ [r]) /\
    (forall other, other <> name -> records_of other w1 = records_of other w) /\
    is_Some (collections w1 !! name).
Proof.
  intros Hf He name r.
  unfold store_memory, bind.
  rewrite _get_or_create_collection_healthy by done.
  unfold provider_embed. rewrite He.
  rewrite log_embed_ensure_collection.
  unfold collection_add. rewrite collection_write_healthy by done.
  eexists. split; [reflexivity|]. split_and!.
  - simpl. by rewrite faults_ensure_collection.
  - by rewrite records_of_set_collections_insert.
  - intros other Hne.
    rewrite records_of_set_collections_insert_ne by done.
    by rewrite records_of_ensure_collection.
  - simpl. by rewrite lookup_insert_eq.
Qed.


End Writes.

(** ** Operations on one id leave the other ids alone *)

Section OtherIds.

Context {vector json_obj datetime where_clause : Type}.
Context `{!EmbeddingProvider vector, !JsonCodec json_obj,
          !DatetimeCodec datetime, !VectorIndex vector where_clause}.

Local Abbreviation memory := (Memory.t json_obj datetime).
Local Abbreviation world := (world vector).
Implicit Types w : world.
Implicit Types r : chroma_record vector.

(** The engine is healthy, and what [collection.get(ids=[id'])] selects in
    each partition is given by [F]. *)
Local Abbreviation selects id' F :=
  (fun w : world =>
     faults w = [] /\
     forall n, List.filter (id_in [id']) (records_of n w) = F n).

Variable id' : string.
Variable F : string -> list (chroma_record vector).

Lemma selects_engine_call : keeps (selects id' F) engine_call.
Proof. intros w [Hf HF]. by rewrite engine_call_healthy. Qed.

Lemma selects_get_or_create_collection name md :
  keeps (selects id' F) (get_or_create_collection name md).
Proof.
  intros w [Hf HF]. rewrite get_or_create_collection_healthy by done.
  split; [by rewrite faults_ensure_collection|].
  intros n. by rewrite records_of_ensure_collection.
Qed.

Lemma selects_read_collection {A} handle (f : collection vector -> outcome A) :
  keeps (selects id' F) (read_collection handle f).
Proof.
  intros w [Hf HF]. unfold read_collection, bind.
  rewrite engine_call_healthy by done.
  destruct (collections w !! handle) as [c|]; [|done].
  by destruct (f c).
Qed.

Lemma selects_provider_embed text : keeps (selects id' F) (provider_embed text).
Proof. intros w [Hf HF]. unfold provider_embed. by destruct (embed text). Qed.

Lemma selects_write_collection handle f :
  (forall rs, List.filter (id_in [id']) (f rs) = List.filter (id_in [id']) rs) ->
  keeps (selects id' F) (write_collection handle f).
Proof.
  intros Hfilter w [Hf HF]. unfold write_collection, bind.
  rewrite engine_call_healthy by done.
  destruct (collections w !! handle) as [c|] eqn:Hc; [|done].
  split; [done|]. intros n.
  destruct (decide (n = handle)) as [->|Hne].
  - rewrite records_of_set_collections_insert. simpl.
    rewrite Hfilter, <- (HF handle). by rewrite (records_of_lookup handle c).
  - by rewrite records_of_set_collections_insert_ne.
Qed.

Lemma selects_get_memory p a id :
  keeps (selects id' F)
    (get_memory (json_obj := json_obj) (datetime := datetime) p a id).
Proof.
  unfold get_memory, _get_or_create_collection, collection_get.
  apply keeps_bind; [apply selects_get_or_create_collection|]. intros h.
  apply keeps_bind; [apply selects_read_collection|]. intros [|r rs].
  - apply keeps_ret.
  - apply keeps_bind; [apply keeps_lift|]. intros m. apply keeps_ret.
Qed.

Lemma filter_other_add id r rs :
  rec_id r = id -> id' <> id ->
  List.filter (id_in [id'])
    (if List.existsb (has_id (rec_id r)) rs then rs else rs ++ [r])
  = List.filter (id_in [id']) rs.
Proof.
  intros Hr Hne. destruct (List.existsb _ rs); [done|].
  rewrite List.filter_app. simpl.
  destruct (id_in [id'] r) eqn:Hin; [|by rewrite app_nil_r].
  apply id_in_singleton in Hin. congruence.
Qed.

Lemma filter_other_update id (upd : chroma_record vector -> chroma_record vector) rs :
  (forall r, rec_id (upd r) = rec_id r) ->
  id' <> id ->
  List.filter (id_in [id']) (List.map (fun r => if has_id id r then upd r else r) rs)
  = List.filter (id_in [id']) rs.
Proof.
  intros Hupd Hne. induction rs as [|r rs IH]; simpl; [done|].
  rewrite IH. destruct (has_id id r) eqn:Hid; [|done].
  rewrite has_id_id_in in Hid. apply id_in_singleton in Hid.
  assert (id_in [id'] r = false) as ->.
  { destruct (id_in [id'] r) eqn:Hin; [|done].
    apply id_in_singleton in Hin. congruence. }
  destruct (id_in [id'] (upd r)) eqn:Hin; [|done].
  apply id_in_singleton in Hin. rewrite Hupd in Hin. congruence.
Qed.

Lemma filter_other_delete id rs :
  id' <> id ->
  List.filter (id_in [id']) (List.filter (fun r => negb (id_in [id] r)) rs)
  = List.filter (id_in [id']) rs.
Proof.
  intros Hne. induction rs as [|r rs IH]; simpl; [done|].
  destruct (id_in [id] r) eqn:Hid; simpl; rewrite IH; [|done].
  apply id_in_singleton in Hid.
  destruct (id_in [id'] r) eqn:Hin; [|done].
  apply id_in_singleton in Hin. congruence.
Qed.

Lemma selects_store_memory uuid4 now (mc : MemoryCreate.t json_obj) :
  id' <> uuid4 -> keeps (selects id' F) (store_memory uuid4 now mc).
Proof.
  intros Hne. unfold store_memory, _get_or_create_collection, collection_add.
  apply keeps_bind; [apply selects_get_or_create_collection|]. intros h.
  apply keeps_bind; [apply selects_provider_embed|]. intros e.
  apply keeps_bind; [|intros ?; apply keeps_ret].
  apply selects_write_collection. intros rs.
  by apply (filter_other_add uuid4).
Qed.

Lemma selects_update_memory now p a id (u : MemoryUpdate.t json_obj) :
  id' <> id -> keeps (selects id' F) (update_memory now p a id u).
Proof.
  intros Hne. unfold update_memory.
  apply keeps_bind; [apply selects_get_memory|].
  intros [existing|]; [|apply keeps_ret].
  unfold _get_or_create_collection, collection_update.
  apply keeps_bind; [apply selects_get_or_create_collection|]. intros h.
  apply keeps_bind; [|intros ?; apply keeps_ret].
  destruct (MemoryUpdate.content u) as [c|].
  - apply keeps_bind; [apply selects_provider_embed|]. intros e.
    apply selects_write_collection. intros rs.
    by apply filter_other_update.
  - apply selects_write_collection. intros rs.
    by apply filter_other_update.
Qed.

Lemma selects_delete_memory p a id :
  id' <> id -> keeps (selects id' F) (delete_memory p a id).
Proof.
  intros Hne. unfold delete_memory, _get_or_create_collection, collection_delete.
  apply keeps_bind; [apply selects_get_or_create_collection|]. intros h.
  apply keeps_try_except; [|intros e; apply keeps_ret].
  apply keeps_bind; [|intros ?; apply keeps_ret].
  apply selects_write_collection. intros rs.
  by apply filter_other_delete.
Qed.

End OtherIds.

Section OtherIdsTheorem.

Context {vector json_obj datetime where_clause : Type}.
Context `{!EmbeddingProvider vector, !JsonCodec json_obj,
          !DatetimeCodec datetime, !VectorIndex vector where_clause}.

Local Abbreviation world := (world vector).
Implicit Types w : world.

Lemma get_memory_selected p a id w w' :
  faults w = [] -> faults w' = [] ->
  (forall n, List.filter (id_in [id]) (records_of n w')
             = List.filter (id_in [id]) (records_of n w)) ->
  (get_memory (json_obj := json_obj) (datetime := datetime) p a id w').1
  = (get_memory (json_obj := json_obj) (datetime := datetime) p a id w).1.
Proof.
  intros Hf Hf' Hsel. rewrite !get_memory_healthy by done. simpl.
  by rewrite Hsel.
Qed.

(** X4.  On a healthy engine, storing, updating or deleting a memory under
    one id does not change what [get_memory] returns for any other id, in
    the same or in any other scope, also when the operation fails in the
    provider or on a record it cannot read. *)
Theorem operations_leave_other_ids_alone p a id p' a' id' w :
  faults w = [] ->
  id' <> id ->
  (forall now (mc : MemoryCreate.t json_obj),
      (get_memory (json_obj := json_obj) (datetime := datetime) p' a' id'
         (store_memory id now mc w).2).1
      = (get_memory (json_obj := json_obj) (datetime := datetime) p' a' id' w).1) /\
  (forall now (u : MemoryUpdate.t json_obj),
      (get_memory (json_obj := json_obj) (datetime := datetime) p' a' id'
         (update_memory now p a id u w).2).1
      = (get_memory (json_obj := json_obj) (datetime := datetime) p' a' id' w).1) /\
  (get_memory (json_obj := json_obj) (datetime := datetime) p' a' id'
     (delete_memory p a id w).2).1
  = (get_memory (json_obj := json_obj) (datetime := datetime) p' a' id' w).1.
Proof.
  intros Hf Hne.
  set (F := fun n => List.filter (id_in [id']) (records_of n w)).
  assert (faults w = [] /\
          forall n, List.filter (id_in [id']) (records_of n w) = F n) as Hw by done.
  split_and!.
  - intros now mc.
    destruct (keeps_run _ _ w (selects_store_memory id' F id now mc Hne) Hw)
      as [Hf1 Hsel].
    by apply get_memory_selected.
  - intros now u.
    destruct (keeps_run _ _ w (selects_update_memory id' F now p a id u Hne) Hw)
      as [Hf1 Hsel].
    by apply get_memory_selected.
  - destruct (keeps_run _ _ w (selects_delete_memory id' F p a id Hne) Hw)
      as [Hf1 Hsel].
    by apply get_memory_selected.
Qed.

End OtherIdsTheorem.

(** ** Updates and deletions, record by record *)

Section UpdateDelete.

Context {vector json_obj datetime where_clause : Type}.
Context `{!EmbeddingProvider vector, !JsonCodec json_obj,
          !DatetimeCodec datetime, !VectorIndex vector where_clause}.

Local Abbreviation memory := (Memory.t json_obj datetime).
Local Abbreviation world := (world vector).
Implicit Types w : world.
Implicit Types r : chroma_record vector.

(** X5.  On a healthy engine, for an id that no record of the scope's
    partition carries, [get_memory] and [update_memory] return [None];
    the update changes no record of any partition and makes no call to
    the embedding provider, whatever content it was given. *)
Theorem absent_id_get_and_update_return_None
    now p a id (u : MemoryUpdate.t json_obj) w :
  faults w = [] ->
  Forall (fun r => rec_id r <> id) (records_of (_get_collection_name p a) w) ->
  (get_memory (json_obj := json_obj) (datetime := datetime) p a id w).1
  = Return None /\
  (update_memory now p a id u w).1 = Return None /\
  (forall name,
      records_of name (update_memory now p a id u w).2 = records_of name w) /\
  embed_log (update_memory now p a id u w).2 = embed_log w.
Proof.
  intros Hf Hfresh.
  assert (get_memory (json_obj := json_obj) (datetime := datetime) p a id w
          = (Return None,
             ensure_collection (_get_collection_name p a) (partition_metadata p a) w))
    as Hget.
  { rewrite get_memory_healthy by done. by rewrite filter_id_fresh. }
  split_and!.
  - by rewrite Hget.
  - unfold update_memory, bind. by rewrite Hget.
  - intros name. unfold update_memory, bind. rewrite Hget. simpl.
    apply records_of_ensure_collection.
  - unfold update_memory, bind. rewrite Hget. simpl.
    apply embed_log_ensure_collection.
Qed.




End UpdateDelete.

(** ** What a store can hold is what the engine can read *)

Section Readable.

Context {vector json_obj datetime where_clause : Type}.
Context `{!EmbeddingProvider vector, !JsonCodec json_obj,
          !DatetimeCodec datetime, !VectorIndex vector where_clause}.
Context `{!JsonCodecLaws JsonCodec0, !DatetimeCodecLaws DatetimeCodec0}.

Local Abbreviation memory := (Memory.t json_obj datetime).
Local Abbreviation world := (world vector).
Implicit Types w : world.
Implicit Types r : chroma_record vector.

(** [Memory(...)] can be built from the record. *)
Local Abbreviation readable :=
  (fun (_ : string) (r : chroma_record vector) =>
     exists m : memory, memory_of_record r = Return m).

Lemma step_readable w w' :
  step (json_obj := json_obj) (datetime := datetime) (where_clause := where_clause) w w' ->
  all_records readable w -> all_records readable w'.
Proof.
  destruct 1 as [uuid4 now p a c md mc w Hmc|p a id w|p a q limit filters w
                |now p a id c md u w Hu|p a id w|p a limit offset filters w|fs w];
    intros Hw.
  - apply keeps_run; [|done]. apply store_memory_all_records.
    intros e. eexists. by apply memory_of_record_envelope.
  - apply keeps_run; [|done].
    eapply triple_weaken; [apply (get_memory_all_records readable)|done| |done].
    by intros res w0 [_ Hw0].
  - apply keeps_run; [|done]. apply search_memories_all_records.
  - apply keeps_run; [|done]. apply update_memory_all_records.
    intros r0 existing r emb _ _ _. eexists.
    apply memory_of_record_envelope; by apply update_record_lookup.
  - apply keeps_run; [|done]. apply delete_memory_all_records.
  - apply keeps_run; [|done]. apply list_memories_all_records.
  - exact Hw.
Qed.

Lemma reachable_readable w :
  reachable (json_obj := json_obj) (datetime := datetime) (where_clause := where_clause) w ->
  all_records readable w.
Proof.
  intros [fs Hrtc]. revert w Hrtc. apply rtc_ind_r.
  - apply empty_world_all_records.
  - intros y z _ Hstep IH. by eapply step_readable.
Qed.

Lemma readable_records_of w name r :
  all_records readable w -> r ∈ records_of name w ->
  exists m : memory, memory_of_record r = Return m.
Proof.
  intros Hw Hr. unfold records_of in Hr.
  destruct (collections w !! name) as [c|] eqn:Hc.
  - by apply (Hw name c r).
  - by apply elem_of_nil in Hr.
Qed.

(** The projection [list_memories] builds is the memory [get_memory]
    builds, without the content. *)
Lemma memory_metadata_of_memory r (m : memory) :
  memory_of_record r = Return m ->
  memory_metadata_of_record r
  = Return (MemoryMetadata.mk json_obj datetime
              (Memory.memory_id m) (Memory.project_id m) (Memory.agent_id m)
              (Memory.metadata m) (Memory.embedding_provider m)
              (Memory.embedding_model m) (Memory.created_at m)
              (Memory.updated_at m)).
Proof.
  unfold memory_of_record, memory_metadata_of_record.
  destruct (getitem _ "project_id"); simpl; [|done].
  destruct (getitem _ "agent_id"); simpl; [|done].
  destruct (_deserialize_metadata _); simpl; [|done].
  destruct (getitem _ "embedding_provider"); simpl; [|done].
  destruct (getitem _ "embedding_model"); simpl; [|done].
  destruct (obind (getitem _ "created_at") _); simpl; [|done].
  destruct (obind (getitem _ "updated_at") _); simpl; [|done].
  by intros [= <-].
Qed.

Lemma mapM_lift_total {A B} (f : A -> outcome B) (l : list A) w :
  Forall (fun x => exists y, f x = Return y) l ->
  exists ys,
    mapM (fun x => lift (f x)) l w = (Return ys, w) /\
    Forall2 (fun x y => f x = Return y) l ys.
Proof.
  induction 1 as [|x l [y Hy] _ (ys & Hrun & Hall)]; simpl.
  - by exists [].
  - exists (y :: ys). unfold bind, lift at 1. rewrite Hy, Hrun.
    split; [done|]. by constructor.
Qed.

Lemma list_memories_healthy p a limit offset (filters : option where_clause) w :
  faults w = [] ->
  list_memories (json_obj := json_obj) (datetime := datetime) p a limit offset filters w
  = mapM (fun r => lift (memory_metadata_of_record r))
      (py_slice (records_of (_get_collection_name p a) w) offset (offset + limit))
      (ensure_collection (_get_collection_name p a) (partition_metadata p a) w).
Proof.
  intros Hf. unfold list_memories, bind.
  rewrite _get_or_create_collection_healthy by done.
  by rewrite collection_get_healthy.
Qed.

Lemma Forall2_memory_id (page : list (chroma_record vector))
    (results : list (MemoryMetadata.t json_obj datetime)) :
  Forall2 (fun r mm => memory_metadata_of_record r = Return mm) page results ->
  List.map MemoryMetadata.memory_id results = List.map rec_id page.
Proof.
  induction 1 as [|r mm page results Hr _ IH]; simpl; [done|].
  apply memory_metadata_of_record_Return in Hr as [-> _]. by rewrite IH.
Qed.

(** X8.  In every world a store can get into, with codecs that read back
    what they wrote, every record can be read: on a healthy engine
    [get_memory] returns, for any scope and id, and [list_memories]
    returns, for any scope, limit, offset and filters, one projection for
    each record of the slice [offset : offset + limit] of the partition,
    in the order of the records. *)
Theorem reachable_stores_are_readable w :
  reachable (json_obj := json_obj) (datetime := datetime) (where_clause := where_clause) w ->
  faults w = [] ->
  (forall p a id,
      exists o,
        (get_memory (json_obj := json_obj) (datetime := datetime) p a id w).1
        = Return o) /\
  (forall p a limit offset (filters : option where_clause),
      exists page,
        (list_memories (json_obj := json_obj) (datetime := datetime)
           p a limit offset filters w).1 = Return page /\
        List.map MemoryMetadata.memory_id page
        = List.map rec_id
            (py_slice (records_of (_get_collection_name p a) w)
               offset (offset + limit))).
Proof.
  intros Hreach Hf. apply reachable_readable in Hreach. split.
  - intros p a id. rewrite get_memory_healthy by done. simpl.
    destruct (List.filter _ _) as [|r rs] eqn:Hfilter; [by eexists|].
    destruct (readable_records_of w (_get_collection_name p a) r Hreach) as [m Hm].
    { assert (In r (List.filter (id_in [id])
                      (records_of (_get_collection_name p a) w))) as Hin
          by (rewrite Hfilter; by left).
      apply filter_In in Hin as [Hin _]. by apply list_elem_of_In. }
    rewrite Hm. by eexists.
  - intros p a limit offset filters. rewrite list_memories_healthy by done.
    edestruct (mapM_lift_total
                 (memory_metadata_of_record (vector := vector)
                    (json_obj := json_obj) (datetime := datetime)))
      as (page & -> & Hall).
    { apply Forall_forall. intros r Hr. apply py_slice_subset in Hr.
      destruct (readable_records_of w _ r Hreach Hr) as [m Hm].
      eexists. by apply memory_metadata_of_memory. }
    exists page. split; [done|]. by apply Forall2_memory_id.
Qed.

Lemma py_slice_nonneg {A} (l : list A) start n :
  0 <= start -> 0 <= n ->
  py_slice l start (start + n) = take (Z.to_nat n) (drop (Z.to_nat start) l).
Proof.
  intros Hstart Hn. unfold py_slice.
  assert ((start <? 0) = false) as -> by lia.
  assert ((start + n <? 0) = false) as -> by lia.
  destruct (decide (Z.of_nat (length l) <= start)) as [Hge|Hlt].
  - rewrite !drop_ge by lia. by rewrite !take_nil.
  - assert (Z.to_nat (Z.min start (Z.of_nat (length l))) = Z.to_nat start) as ->
      by lia.
    destruct (decide (start + n <= Z.of_nat (length l))) as [Hin|Hout].
    + f_equal. lia.
    + rewrite !take_ge; [done|rewrite length_drop; lia..].
Qed.

(** X9.  Pagination.  In every world a store can get into, on a healthy
    engine and with codecs that read back what they wrote, with an offset
    and a limit that are not negative, [list_memories] returns the ids of
    the partition's records from position [offset] on, [limit] of them or
    as many as are left, in the order in which the records were added; the
    [filters] argument has no part in the result. *)
Theorem list_memories_pages p a limit offset (filters : option where_clause) w :
  reachable (json_obj := json_obj) (datetime := datetime) (where_clause := where_clause) w ->
  faults w = [] ->
  0 <= offset -> 0 <= limit ->
  exists page w1,
    list_memories (json_obj := json_obj) (datetime := datetime)
      p a limit offset filters w = (Return page, w1) /\
    List.map MemoryMetadata.memory_id page
    = take (Z.to_nat limit)
        (drop (Z.to_nat offset)
           (List.map rec_id (records_of (_get_collection_name p a) w))) /\
    Z.of_nat (length page)
    = Z.min limit
        (Z.max 0 (Z.of_nat (length (records_of (_get_collection_name p a) w))
                  - offset)).
Proof.
  intros Hreach Hf Hoffset Hlimit. apply reachable_readable in Hreach.
  rewrite list_memories_healthy by done.
  edestruct (mapM_lift_total
                 (memory_metadata_of_record (vector := vector)
                    (json_obj := json_obj) (datetime := datetime)))
      as (page & -> & Hall).
  { apply Forall_forall. intros r Hr. apply py_slice_subset in Hr.
    destruct (readable_records_of w _ r Hreach Hr) as [m Hm].
    eexists. by apply memory_metadata_of_memory. }
  exists page. eexists. split; [done|].
  pose proof (Forall2_length _ _ _ Hall) as Hlen.
  apply Forall2_memory_id in Hall.
  rewrite py_slice_nonneg in Hall, Hlen by done.
  split.
  - rewrite Hall. by rewrite List.skipn_map, List.firstn_map.
  - rewrite <- Hlen, length_take, length_drop. lia.
Qed.

End Readable.

(** ** Search, hit by hit *)

Section SearchHits.

Context {vector json_obj datetime where_clause : Type}.
Context `{!EmbeddingProvider vector, !JsonCodec json_obj,
          !DatetimeCodec datetime, !VectorIndex vector where_clause}.

Local Abbreviation memory := (Memory.t json_obj datetime).
Local Abbreviation world := (world vector).
Implicit Types w : world.
Implicit Types r : chroma_record vector.

Lemma search_result_of_Return r d (sr : SearchResult.t json_obj datetime) :
  search_result_of (r, d) = Return sr ->
  Memory.memory_id (SearchResult.memory sr) = rec_id r /\
  Memory.content (SearchResult.memory sr) = rec_document r.
Proof.
  unfold search_result_of. intros H.
  apply obind_Return in H as (sim & _ & H).
  apply obind_Return in H as (m & Hm & H).
  unfold SearchResult.init in H.
  destruct (Qle_bool 0 _ && Qle_bool _ 1); [|done].
  inversion H; subst sr. simpl.
  by apply memory_of_record_Return in Hm as (? & ? & _).
Qed.

(** X10.  When [search_memories] returns, the provider has embedded the
    query, and the index was asked once: for the records of the scope's
    partition, with the number of results asked for and with the filters,
    an empty filter mapping counting as none.  The results are the matches
    of the index, one for one and in its order, each under the id and with
    the document of its record. *)
Theorem search_memories_follows_the_index
    p a q limit (filters : option where_clause) w results w' :
  search_memories (json_obj := json_obj) (datetime := datetime)
    p a q limit filters w = (Return results, w') ->
  exists e hits,
    embed q = Some e /\
    knn_query e limit
      (match filters with
       | Some f => if where_truthy f then Some f else None
       | None => None
       end)
      (records_of (_get_collection_name p a) w)
    = Return hits /\
    List.map (fun sr => Memory.memory_id (SearchResult.memory sr)) results
    = List.map (fun h => rec_id h.1) hits /\
    List.map (fun sr => Memory.content (SearchResult.memory sr)) results
    = List.map (fun h => rec_document h.1) hits.
Proof.
  unfold search_memories, bind. intros H.
  destruct (_get_or_create_collection p a w) as [[h|?] w1] eqn:Hres; [|done].
  pose proof (read_only_get_or_create_collection
                (_get_collection_name p a) (partition_metadata p a) w
                (_get_collection_name p a)) as Hrecs.
  unfold _get_or_create_collection in Hres.
  assert (h = _get_collection_name p a) as ->.
  { unfold get_or_create_collection, bind in Hres.
    destruct (engine_call w) as [[[]|?] w0]; [|done]. by inversion Hres. }
  rewrite Hres in Hrecs. simpl in Hrecs.
  unfold provider_embed in H. destruct (embed q) as [e|]; [|done].
  unfold collection_query, read_collection, bind in H.
  pose proof (engine_call_collections (log_embed q w1)) as Hcs.
  destruct (engine_call (log_embed q w1)) as [[[]|?] w2]; [|done].
  simpl in Hcs.
  destruct (collections w2 !! _get_collection_name p a) as [c|] eqn:Hc; [|done].
  assert (col_records c = records_of (_get_collection_name p a) w) as Hcr.
  { rewrite <- Hrecs. unfold records_of. rewrite Hcs in Hc. simpl in Hc.
    by rewrite Hc. }
  rewrite Hcr in H.
  destruct (knn_query e limit _ _) as [hits|?] eqn:Hk; [|done].
  apply mapM_lift_length in H as [_ Hall].
  exists e, hits. split; [done|]. split; [done|].
  clear Hk. induction Hall as [|[r d] sr hits results Hsr _ IH]; simpl; [done|].
  apply search_result_of_Return in Hsr as [-> ->].
  destruct IH as [-> ->]. done.
Qed.

(** X11.  The cap [min(similarity, 1.0)] comes into play for negative
    distances only.  For a record that can be read: a distance between
    minus one and zero gives the score one; the distance minus one makes
    the conversion raise [ZeroDivisionError], before the record is looked
    at; a distance below minus one gives a negative score, which
    [SearchResult] refuses. *)
Theorem similarity_of_negative_distances r (m : memory) d :
  memory_of_record r = Return m ->
  ((-1 < d)%Q -> (d < 0)%Q ->
   search_result_of (r, d) = Return (SearchResult.mk json_obj datetime m 1)) /\
  ((d < -1)%Q ->
   exists errs,
     search_result_of (json_obj := json_obj) (datetime := datetime) (r, d)
     = Raise (ValidationError errs)) /\
  (forall r' : chroma_record vector,
      (d == -1)%Q ->
      search_result_of (json_obj := json_obj) (datetime := datetime) (r', d)
      = Raise ZeroDivisionError).
Proof.
  intros Hm. split_and!.
  - intros Hlo Hhi. unfold search_result_of, py_div.
    assert (0 < 1 + d)%Q as Hpos by lra.
    destruct (Qeq_bool (1 + d) 0) eqn:E; [apply Qeq_bool_iff in E; lra|].
    simpl. rewrite Hm. simpl.
    assert (1 < 1 / (1 + d))%Q as Hgt by (apply Qlt_shift_div_l; lra).
    unfold py_min. destruct (Qlt_le_dec 1 (1 / (1 + d))) as [_|Hle]; [done|lra].
  - intros Hlo. unfold search_result_of, py_div.
    assert (1 + d < 0)%Q as Hneg by lra.
    destruct (Qeq_bool (1 + d) 0) eqn:E; [apply Qeq_bool_iff in E; lra|].
    simpl. rewrite Hm. simpl.
    assert (1 / (1 + d) < 0)%Q as Hlt.
    { assert (1 / (1 + d) == - (1 / (- (1 + d))))%Q as Heq by (field; lra).
      assert (0 < 1 / (- (1 + d)))%Q by (apply Qlt_shift_div_l; lra).
      rewrite Heq. lra. }
    unfold py_min. destruct (Qlt_le_dec 1 (1 / (1 + d))) as [Hgt|_]; [lra|].
    unfold SearchResult.init.
    destruct (Qle_bool 0 (1 / (1 + d))) eqn:E0.
    + apply Qle_bool_iff in E0. lra.
    + simpl. by eexists.
  - intros r' Hd. unfold search_result_of, py_div.
    assert (Qeq_bool (1 + d) 0 = true) as ->; [|done].
    apply Qeq_bool_iff. lra.
Qed.

End SearchHits.

(** ** What the request models accept *)

Section Acceptance.

Context {json_obj : Type} `{!JsonCodec json_obj}.

(** X12.  [MemoryCreate] accepts a request exactly when the project id and
    the agent id are not empty and the content has a character that is not
    whitespace; the accepted request holds the three strings as they were
    given, the content with its surrounding whitespace, and the metadata,
    or the empty mapping when none was given. *)
Theorem MemoryCreate_accepts_iff p a c (md : option json_obj) :
  (MemoryCreate.init (Some p) (Some a) (Some c) md
   = Return (MemoryCreate.mk json_obj p a c (default empty_dict md))
   <-> p <> "" /\ a <> "" /\ PyStr.all_space c = false) /\
  (forall mc,
      MemoryCreate.init (Some p) (Some a) (Some c) md = Return mc ->
      mc = MemoryCreate.mk json_obj p a c (default empty_dict md)).
Proof.
  rewrite <- blank_all_space. split.
  - unfold MemoryCreate.init. simpl. unfold Pydantic.min_length_1.
    destruct p as [|cp p]; simpl.
    { split; [|by intros [? _]].
      destruct a as [|ca a]; simpl; by destruct (obind _ MemoryCreate.content_not_empty). }
    destruct a as [|ca a]; simpl.
    { split; [|by intros (_ & ? & _)].
      by destruct (obind _ MemoryCreate.content_not_empty). }
    destruct c as [|cc c]; simpl.
    { split; [done|by intros (_ & _ & ?)]. }
    unfold MemoryCreate.content_not_empty.
    fold (blank (String cc c)).
    destruct (blank (String cc c)); simpl.
    + split; [done|by intros (_ & _ & ?)].
    + split; [done|]. by intros _.
  - intros mc Hmc.
    apply MemoryCreate_init_Return in Hmc as (Hp & Ha & Hc & Hmd & _).
    destruct mc as [p' a' c' md']. simpl in *. congruence.
Qed.

(** X13.  [MemoryUpdate] accepts an update exactly when no content is
    given or the content given has a character that is not whitespace;
    an update that gives neither content nor metadata is accepted. *)
Theorem MemoryUpdate_accepts_iff c (md : option json_obj) :
  (MemoryUpdate.init c md = Return (MemoryUpdate.mk json_obj c md)
   <-> forall s, c = Some s -> PyStr.all_space s = false) /\
  (forall u, MemoryUpdate.init c md = Return u -> u = MemoryUpdate.mk json_obj c md) /\
  MemoryUpdate.init (json_obj := json_obj) None None
  = Return (MemoryUpdate.mk json_obj None None).
Proof.
  split_and!.
  - split.
    + intros H s ->. apply MemoryUpdate_init_Return in H as (_ & _ & Hb).
      rewrite <- blank_all_space. by apply Hb.
    + intros H. destruct c as [s|]; [|done].
      specialize (H s eq_refl). rewrite <- blank_all_space in H.
      unfold MemoryUpdate.init. simpl. unfold Pydantic.min_length_1.
      destruct s as [|cs s]; [done|]. simpl.
      unfold blank in H. simpl in H. by rewrite H.
  - intros u Hu. apply MemoryUpdate_init_Return in Hu as (Hc & Hmd & _).
    destruct u as [c' md']. simpl in *. congruence.
  - done.
Qed.

End Acceptance.

(** ** Partition names, once more *)

Section NameShape.

Context {vector : Type} `{!EmbeddingProvider vector}.

Lemma all_safe_append s1 s2 :
  PyStr.all_safe (s1 +:+ s2) = PyStr.all_safe s1 && PyStr.all_safe s2.
Proof.
  induction s1 as [|c s1 IH]; simpl; [done|]. by rewrite IH, andb_assoc.
Qed.

Lemma re_sub_unsafe_all_safe s : PyStr.all_safe (PyStr.re_sub_unsafe s) = true.
Proof.
  induction s as [|c s IH]; simpl; [done|]. rewrite IH, andb_true_r.
  by destruct (PyStr.is_safe_char c) eqn:Hc.
Qed.

Lemma re_sub_unsafe_length s : String.length (PyStr.re_sub_unsafe s) = String.length s.
Proof. induction s as [|c s IH]; simpl; [done|]. by rewrite IH. Qed.

Lemma re_sub_unsafe_idem s :
  PyStr.re_sub_unsafe (PyStr.re_sub_unsafe s) = PyStr.re_sub_unsafe s.
Proof. apply re_sub_unsafe_safe, re_sub_unsafe_all_safe. Qed.

(** X14.  With a provider name from [[A-Za-z0-9_-]], the name of a
    partition consists of characters from [[A-Za-z0-9_-]] only, whatever
    the ids; it is ten characters longer than the two ids and the provider
    name together, nothing is cut off; and a scope and the scope of its
    sanitised ids have the same partition. *)
Theorem _get_collection_name_shape p a :
  PyStr.all_safe provider_name = true ->
  PyStr.all_safe (_get_collection_name p a) = true /\
  String.length (_get_collection_name p a)
  = (10 + String.length p + String.length a + String.length provider_name)%nat /\
  _get_collection_name (PyStr.re_sub_unsafe p) (PyStr.re_sub_unsafe a)
  = _get_collection_name p a.
Proof.
  intros Hprov. unfold _get_collection_name. split_and!.
  - rewrite !all_safe_append, !re_sub_unsafe_all_safe, Hprov. done.
  - rewrite !length_append, !re_sub_unsafe_length. simpl. lia.
  - by rewrite !re_sub_unsafe_idem.
Qed.

End NameShape.

(** ** Providers and partitions *)

Section Providers.

Context {vector json_obj datetime where_clause : Type}.
Context `{!JsonCodec json_obj, !DatetimeCodec datetime,
          !VectorIndex vector where_clause}.
Context `{!JsonCodecLaws JsonCodec0, !DatetimeCodecLaws DatetimeCodec0}.

Local Abbreviation memory := (Memory.t json_obj datetime).
Local Abbreviation world := (world vector).
Implicit Types w : world.
Implicit Types prov : EmbeddingProvider vector.

Lemma append_inv_head (s a b : string) : s +:+ a = s +:+ b -> a = b.
Proof. induction s as [|c s IH]; simpl; [done|]. intros [= H]. by apply IH. Qed.

Lemma _get_collection_name_provider prov1 prov2 p a :
  _get_collection_name (EmbeddingProvider0 := prov1) p a
  = _get_collection_name (EmbeddingProvider0 := prov2) p a
  <-> provider_name (EmbeddingProvider := prov1)
      = provider_name (EmbeddingProvider := prov2).
Proof.
  unfold _get_collection_name. split.
  - intros H. repeat apply append_inv_head in H. exact H.
  - by intros ->.
Qed.



End Providers.

Section ProviderSwitch.

Context {vector json_obj datetime where_clause : Type}.
Context `{!JsonCodec json_obj, !DatetimeCodec datetime,
          !VectorIndex vector where_clause}.

Local Abbreviation world := (world vector).
Implicit Types w : world.
Implicit Types prov : EmbeddingProvider vector.

(** X16.  The provider name is part of a partition's name.  On a healthy
    engine, a memory stored through one provider changes nothing of what
    [get_memory] returns for the same scope through a provider of another
    provider name: the two resolve the scope to different partitions. *)
Theorem provider_switch_starts_a_new_partition
    prov1 prov2 uuid4 now (mc : MemoryCreate.t json_obj) w e :
  provider_name (EmbeddingProvider := prov1)
  <> provider_name (EmbeddingProvider := prov2) ->
  faults w = [] ->
  embed (EmbeddingProvider := prov1) (MemoryCreate.content mc) = Some e ->
  _get_collection_name (EmbeddingProvider0 := prov1)
    (MemoryCreate.project_id mc) (MemoryCreate.agent_id mc)
  <> _get_collection_name (EmbeddingProvider0 := prov2)
       (MemoryCreate.project_id mc) (MemoryCreate.agent_id mc) /\
  forall id,
    (get_memory (EmbeddingProvider0 := prov2) (json_obj := json_obj)
       (datetime := datetime)
       (MemoryCreate.project_id mc) (MemoryCreate.agent_id mc) id
       (store_memory (EmbeddingProvider0 := prov1) uuid4 now mc w).2).1
    = (get_memory (EmbeddingProvider0 := prov2) (json_obj := json_obj)
         (datetime := datetime)
         (MemoryCreate.project_id mc) (MemoryCreate.agent_id mc) id w).1.
Proof.
  intros Hname Hf He.
  assert (_get_collection_name (EmbeddingProvider0 := prov1)
            (MemoryCreate.project_id mc) (MemoryCreate.agent_id mc)
          <> _get_collection_name (EmbeddingProvider0 := prov2)
               (MemoryCreate.project_id mc) (MemoryCreate.agent_id mc)) as Hne.
  { intros H. by apply _get_collection_name_provider in H. }
  split; [exact Hne|]. intros id.
  destruct (store_memory_healthy (EmbeddingProvider0 := prov1) uuid4 now mc w e Hf He)
    as (w1 & Hrun & Hf1 & _ & Hother & _).
  rewrite Hrun. simpl.
  rewrite !(get_memory_healthy (EmbeddingProvider0 := prov2)) by done. simpl.
  rewrite Hother; [done|]. by intros H.
Qed.

End ProviderSwitch.

(** ** The properties on the fixtures *)

Section MoreScenarios.

Import Scenario Fixtures.

Lemma memory_of_jwt_record : memory_of_record jwt_record = Return jwt_memory.
Proof. by vm_compute. Qed.

Lemma records_after_jwt : records_of "p_p1_a_a1_emb_local" after_jwt = [jwt_record].
Proof. by vm_compute. Qed.


Lemma operations_leave_other_ids_alone_witness :
  faults after_jwt = [] /\ id1 <> id2 /\
  (get_memory (json_obj := json_obj) (datetime := IsoDatetime.t) "p1" "a1" id1
     (delete_memory "p1" "a1" id2 after_jwt).2).1
  = (get_memory (json_obj := json_obj) (datetime := IsoDatetime.t)
       "p1" "a1" id1 after_jwt).1.
Proof.
  split; [reflexivity|]. split; [done|].
  apply (operations_leave_other_ids_alone (json_obj := json_obj)
           (datetime := IsoDatetime.t)
           "p1" "a1" id2 "p1" "a1" id1 after_jwt).
  - reflexivity.
  - done.
Defined.

Lemma absent_id_get_and_update_return_None_witness :
  faults after_jwt = [] /\
  (update_memory t1 "p1" "a1" id2 new_content after_jwt).1 = Return None /\
  embed_log (update_memory t1 "p1" "a1" id2 new_content after_jwt).2
  = embed_log after_jwt.
Proof.
  split; [reflexivity|].
  destruct (absent_id_get_and_update_return_None
              t1 "p1" "a1" id2 new_content after_jwt)
    as (_ & Hup & _ & Hlog).
  - reflexivity.
  - vm_compute. constructor; [done|constructor].
  - by split.
Defined.



Lemma reachable_stores_are_readable_witness :
  reachable (json_obj := json_obj) (datetime := IsoDatetime.t)
    (where_clause := ChromaIndex.where_clause) after_jwt /\
  faults after_jwt = [] /\
  exists o,
    (get_memory (json_obj := json_obj) (datetime := IsoDatetime.t)
       "p1" "a1" id1 after_jwt).1 = Return o.
Proof.
  split; [exact reachable_after_jwt|]. split; [reflexivity|].
  destruct (reachable_stores_are_readable (where_clause := ChromaIndex.where_clause)
              after_jwt reachable_after_jwt eq_refl) as [Hget _].
  apply Hget.
Defined.

Lemma list_memories_pages_witness :
  reachable (json_obj := json_obj) (datetime := IsoDatetime.t)
    (where_clause := ChromaIndex.where_clause) after_jwt /\
  faults after_jwt = [] /\ 0 <= 0 /\ 0 <= 100 /\
  exists page w1,
    list_memories (json_obj := json_obj) (datetime := IsoDatetime.t)
      (where_clause := ChromaIndex.where_clause)
      "p1" "a1" 100 0 None after_jwt = (Return page, w1) /\
    List.map MemoryMetadata.memory_id page = [id1].
Proof.
  split; [exact reachable_after_jwt|]. split; [reflexivity|].
  split; [lia|]. split; [lia|].
  destruct (list_memories_pages (where_clause := ChromaIndex.where_clause)
              "p1" "a1" 100 0 None after_jwt reachable_after_jwt eq_refl)
    as (page & w1 & Hrun & Hids & _); [lia|lia|].
  exists page, w1. split; [exact Hrun|]. rewrite Hids. by vm_compute.
Defined.

Lemma search_memories_follows_the_index_witness :
  exists e hits,
    embed "anything" = Some e /\
    knn_query e 5 None (records_of (_get_collection_name "p1" "a1") after_jwt)
    = Return hits /\
    List.map (fun sr => Memory.memory_id (SearchResult.memory sr)) [jwt_hit]
    = List.map (fun h => rec_id h.1) hits /\
    List.map (fun sr => Memory.content (SearchResult.memory sr)) [jwt_hit]
    = List.map (fun h => rec_document h.1) hits.
Proof.
  apply (search_memories_follows_the_index "p1" "a1" "anything" 5 None after_jwt
           [jwt_hit]
           (search_memories (json_obj := json_obj) (datetime := IsoDatetime.t)
              "p1" "a1" "anything" 5 None after_jwt).2).
  exact search_after_jwt.
Defined.

Lemma similarity_of_negative_distances_witness :
  memory_of_record jwt_record = Return jwt_memory /\
  search_result_of (jwt_record, (-1 # 2)%Q)
  = Return (SearchResult.mk json_obj IsoDatetime.t jwt_memory 1).
Proof.
  split; [exact memory_of_jwt_record|].
  destruct (similarity_of_negative_distances jwt_record jwt_memory (-1 # 2)%Q
              memory_of_jwt_record) as (Hcap & _ & _).
  apply Hcap; reflexivity.
Defined.

Lemma _get_collection_name_shape_witness :
  PyStr.all_safe (provider_name (EmbeddingProvider := mock_embedding_provider)) = true /\
  PyStr.all_safe (_get_collection_name "my@project!" "agent#1") = true /\
  _get_collection_name "my_project_" "agent_1"
  = _get_collection_name "my@project!" "agent#1".
Proof.
  split; [reflexivity|].
  destruct (_get_collection_name_shape (EmbeddingProvider0 := mock_embedding_provider)
              "my@project!" "agent#1" eq_refl) as (Hsafe & _ & Hsame).
  split; [exact Hsafe|exact Hsame].
Defined.


Lemma provider_switch_starts_a_new_partition_witness :
  provider_name (EmbeddingProvider := mock_embedding_provider)
  <> provider_name (EmbeddingProvider := unreachable_provider) /\
  faults fresh = [] /\
  forall id,
    (get_memory (EmbeddingProvider0 := unreachable_provider) (json_obj := json_obj)
       (datetime := IsoDatetime.t) "p1" "a1" id after_jwt).1
    = (get_memory (EmbeddingProvider0 := unreachable_provider) (json_obj := json_obj)
         (datetime := IsoDatetime.t) "p1" "a1" id fresh).1.
Proof.
  split; [done|]. split; [reflexivity|].
  destruct (provider_switch_starts_a_new_partition
              (datetime := IsoDatetime.t)
              mock_embedding_provider unreachable_provider id1 t0 jwt_request fresh
              [0.1; 0.2; 0.3; 0.4]%Q) as [_ Hget]; [done|reflexivity|reflexivity|].
  exact Hget.
Defined.

End MoreScenarios.

Section PadsSanity.
Import Scenario Pads.

Lemma get_after_first :
  get_scratchpad "proj-1" "agent-1" after_first = (Disk.Ok (Some first_pad), after_first).
Proof. by vm_compute. Qed.

Lemma get_array_file :
  (get_scratchpad (datetime := IsoDatetime.t) "notes" "x" with_array_file).1
  = Disk.Fail Disk.TypeError.
Proof. by vm_compute. Qed.

Lemma get_torn_file :
  (get_scratchpad (datetime := IsoDatetime.t) "notes" "x" with_torn_file).1
  = Disk.Ok None.
Proof. by vm_compute. Qed.

Lemma list_after_first :
  (list_scratchpads (datetime := IsoDatetime.t) None None after_first).1
  = Disk.Ok [first_pad].
Proof. by vm_compute. Qed.

Lemma filepath_slashes :
  _get_filepath "my-project/with/slashes" "agent@email.com"
  = "my-project_with_slashes_agent_email.com.json".
Proof. by vm_compute. Qed.

End PadsSanity.

(** * The scratchpad store *)

(** ** File names *)

Section FileNames.

Lemma sub_unsafe_cons c s :
  PyRe.sub_unsafe (String c s)
  = String (if PyRe.is_filename_char c then c else "_"%char) (PyRe.sub_unsafe s).
Proof. reflexivity. Qed.

Lemma all_filename_chars_cons c s :
  PyRe.all_filename_chars (String c s)
  = PyRe.is_filename_char c && PyRe.all_filename_chars s.
Proof. reflexivity. Qed.

Lemma sub_unsafe_filename_chars s : PyRe.all_filename_chars (PyRe.sub_unsafe s) = true.
Proof.
  induction s as [|c s IH]; [done|].
  rewrite sub_unsafe_cons, all_filename_chars_cons, IH, andb_true_r.
  destruct (PyRe.is_filename_char c) eqn:Hc; [done|]. by vm_compute.
Qed.

Lemma sub_unsafe_fixed s : PyRe.all_filename_chars s = true -> PyRe.sub_unsafe s = s.
Proof.
  induction s as [|c s IH]; [done|].
  rewrite sub_unsafe_cons, all_filename_chars_cons.
  intros [Hc Hs]%andb_true_iff. by rewrite Hc, IH.
Qed.

Lemma sub_unsafe_idem s : PyRe.sub_unsafe (PyRe.sub_unsafe s) = PyRe.sub_unsafe s.
Proof. apply sub_unsafe_fixed, sub_unsafe_filename_chars. Qed.

Lemma sub_unsafe_length s : String.length (PyRe.sub_unsafe s) = String.length s.
Proof.
  induction s as [|c s IH]; [done|].
  rewrite sub_unsafe_cons. cbn [String.length]. by rewrite IH.
Qed.

Lemma all_filename_chars_append s1 s2 :
  PyRe.all_filename_chars (s1 +:+ s2)
  = PyRe.all_filename_chars s1 && PyRe.all_filename_chars s2.
Proof.
  induction s1 as [|c s1 IH]; [done|].
  change (String c s1 +:+ s2) with (String c (s1 +:+ s2)).
  by rewrite !all_filename_chars_cons, IH, andb_assoc.
Qed.

Lemma all_filename_chars_In s c :
  PyRe.all_filename_chars s = true ->
  In c (list_ascii_of_string s) -> PyRe.is_filename_char c = true.
Proof.
  induction s as [|c' s IH]; [done|].
  rewrite all_filename_chars_cons.
  intros [Hc Hs]%andb_true_iff [<-|Hin]; [done|]. by apply IH.
Qed.

Lemma substring_0_length (b : string) : String.substring 0 (String.length b) b = b.
Proof. induction b as [|c b IH]; [done|]. simpl. by rewrite IH. Qed.

Lemma substring_append_r (a b : string) :
  String.substring (String.length a) (String.length b) (a +:+ b) = b.
Proof.
  induction a as [|c a IH]; [apply substring_0_length|exact IH].
Qed.

Lemma endswith_append (a suffix : string) : PyRe.endswith (a +:+ suffix) suffix = true.
Proof.
  unfold PyRe.endswith. rewrite length_append.
  rewrite bool_decide_eq_true_2 by lia. simpl.
  replace (String.length a + String.length suffix - String.length suffix)%nat
    with (String.length a) by lia.
  rewrite substring_append_r. apply String.eqb_refl.
Qed.

Lemma append_assoc (a b c : string) : (a +:+ b) +:+ c = a +:+ (b +:+ c).
Proof.
  induction a as [|x a IH]; [done|].
  change (String x ((a +:+ b) +:+ c) = String x (a +:+ (b +:+ c))).
  by rewrite IH.
Qed.

(** The first underscore of a file name marks the end of a project id
    that has none. *)
Lemma no_underscore_prefix_inj (p1 p2 x1 x2 : string) :
  PyRe.no_underscore p1 = true -> PyRe.no_underscore p2 = true ->
  p1 +:+ String "_" x1 = p2 +:+ String "_" x2 ->
  p1 = p2 /\ x1 = x2.
Proof.
  revert p2. induction p1 as [|c p1 IH]; intros [|c' p2] H1 H2 H; simpl in *.
  - by injection H as ->.
  - injection H as <- _. simpl in H2. done.
  - injection H as -> _. simpl in H1. done.
  - injection H as -> H.
    apply andb_true_iff in H1 as [_ H1]. apply andb_true_iff in H2 as [_ H2].
    destruct (IH p2 H1 H2 H) as [-> ->]. done.
Qed.

Lemma _get_filepath_chars p a : PyRe.all_filename_chars (_get_filepath p a) = true.
Proof.
  unfold _get_filepath, _sanitize_id.
  by rewrite !all_filename_chars_append, !sub_unsafe_filename_chars.
Qed.

Lemma _get_filepath_endswith p a : PyRe.endswith (_get_filepath p a) ".json" = true.
Proof.
  unfold _get_filepath.
  rewrite <- (append_assoc "_" (_sanitize_id a) ".json").
  rewrite <- (append_assoc (_sanitize_id p) ("_" +:+ _sanitize_id a) ".json").
  apply endswith_append.
Qed.

(** X17.  File names.  The file of a scope is named by the two sanitised
    ids, an underscore between them, and [.json]: the name has characters
    from [[\w\-.]] only, so no path separator and no NUL, and is six
    characters longer than the two ids together; [glob("*.json")] matches
    it; a scope and the scope of its sanitised ids have the same file; and
    two scopes of ids from [[\w\-.]] whose project ids have no underscore
    have the same file only when they are the same scope. *)
Theorem _get_filepath_shape p a :
  PyRe.all_filename_chars (_get_filepath p a) = true /\
  (forall c, In c (list_ascii_of_string (_get_filepath p a)) ->
     c <> "/"%char /\ c <> "\"%char /\ c <> ascii_of_N 0) /\
  String.length (_get_filepath p a) = (String.length p + String.length a + 6)%nat /\
  PyRe.endswith (_get_filepath p a) ".json" = true /\
  _get_filepath (_sanitize_id p) (_sanitize_id a) = _get_filepath p a /\
  (forall p' a',
      PyRe.all_filename_chars p = true -> PyRe.all_filename_chars a = true ->
      PyRe.all_filename_chars p' = true -> PyRe.all_filename_chars a' = true ->
      PyRe.no_underscore p = true -> PyRe.no_underscore p' = true ->
      _get_filepath p a = _get_filepath p' a' -> p = p' /\ a = a').
Proof.
  pose proof (_get_filepath_chars p a) as Hall.
  split_and!.
  - exact Hall.
  - intros c Hc. pose proof (all_filename_chars_In _ c Hall Hc) as Hok.
    split_and!; intros ->; by vm_compute in Hok.
  - unfold _get_filepath, _sanitize_id.
    rewrite !length_append, !sub_unsafe_length. simpl. lia.
  - apply _get_filepath_endswith.
  - unfold _get_filepath, _sanitize_id. by rewrite !sub_unsafe_idem.
  - intros p' a' Hp Ha Hp' Ha' Hu Hu'. unfold _get_filepath, _sanitize_id.
    rewrite !sub_unsafe_fixed by done.
    intros H. apply no_underscore_prefix_inj in H as [-> H]; [|done..].
    split; [done|]. by apply append_inv_tail in H.
Qed.

End FileNames.

(** ** The file system's calls *)

Section DiskProps.

Implicit Types d : Disk.t.

Lemma io_call_healthy d : Disk.io_faults d = [] -> Disk.io_call d = (Disk.Ok tt, d).
Proof. intros H. unfold Disk.io_call. by rewrite H. Qed.

Lemma io_call_files d : Disk.files (Disk.io_call d).2 = Disk.files d.
Proof. unfold Disk.io_call. by destruct (Disk.io_faults d) as [|[] fs]. Qed.

Lemma disk_eta d :
  {| Disk.files := Disk.files d; Disk.io_faults := Disk.io_faults d |} = d.
Proof. by destruct d. Qed.

Lemma write_text_healthy name text d :
  Disk.io_faults d = [] ->
  Disk.write_text name text d
  = (Disk.Ok tt,
     {| Disk.files := <[name := text]> (Disk.files d); Disk.io_faults := [] |}).
Proof.
  intros H. unfold Disk.write_text, Disk.bind.
  rewrite io_call_healthy by done. by rewrite H.
Qed.

Lemma read_text_healthy name text d :
  Disk.io_faults d = [] ->
  Disk.files d !! name = Some text ->
  Disk.read_text name d = (Disk.Ok text, d).
Proof.
  intros H Hf. unfold Disk.read_text, Disk.bind.
  rewrite io_call_healthy by done. by rewrite Hf.
Qed.

End DiskProps.

(** ** Runs of the scratchpad store *)

Section ScratchpadRuns.

Context {datetime : Type}.
Context `{!DatetimeCodec datetime, !ScratchpadModel datetime} {codec : JsonFileCodec}.

Local Abbreviation scratchpad := (Scratchpad.t datetime).
Implicit Types d : Disk.t.
Implicit Types s : scratchpad.

Lemma _load_scratchpad_absent name d :
  Disk.files d !! name = None ->
  _load_scratchpad name d = (Disk.Ok None, d).
Proof.
  intros Hf. unfold _load_scratchpad, Disk.bind, Disk.path_exists.
  rewrite Hf. rewrite bool_decide_eq_false_2 by (by intros [? ?]). done.
Qed.

Lemma _load_scratchpad_healthy name text d :
  Disk.io_faults d = [] ->
  Disk.files d !! name = Some text ->
  _load_scratchpad name d
  = (match json_load text with
     | None => Disk.Ok None
     | Some data =>
         match scratchpad_of_data data with
         | Disk.Ok s => Disk.Ok (Some s)
         | Disk.Fail e =>
             if Disk.is_key_or_value_error e then Disk.Ok None else Disk.Fail e
         end
     end, d).
Proof.
  intros Hh Hf. unfold _load_scratchpad, Disk.bind at 1, Disk.path_exists.
  rewrite Hf. rewrite bool_decide_eq_true_2 by by eexists. simpl.
  unfold Disk.try_except, Disk.bind.
  rewrite (read_text_healthy name text) by done.
  unfold Disk.lift, Disk.ret.
  destruct (json_load text) as [data|]; [|done].
  destruct (scratchpad_of_data data) as [s|e]; [done|].
  by destruct (Disk.is_key_or_value_error e).
Qed.

(** What was saved is read back by the expression of [_load_scratchpad],
    up to the constructor. *)
Lemma scratchpad_of_data_saved `{!DatetimeCodecLaws DatetimeCodec0} s :
  scratchpad_of_data (scratchpad_data s)
  = Scratchpad_init (Scratchpad.project_id s) (Scratchpad.agent_id s)
      (Scratchpad.content s) (Scratchpad.created_at s) (Scratchpad.updated_at s).
Proof.
  unfold scratchpad_of_data, scratchpad_data, Scratchpad_init. simpl.
  by rewrite !fromisoformat_isoformat.
Qed.

Lemma _save_scratchpad_healthy s d :
  Disk.io_faults d = [] ->
  _save_scratchpad s d
  = (Disk.Ok tt,
     {| Disk.files :=
          <[_get_filepath (Scratchpad.project_id s) (Scratchpad.agent_id s)
              := json_dump (scratchpad_data s)]> (Disk.files d);
        Disk.io_faults := [] |}).
Proof. intros Hh. unfold _save_scratchpad. by rewrite write_text_healthy. Qed.

(** [get_scratchpad] on the file [_save_scratchpad] has just written. *)
Lemma get_saved
    `{!DatetimeCodecLaws DatetimeCodec0, !JsonFileCodecLaws codec}
    p a s files :
  _get_filepath (Scratchpad.project_id s) (Scratchpad.agent_id s) = _get_filepath p a ->
  Scratchpad_new (Json.Str (Scratchpad.project_id s)) (Json.Str (Scratchpad.agent_id s))
    (Json.Str (Scratchpad.content s)) (Scratchpad.created_at s) (Scratchpad.updated_at s)
  = Some s ->
  let d := {| Disk.files := <[_get_filepath p a := json_dump (scratchpad_data s)]> files;
              Disk.io_faults := [] |} in
  get_scratchpad p a d = (Disk.Ok (Some s), d).
Proof.
  intros Hpath Hnew. cbv zeta. unfold get_scratchpad.
  rewrite (_load_scratchpad_healthy _ (json_dump (scratchpad_data s)));
    [|done|apply lookup_insert_eq].
  unfold scratchpad_data at 1. rewrite json_load_dump.
  fold (scratchpad_data s). rewrite scratchpad_of_data_saved.
  unfold Scratchpad_init. by rewrite Hnew.
Qed.

Lemma create_scratchpad_healthy now p a c d :
  Disk.io_faults d = [] ->
  Disk.files d !! _get_filepath p a = None ->
  Scratchpad_new (Json.Str p) (Json.Str a) (Json.Str c) now now
  = Some (Scratchpad.mk datetime p a c now now) ->
  create_scratchpad now (ScratchpadCreate.mk p a c) d
  = (Disk.Ok (Some (Scratchpad.mk datetime p a c now now)),
     {| Disk.files :=
          <[_get_filepath p a
              := json_dump (scratchpad_data (Scratchpad.mk datetime p a c now now))]>
            (Disk.files d);
        Disk.io_faults := [] |}).
Proof.
  intros Hh Habsent Hnew.
  unfold create_scratchpad, Disk.bind at 1, Disk.path_exists. simpl.
  rewrite Habsent. rewrite bool_decide_eq_false_2 by (by intros [? ?]).
  unfold Disk.bind at 1, Disk.lift, Scratchpad_init. rewrite Hnew.
  unfold Disk.bind. by rewrite _save_scratchpad_healthy by done.
Qed.

Lemma create_scratchpad_present now (create : ScratchpadCreate.t) d :
  is_Some (Disk.files d !! _get_filepath (ScratchpadCreate.project_id create)
                             (ScratchpadCreate.agent_id create)) ->
  create_scratchpad now create d = (Disk.Ok None, d).
Proof.
  intros Hp. unfold create_scratchpad, Disk.bind, Disk.path_exists.
  by rewrite bool_decide_eq_true_2.
Qed.

(** X18.  Create, then get.  On a healthy file system, with codecs that
    read back what they wrote, for a scope that has no file and a request
    the model takes as it is: [create_scratchpad] returns the scratchpad
    of the request, with the instant of the call as both timestamps,
    writes the file of the scope and no other; [get_scratchpad] then
    returns that scratchpad; and a second [create_scratchpad] for the
    scope returns [None] and leaves the directory as it is. *)
Theorem create_then_get_scratchpad
    `{!DatetimeCodecLaws DatetimeCodec0, !JsonFileCodecLaws codec}
    now p a c d :
  Disk.io_faults d = [] ->
  Disk.files d !! _get_filepath p a = None ->
  Scratchpad_new (Json.Str p) (Json.Str a) (Json.Str c) now now
  = Some (Scratchpad.mk datetime p a c now now) ->
  exists d1,
    create_scratchpad now (ScratchpadCreate.mk p a c) d
    = (Disk.Ok (Some (Scratchpad.mk datetime p a c now now)), d1) /\
    get_scratchpad p a d1
    = (Disk.Ok (Some (Scratchpad.mk datetime p a c now now)), d1) /\
    (forall now' c',
        create_scratchpad now' (ScratchpadCreate.mk p a c') d1 = (Disk.Ok None, d1)) /\
    (forall other,
        other <> _get_filepath p a ->
        Disk.files d1 !! other = Disk.files d !! other).
Proof.
  intros Hh Habsent Hnew.
  rewrite (create_scratchpad_healthy now p a c d) by done.
  eexists. split; [reflexivity|]. split_and!.
  - by apply (get_saved p a (Scratchpad.mk datetime p a c now now)).
  - intros now' c'. apply create_scratchpad_present. simpl.
    rewrite lookup_insert_eq. by eexists.
  - intros other Hne. simpl. by rewrite lookup_insert_ne.
Qed.

(** X19.  Colliding scopes.  On a healthy file system, with codecs that
    read back what they wrote, after [create_scratchpad] for a scope that
    had no file and whose request the model takes as it is, a second
    scope whose sanitised ids give the same file name finds the
    scratchpad of the first: [get_scratchpad] for the second scope returns
    it, under the ids of the first; [create_scratchpad] for the second
    scope returns [None]; and [delete_scratchpad] for the second scope
    removes it, so that the first scope has none any more. *)
Theorem colliding_scopes_share_a_scratchpad
    `{!DatetimeCodecLaws DatetimeCodec0, !JsonFileCodecLaws codec}
    now p1 a1 c p2 a2 d :
  Disk.io_faults d = [] ->
  Disk.files d !! _get_filepath p1 a1 = None ->
  Scratchpad_new (Json.Str p1) (Json.Str a1) (Json.Str c) now now
  = Some (Scratchpad.mk datetime p1 a1 c now now) ->
  _get_filepath p2 a2 = _get_filepath p1 a1 ->
  exists d1,
    create_scratchpad now (ScratchpadCreate.mk p1 a1 c) d
    = (Disk.Ok (Some (Scratchpad.mk datetime p1 a1 c now now)), d1) /\
    get_scratchpad p2 a2 d1
    = (Disk.Ok (Some (Scratchpad.mk datetime p1 a1 c now now)), d1) /\
    (forall now' c',
        create_scratchpad now' (ScratchpadCreate.mk p2 a2 c') d1 = (Disk.Ok None, d1)) /\
    (delete_scratchpad p2 a2 d1).1 = Disk.Ok true /\
    (get_scratchpad p1 a1 (delete_scratchpad p2 a2 d1).2).1 = Disk.Ok None.
Proof.
  intros Hh Habsent Hnew Hpath.
  rewrite (create_scratchpad_healthy now p1 a1 c d) by done.
  eexists. split; [reflexivity|]. rewrite <- Hpath. split_and!.
  - by apply (get_saved p2 a2 (Scratchpad.mk datetime p1 a1 c now now)).
  - intros now' c'. apply create_scratchpad_present. simpl.
    rewrite lookup_insert_eq. by eexists.
  - unfold delete_scratchpad, Disk.bind, Disk.path_exists. simpl.
    rewrite lookup_insert_eq. rewrite bool_decide_eq_true_2 by by eexists.
    simpl. unfold Disk.try_except, Disk.unlink, Disk.bind, Disk.io_call. simpl.
    by rewrite lookup_insert_eq.
  - unfold delete_scratchpad, Disk.bind, Disk.path_exists. simpl.
    rewrite lookup_insert_eq. rewrite bool_decide_eq_true_2 by by eexists.
    simpl. unfold Disk.try_except, Disk.unlink, Disk.bind, Disk.io_call. simpl.
    rewrite lookup_insert_eq. simpl.
    unfold get_scratchpad. rewrite Hpath.
    rewrite _load_scratchpad_absent; [done|]. simpl.
    rewrite <- Hpath. apply lookup_delete_eq.
Qed.

(** X20.  On a healthy file system, with codecs that read back what they
    wrote: an update of a scratchpad that sits in the file of its own
    scope returns a scratchpad with the ids and the creation time of the
    existing one, the content of the update, also when that is empty, and
    the instant of the call as its update time; [get_scratchpad] then
    returns that scratchpad, and no other file has changed. *)
Theorem update_scratchpad_keeps_identity
    `{!DatetimeCodecLaws DatetimeCodec0, !JsonFileCodecLaws codec}
    now p a (u : ScratchpadUpdate.t) d existing :
  Disk.io_faults d = [] ->
  get_scratchpad p a d = (Disk.Ok (Some existing), d) ->
  _get_filepath (Scratchpad.project_id existing) (Scratchpad.agent_id existing)
  = _get_filepath p a ->
  Scratchpad_new (Json.Str (Scratchpad.project_id existing))
    (Json.Str (Scratchpad.agent_id existing))
    (Json.Str (ScratchpadUpdate.content u))
    (Scratchpad.created_at existing) now
  = Some (Scratchpad.mk datetime (Scratchpad.project_id existing)
            (Scratchpad.agent_id existing) (ScratchpadUpdate.content u)
            (Scratchpad.created_at existing) now) ->
  exists d1,
    let updated :=
      Scratchpad.mk datetime (Scratchpad.project_id existing)
        (Scratchpad.agent_id existing) (ScratchpadUpdate.content u)
        (Scratchpad.created_at existing) now in
    update_scratchpad now p a u d = (Disk.Ok (Some updated), d1) /\
    get_scratchpad p a d1 = (Disk.Ok (Some updated), d1) /\
    (forall other,
        other <> _get_filepath p a ->
        Disk.files d1 !! other = Disk.files d !! other).
Proof.
  intros Hh Hget Hpath Hnew.
  unfold update_scratchpad, Disk.bind at 1. rewrite Hget.
  unfold Disk.bind at 1, Disk.lift, Scratchpad_init. rewrite Hnew.
  unfold Disk.bind. rewrite _save_scratchpad_healthy by done. simpl.
  rewrite Hpath.
  eexists. split; [reflexivity|]. split.
  - by apply (get_saved p a
                (Scratchpad.mk datetime (Scratchpad.project_id existing)
                   (Scratchpad.agent_id existing) (ScratchpadUpdate.content u)
                   (Scratchpad.created_at existing) now)).
  - intros other Hne. simpl. by rewrite lookup_insert_ne.
Qed.

(** X21.  For a scope that has no file, [get_scratchpad] and
    [update_scratchpad] return [None] and [delete_scratchpad] returns
    [False], without a call that opens or removes a file: the directory
    and the fault schedule are what they were. *)
Theorem scratchpad_absent now p a (u : ScratchpadUpdate.t) d :
  Disk.files d !! _get_filepath p a = None ->
  get_scratchpad p a d = (Disk.Ok None, d) /\
  update_scratchpad now p a u d = (Disk.Ok None, d) /\
  delete_scratchpad p a d = (Disk.Ok false, d).
Proof.
  intros Habsent.
  assert (get_scratchpad p a d = (Disk.Ok None, d)) as Hget
      by by apply _load_scratchpad_absent.
  split_and!.
  - exact Hget.
  - unfold update_scratchpad, Disk.bind. by rewrite Hget.
  - unfold delete_scratchpad, Disk.bind, Disk.path_exists.
    rewrite Habsent. by rewrite bool_decide_eq_false_2 by (by intros [? ?]).
Qed.

(** X22.  For a scope that has a file, [delete_scratchpad] returns and does
    not raise: [True] when the file system carried out [unlink], and then
    the file is gone, every other file is as it was, [get_scratchpad]
    returns [None] and a second [delete_scratchpad] returns [False];
    [False] when [unlink] raised [OSError], and then the directory is as
    it was. *)
Theorem delete_scratchpad_removes_the_file p a d text :
  Disk.files d !! _get_filepath p a = Some text ->
  exists b d1,
    delete_scratchpad p a d = (Disk.Ok b, d1) /\
    b = negb (hd false (Disk.io_faults d)) /\
    Disk.files d1
    = (if b then delete (_get_filepath p a) (Disk.files d) else Disk.files d) /\
    (b = true ->
     get_scratchpad p a d1 = (Disk.Ok None, d1) /\
     delete_scratchpad p a d1 = (Disk.Ok false, d1)).
Proof.
  intros Hf.
  unfold delete_scratchpad at 1, Disk.bind at 1, Disk.path_exists.
  rewrite Hf. rewrite bool_decide_eq_true_2 by by eexists. simpl.
  unfold Disk.try_except, Disk.unlink, Disk.bind, Disk.io_call.
  destruct (Disk.io_faults d) as [|[] fs] eqn:Hfaults; simpl; rewrite ?Hf; simpl.
  - eexists _, _. split; [reflexivity|]. split; [done|]. split; [done|].
    intros _. split.
    + apply _load_scratchpad_absent. simpl. apply lookup_delete_eq.
    + unfold delete_scratchpad, Disk.bind, Disk.path_exists. simpl.
      rewrite lookup_delete_eq.
      by rewrite bool_decide_eq_false_2 by (by intros [? ?]).
  - eexists _, _. split; [reflexivity|]. by split.
  - eexists _, _. split; [reflexivity|]. split; [done|]. split; [done|].
    intros _. split.
    + apply _load_scratchpad_absent. simpl. apply lookup_delete_eq.
    + unfold delete_scratchpad, Disk.bind, Disk.path_exists. simpl.
      rewrite lookup_delete_eq.
      by rewrite bool_decide_eq_false_2 by (by intros [? ?]).
Qed.

End ScratchpadRuns.

(** ** Files the store cannot read, and the listing *)

Section Listing.

Context {datetime : Type}.
Context `{!DatetimeCodec datetime, !ScratchpadModel datetime} {codec : JsonFileCodec}.

Local Abbreviation scratchpad := (Scratchpad.t datetime).
Implicit Types d : Disk.t.
Implicit Types s : scratchpad.

Lemma rbind_Fail {A B} (r : Disk.result A) (k : A -> Disk.result B) e :
  rbind r k = Disk.Fail e ->
  r = Disk.Fail e \/ exists a, r = Disk.Ok a /\ k a = Disk.Fail e.
Proof. destruct r as [a|e']; simpl; [by eauto|]. intros [= ->]. by left. Qed.

Lemma data_getitem_Fail data key e :
  data_getitem data key = Disk.Fail e ->
  Disk.is_key_or_value_error e = true \/ e = Disk.TypeError.
Proof.
  destruct data; simpl; try (intros [= <-]; by right).
  destruct (lookup_member l key); [done|]. intros [= <-]. by left.
Qed.

Lemma data_fromisoformat_Fail v e :
  data_fromisoformat v = Disk.Fail e ->
  Disk.is_key_or_value_error e = true \/ e = Disk.TypeError.
Proof.
  destruct v; simpl; try (intros [= <-]; by right).
  destruct (fromisoformat s); [done|]. intros [= <-]. by left.
Qed.

(** The exceptions of the [try] block that [_load_scratchpad] does not
    catch are [TypeError]s. *)
Lemma scratchpad_of_data_Fail data e :
  scratchpad_of_data data = Disk.Fail e ->
  Disk.is_key_or_value_error e = true \/ e = Disk.TypeError.
Proof.
  unfold scratchpad_of_data. intros H.
  apply rbind_Fail in H as [H|(p & _ & H)]; [by eapply data_getitem_Fail|].
  apply rbind_Fail in H as [H|(a & _ & H)]; [by eapply data_getitem_Fail|].
  apply rbind_Fail in H as [H|(c & _ & H)]; [by eapply data_getitem_Fail|].
  apply rbind_Fail in H as [H|(ca & _ & H)].
  { apply rbind_Fail in H as [H|(v & _ & H)];
      [by eapply data_getitem_Fail|by eapply data_fromisoformat_Fail]. }
  apply rbind_Fail in H as [H|(ua & _ & H)].
  { apply rbind_Fail in H as [H|(v & _ & H)];
      [by eapply data_getitem_Fail|by eapply data_fromisoformat_Fail]. }
  destruct (Scratchpad_new p a c ca ua); [done|]. inversion H. by left.
Qed.

(** On a healthy file system [_load_scratchpad] leaves the directory as it
    is, and returns or raises [TypeError]. *)
Lemma _load_scratchpad_cases name d :
  Disk.io_faults d = [] ->
  exists r,
    _load_scratchpad name d = (r, d) /\
    ((exists o, r = Disk.Ok o) \/ r = Disk.Fail Disk.TypeError).
Proof.
  intros Hh. destruct (Disk.files d !! name) as [text|] eqn:Hf.
  - rewrite (_load_scratchpad_healthy name text) by done.
    eexists. split; [reflexivity|].
    destruct (json_load text) as [data|]; [|by left; eexists].
    destruct (scratchpad_of_data data) as [s|e] eqn:Hs; [by left; eexists|].
    destruct (scratchpad_of_data_Fail data e Hs) as [->| ->]; [by left; eexists|].
    by right.
  - rewrite _load_scratchpad_absent by done. eexists. split; [done|]. by left; eexists.
Qed.

(** The tests of the loop of [list_scratchpads] on one field. *)
Lemma passes_spec (wanted : option string) (actual : string) :
  match wanted with
  | Some v => PyStr.truthy v && negb (String.eqb actual v)
  | None => false
  end = false
  <-> passes wanted actual.
Proof.
  unfold passes. destruct wanted as [v|]; [|done].
  destruct (PyStr.truthy v); simpl.
  - rewrite negb_false_iff, String.eqb_eq. naive_solver.
  - naive_solver.
Qed.

Lemma list_step_cases pf af acc name d :
  Disk.io_faults d = [] ->
  (_load_scratchpad name d = (Disk.Fail Disk.TypeError, d) /\
   list_step pf af acc name d = (Disk.Fail Disk.TypeError, d)) \/
  (exists o,
      _load_scratchpad name d = (Disk.Ok o, d) /\
      ((exists s,
           o = Some s /\
           passes pf (Scratchpad.project_id s) /\
           passes af (Scratchpad.agent_id s) /\
           list_step pf af acc name d = (Disk.Ok (acc ++ [s]), d)) \/
       ((forall s, o = Some s ->
                   ~ (passes pf (Scratchpad.project_id s) /\
                      passes af (Scratchpad.agent_id s))) /\
        list_step pf af acc name d = (Disk.Ok acc, d)))).
Proof.
  intros Hh. unfold list_step, Disk.bind.
  destruct (_load_scratchpad_cases name d Hh) as (r & -> & [[[s|] ->]| ->]).
  - right. exists (Some s). split; [done|].
    pose proof (passes_spec pf (Scratchpad.project_id s)) as Hp.
    pose proof (passes_spec af (Scratchpad.agent_id s)) as Ha.
    destruct (match pf with Some _ => _ | None => _ end).
    { right. split; [|done]. intros s' [= <-] [Hpass _]. by apply Hp in Hpass. }
    destruct (match af with Some _ => _ | None => _ end).
    { right. split; [|done]. intros s' [= <-] [_ Hpass]. by apply Ha in Hpass. }
    left. exists s. split_and!; [done|by apply Hp|by apply Ha|done].
  - right. exists None. split; [done|]. right. by split.
  - left. by split.
Qed.

Lemma foldM_list_step pf af names acc d :
  Disk.io_faults d = [] ->
  exists r,
    foldM (list_step pf af) acc names d = (r, d) /\
    ((r = Disk.Fail Disk.TypeError /\
      exists name, name ∈ names /\
                   _load_scratchpad name d = (Disk.Fail Disk.TypeError, d)) \/
     (exists l,
         r = Disk.Ok l /\
         (forall name, name ∈ names ->
                       exists o, _load_scratchpad name d = (Disk.Ok o, d)) /\
         forall s,
           s ∈ l <->
           s ∈ acc \/
           exists name,
             name ∈ names /\
             _load_scratchpad name d = (Disk.Ok (Some s), d) /\
             passes pf (Scratchpad.project_id s) /\
             passes af (Scratchpad.agent_id s))).
Proof.
  intros Hh. revert acc. induction names as [|name names IH]; intros acc.
  - exists (Disk.Ok acc). split; [done|]. right. exists acc. split; [done|].
    split; [by intros name Hn; apply elem_of_nil in Hn|].
    intros s. split; [by left|].
    intros [Hs|(name & Hn & _)]; [done|by apply elem_of_nil in Hn].
  - simpl. unfold Disk.bind.
    destruct (list_step_cases pf af acc name d Hh)
      as [[Hload ->]|(o & Hload & [(s0 & -> & Hp & Ha & ->)|[Hno ->]])].
    + eexists. split; [done|]. left. split; [done|].
      exists name. split; [by left|done].
    + destruct (IH (acc ++ [s0]))
        as (r & -> & [[-> (n & Hn & Hl)]|(l & -> & Hok & Hl)]).
      * eexists. split; [done|]. left. split; [done|].
        exists n. split; [by right|done].
      * eexists. split; [done|]. right. exists l. split; [done|]. split.
        { intros n [->|Hn]%elem_of_cons; [by eexists|by apply Hok]. }
        intros s. rewrite Hl, elem_of_app, list_elem_of_singleton. split.
        { intros [[Hs| ->]|(n & Hn & Hrest)].
          - by left.
          - right. exists name. split; [by left|done].
          - right. exists n. split; [by right|done]. }
        intros [Hs|(n & [->|Hn]%elem_of_cons & Hload' & Hpa)].
        { left. by left. }
        { rewrite Hload in Hload'. inversion Hload'. left. by right. }
        right. by exists n.
    + destruct (IH acc) as (r & -> & [[-> (n & Hn & Hl)]|(l & -> & Hok & Hl)]).
      * eexists. split; [done|]. left. split; [done|].
        exists n. split; [by right|done].
      * eexists. split; [done|]. right. exists l. split; [done|]. split.
        { intros n [->|Hn]%elem_of_cons; [by eexists|by apply Hok]. }
        intros s. rewrite Hl. split.
        { intros [Hs|(n & Hn & Hrest)]; [by left|].
          right. exists n. split; [by right|done]. }
        intros [Hs|(n & [->|Hn]%elem_of_cons & Hload' & Hpa)]; [by left| |].
        { rewrite Hload in Hload'. inversion Hload' as [Ho]. exfalso.
          by apply (Hno s). }
        right. by exists n.
Qed.

Lemma elem_of_glob_json name d :
  name ∈ (Disk.json_names d)
  <-> PyRe.endswith name ".json" = true /\ is_Some (Disk.files d !! name).
Proof.
  unfold Disk.json_names.
  rewrite list_elem_of_In, filter_In, in_map_iff. split.
  - intros [([n t] & <- & Hin) He]. split; [done|].
    apply list_elem_of_In, elem_of_map_to_list in Hin. by eexists.
  - intros [He [t Ht]]. split; [|done].
    exists (name, t). split; [done|].
    by apply list_elem_of_In, elem_of_map_to_list.
Qed.

Lemma list_scratchpads_run pf af d :
  list_scratchpads pf af d
  = foldM (list_step pf af) [] (Disk.json_names d) d.
Proof. reflexivity. Qed.

Lemma foldM_ext {A B} (f g : B -> A -> Disk.IO B) acc l d :
  (forall acc x d, f acc x d = g acc x d) -> foldM f acc l d = foldM g acc l d.
Proof.
  intros Hfg. revert acc d. induction l as [|x l IH]; intros acc d; simpl; [done|].
  unfold Disk.bind. rewrite Hfg. by destruct (g acc x d) as [[acc'|e] d'].
Qed.

(** X23.  The listing.  On a healthy file system [list_scratchpads] leaves
    the directory as it is.  When it returns, a scratchpad is in the list
    exactly when it is what [_load_scratchpad] returns for some file of
    the directory whose name ends in [.json], and has the project id and
    the agent id asked for, a filter that is absent or the empty string
    asking for nothing; when it raises, it raises the [TypeError] that
    [_load_scratchpad] raises on one of these files.  The empty string as
    a filter gives what no filter gives. *)
Theorem list_scratchpads_selects pf af d :
  Disk.io_faults d = [] ->
  (exists r,
      list_scratchpads pf af d = (r, d) /\
      ((r = Disk.Fail Disk.TypeError /\
        exists name,
          PyRe.endswith name ".json" = true /\
          is_Some (Disk.files d !! name) /\
          _load_scratchpad name d = (Disk.Fail Disk.TypeError, d)) \/
       (exists l,
           r = Disk.Ok l /\
           forall s,
             s ∈ l <->
             exists name,
               PyRe.endswith name ".json" = true /\
               is_Some (Disk.files d !! name) /\
               _load_scratchpad name d = (Disk.Ok (Some s), d) /\
               passes pf (Scratchpad.project_id s) /\
               passes af (Scratchpad.agent_id s)))) /\
  list_scratchpads (Some "") af d = list_scratchpads None af d /\
  list_scratchpads pf (Some "") d = list_scratchpads pf None d.
Proof.
  intros Hh. split_and!.
  - rewrite list_scratchpads_run.
    destruct (foldM_list_step pf af (Disk.json_names d) [] d Hh)
      as (r & -> & [[-> (n & Hn & Hl)]|(l & -> & _ & Hl)]).
    + eexists. split; [done|]. left. split; [done|].
      apply elem_of_glob_json in Hn as [He Hs]. by exists n.
    + eexists. split; [done|]. right. exists l. split; [done|].
      intros s. rewrite Hl. split.
      * intros [Hs|(n & Hn & Hrest)]; [by apply elem_of_nil in Hs|].
        apply elem_of_glob_json in Hn as [He Hs]. by exists n.
      * intros (n & He & Hs & Hrest). right. exists n.
        split; [by apply elem_of_glob_json|done].
  - rewrite !list_scratchpads_run. by apply foldM_ext.
  - rewrite !list_scratchpads_run. apply foldM_ext. intros acc x d0.
    unfold list_step, Disk.bind.
    destruct (_load_scratchpad x d0) as [[[s|]|e] d1]; [|done|done].
    by destruct (match pf with Some _ => _ | None => _ end).
Qed.

(** X24.  Files the store cannot read.  On a healthy file system, for a
    file that is there: when its text is no JSON, or is a JSON object
    without the member [project_id], [_load_scratchpad] returns [None];
    when its text is JSON but no object, [_load_scratchpad] raises
    [TypeError], which its [except] clause does not catch, and so does
    [list_scratchpads], whatever the filters, when the name of the file
    ends in [.json]. *)
Theorem unreadable_scratchpad_files name text d :
  Disk.io_faults d = [] ->
  Disk.files d !! name = Some text ->
  (json_load text = None -> _load_scratchpad name d = (Disk.Ok None, d)) /\
  (forall l,
      json_load text = Some (Json.Object l) ->
      lookup_member l "project_id" = None ->
      _load_scratchpad name d = (Disk.Ok None, d)) /\
  (forall data,
      json_load text = Some data ->
      (forall l, data <> Json.Object l) ->
      _load_scratchpad name d = (Disk.Fail Disk.TypeError, d) /\
      (PyRe.endswith name ".json" = true ->
       forall pf af,
         list_scratchpads pf af d = (Disk.Fail Disk.TypeError, d))).
Proof.
  intros Hh Hf. split_and!.
  - intros Hload. rewrite (_load_scratchpad_healthy name text) by done.
    by rewrite Hload.
  - intros l Hload Hmiss. rewrite (_load_scratchpad_healthy name text) by done.
    rewrite Hload. unfold scratchpad_of_data, data_getitem. by rewrite Hmiss.
  - intros data Hload Hno.
    assert (_load_scratchpad name d = (Disk.Fail Disk.TypeError, d)) as Hbad.
    { rewrite (_load_scratchpad_healthy name text) by done. rewrite Hload.
      destruct data as [| | | | |l]; try done. by destruct (Hno l). }
    split; [exact Hbad|]. intros He pf af.
    rewrite list_scratchpads_run.
    destruct (foldM_list_step pf af (Disk.json_names d) [] d Hh)
      as (r & -> & [[-> _]|(l & -> & Hok & _)]); [done|].
    destruct (Hok name) as [o Ho].
    { apply elem_of_glob_json. split; [done|by eexists]. }
    rewrite Hbad in Ho. done.
Qed.

End Listing.

(** ** An invariant of the directory *)

Section PadInvariant.

Context {datetime : Type}.
Context `{!DatetimeCodec datetime, !ScratchpadModel datetime} {codec : JsonFileCodec}.

Local Abbreviation scratchpad := (Scratchpad.t datetime).
Implicit Types d : Disk.t.
Implicit Types s : scratchpad.











End PadInvariant.

(** ** The instances keep the laws *)

#[export] Instance file_codec_laws : JsonFileCodecLaws file_codec.
Proof.
  constructor. intros l. simpl.
  pose proof (loads_dumps l) as H.
  unfold Json.loads, Json.dumps, Json.print_object in H.
  unfold FileJson.load, FileJson.dump.
  destruct (Json.parse_value _ _) as [[v rest]|]; [|done].
  destruct v; try done. destruct rest; [|done]. by inversion H.
Qed.

(** ** The scratchpad store on the fixtures *)

Section PadScenarios.

Import Scenario Pads.

Lemma create_then_get_scratchpad_witness :
  Disk.io_faults blank_disk = [] /\
  exists d1,
    create_scratchpad t0 first_request blank_disk = (Disk.Ok (Some first_pad), d1) /\
    get_scratchpad "proj-1" "agent-1" d1 = (Disk.Ok (Some first_pad), d1).
Proof.
  split; [reflexivity|].
  destruct (create_then_get_scratchpad (datetime := IsoDatetime.t)
              t0 "proj-1" "agent-1" "My first scratchpad" blank_disk)
    as (d1 & Hcreate & Hget & _); [reflexivity|reflexivity|reflexivity|].
  by exists d1.
Defined.

Lemma colliding_scopes_share_a_scratchpad_witness :
  _get_filepath "a_b" "c" = _get_filepath "a/b" "c" /\
  exists d1,
    create_scratchpad t0 (ScratchpadCreate.mk "a/b" "c" "notes") blank_disk
    = (Disk.Ok (Some (Scratchpad.mk IsoDatetime.t "a/b" "c" "notes" t0 t0)), d1) /\
    get_scratchpad "a_b" "c" d1
    = (Disk.Ok (Some (Scratchpad.mk IsoDatetime.t "a/b" "c" "notes" t0 t0)), d1).
Proof.
  split; [reflexivity|].
  destruct (colliding_scopes_share_a_scratchpad (datetime := IsoDatetime.t)
              t0 "a/b" "c" "notes" "a_b" "c" blank_disk)
    as (d1 & Hcreate & Hget & _); [reflexivity|reflexivity|reflexivity|reflexivity|].
  by exists d1.
Defined.

Lemma update_scratchpad_keeps_identity_witness :
  Disk.io_faults after_first = [] /\
  exists d1,
    update_scratchpad t1 "proj-1" "agent-1" (ScratchpadUpdate.mk "") after_first
    = (Disk.Ok (Some (Scratchpad.mk IsoDatetime.t "proj-1" "agent-1" "" t0 t1)), d1) /\
    get_scratchpad "proj-1" "agent-1" d1
    = (Disk.Ok (Some (Scratchpad.mk IsoDatetime.t "proj-1" "agent-1" "" t0 t1)), d1).
Proof.
  split; [reflexivity|].
  destruct (update_scratchpad_keeps_identity (datetime := IsoDatetime.t)
              t1 "proj-1" "agent-1" (ScratchpadUpdate.mk "") after_first first_pad)
    as (d1 & Hup & Hget & _);
    [reflexivity|exact get_after_first|reflexivity|reflexivity|].
  by exists d1.
Defined.

Lemma scratchpad_absent_witness :
  Disk.files blank_disk !! _get_filepath "nonexistent" "agent" = None /\
  get_scratchpad (datetime := IsoDatetime.t) "nonexistent" "agent" blank_disk
  = (Disk.Ok None, blank_disk) /\
  delete_scratchpad "nonexistent" "agent" blank_disk = (Disk.Ok false, blank_disk).
Proof.
  split; [reflexivity|].
  destruct (scratchpad_absent (datetime := IsoDatetime.t)
              t0 "nonexistent" "agent" (ScratchpadUpdate.mk "Test") blank_disk eq_refl)
    as (Hget & _ & Hdel).
  by split.
Defined.

Lemma delete_scratchpad_removes_the_file_witness :
  is_Some (Disk.files after_first !! _get_filepath "proj-1" "agent-1") /\
  exists d1,
    delete_scratchpad "proj-1" "agent-1" after_first = (Disk.Ok true, d1) /\
    get_scratchpad (datetime := IsoDatetime.t) "proj-1" "agent-1" d1
    = (Disk.Ok None, d1).
Proof.
  split; [by eexists|].
  destruct (delete_scratchpad_removes_the_file (datetime := IsoDatetime.t)
              "proj-1" "agent-1" after_first
              (json_dump (scratchpad_data first_pad)) eq_refl)
    as (b & d1 & Hdel & Hb & _ & Hafter).
  change (hd false (Disk.io_faults after_first)) with false in Hb. simpl in Hb.
  subst b. destruct (Hafter eq_refl) as [Hget _]. by exists d1.
Defined.

Lemma list_scratchpads_selects_witness :
  Disk.io_faults after_first = [] /\
  list_scratchpads (datetime := IsoDatetime.t) (Some "") None after_first
  = list_scratchpads None None after_first.
Proof.
  split; [reflexivity|].
  destruct (list_scratchpads_selects (datetime := IsoDatetime.t)
              None None after_first eq_refl) as (_ & Hempty & _).
  exact Hempty.
Defined.

Lemma unreadable_scratchpad_files_witness :
  Disk.io_faults with_array_file = [] /\
  Disk.files with_array_file !! "notes_x.json" = Some "[]" /\
  forall pf af,
    list_scratchpads (datetime := IsoDatetime.t) pf af with_array_file
    = (Disk.Fail Disk.TypeError, with_array_file).
Proof.
  split; [reflexivity|]. split; [reflexivity|].
  destruct (unreadable_scratchpad_files (datetime := IsoDatetime.t)
              "notes_x.json" "[]" with_array_file eq_refl eq_refl)
    as (_ & _ & Hbad).
  destruct (Hbad (Json.Array []) eq_refl) as [_ Hlist]; [done|].
  by apply Hlist.
Defined.



End PadScenarios.

(** * The provider factory *)

Section Factory.

Import Embeddings.

Lemma OpenAIEmbedding_init_Return OpenAI env p :
  OpenAIEmbedding_init OpenAI env = Return p ->
  provider_name p = "openai" /\
  exists api_key, env !! "MEMALPHA_OPENAI_API_KEY" = Some api_key /\ api_key <> "".
Proof.
  unfold OpenAIEmbedding_init.
  destruct (env !! "MEMALPHA_OPENAI_API_KEY") as [k|]; [|done].
  destruct k as [|c k]; [done|]. simpl.
  destruct (OpenAI _ _); [|done]. intros [= <-]. split; [done|]. by eexists.
Qed.

(** X26.  The factory.  The provider is chosen by the setting
    [MEMALPHA_EMBEDDING_PROVIDER] in lower case, [local] when it is not
    set: two settings that agree in lower case give the same outcome; a
    provider the factory returns has that lower-case setting as its
    provider name, which is [local] or [openai] and so consists of
    characters that are safe in a collection name, and an OpenAI provider
    is returned only with a non-empty API key in the environment; with no
    setting the factory returns the local provider with its default
    model, whatever else the environment holds; the empty setting is not
    the default and is refused; [openai] without an API key or with an
    empty one is refused before the client is built; and the dimension of
    an OpenAI model is 3072 for [text-embedding-3-large] and 1536 for
    every other name. *)
Theorem get_embedding_provider_choice OpenAI env :
  (forall v v',
      PyLower.lower v = PyLower.lower v' ->
      get_embedding_provider OpenAI (<["MEMALPHA_EMBEDDING_PROVIDER" := v]> env)
      = get_embedding_provider OpenAI (<["MEMALPHA_EMBEDDING_PROVIDER" := v']> env)) /\
  (forall p,
      get_embedding_provider OpenAI env = Return p ->
      provider_name p
      = PyLower.lower (getenv env "MEMALPHA_EMBEDDING_PROVIDER" "local") /\
      (provider_name p = "local" \/
       provider_name p = "openai" /\
       exists api_key,
         env !! "MEMALPHA_OPENAI_API_KEY" = Some api_key /\ api_key <> "") /\
      PyStr.all_safe (provider_name p) = true) /\
  (env !! "MEMALPHA_EMBEDDING_PROVIDER" = None ->
   get_embedding_provider OpenAI env = Return (LocalEmbedding "all-MiniLM-L6-v2")) /\
  (env !! "MEMALPHA_EMBEDDING_PROVIDER" = Some "" ->
   exists msg, get_embedding_provider OpenAI env = Raise (ValueError msg)) /\
  (PyLower.lower (getenv env "MEMALPHA_EMBEDDING_PROVIDER" "local") = "openai" ->
   (env !! "MEMALPHA_OPENAI_API_KEY" = None \/
    env !! "MEMALPHA_OPENAI_API_KEY" = Some "") ->
   exists msg, get_embedding_provider OpenAI env = Raise (ValueError msg)) /\
  (forall model,
      openai_dimension model
      = if String.eqb model "text-embedding-3-large" then 3072 else 1536).
Proof.
  split_and!.
  - intros v v' Hl. unfold get_embedding_provider, getenv.
    rewrite !lookup_insert_eq, Hl.
    destruct (String.eqb _ "local"); [done|].
    destruct (String.eqb _ "openai"); [|done].
    unfold OpenAIEmbedding_init, getenv.
    by rewrite !lookup_insert_ne by done.
  - intros p. unfold get_embedding_provider.
    destruct (String.eqb _ "local") eqn:Hlocal.
    { apply String.eqb_eq in Hlocal. intros [= <-]. rewrite Hlocal. simpl.
      split_and!; [done|by left|done]. }
    destruct (String.eqb _ "openai") eqn:Hopenai; [|done].
    apply String.eqb_eq in Hopenai. intros Hp.
    apply OpenAIEmbedding_init_Return in Hp as [Hp Hkey]. rewrite Hp, Hopenai.
    split_and!; [done|by right|done].
  - intros Hunset. unfold get_embedding_provider, getenv. by rewrite Hunset.
  - intros Hempty. unfold get_embedding_provider, getenv. rewrite Hempty.
    by eexists.
  - intros Hopenai Hkey. unfold get_embedding_provider. rewrite Hopenai. simpl.
    unfold OpenAIEmbedding_init. destruct Hkey as [-> | ->]; by eexists.
  - intros model. unfold openai_dimension, MODEL_DIMENSIONS, dict_get.
    destruct (String.eqb_spec model "text-embedding-3-large") as [->|Hl]; [done|].
    destruct (String.eqb_spec "text-embedding-3-small" model) as [<-|Hs]; [done|].
    destruct (String.eqb_spec "text-embedding-3-large" model) as [<-|_]; [done|].
    by destruct (String.eqb "text-embedding-ada-002" model).
Qed.

End Factory.

(** * The tool [delete_memory] *)

Section DeleteToolProps.

Context {vector : Type} `{!EmbeddingProvider vector}.

Implicit Types w : world vector.

Lemma bind_getitem_Some {A} (d : gmap string string) k v (f : string -> M vector A) w :
  d !! k = Some v -> bind (lift (getitem d k)) f w = f v w.
Proof. intros H. unfold bind, lift, getitem. by rewrite H. Qed.

Lemma bind_getitem_None {A} (d : gmap string string) k (f : string -> M vector A) w :
  d !! k = None -> bind (lift (getitem d k)) f w = (Raise (KeyError k), w).
Proof. intros H. unfold bind, lift, getitem. by rewrite H. Qed.

(** X27.  The tool [delete_memory] always answers with a text and never
    raises.  Before the store is initialised the answer says so and the
    store is not touched.  Afterwards, with the three arguments given: on
    a healthy engine the answer is that the memory was deleted, whether or
    not a memory of that id exists; when the engine fails in
    [collection.delete] the answer is that the deletion failed; when the
    engine fails while the partition is resolved the answer is the text of
    the error.  With an argument missing, the answer is the text of a
    [KeyError], and the store is not touched. *)
Theorem delete_tool_always_answers str_exn (arguments : gmap string string) w :
  (forall initialized, exists text,
      (call_tool_delete_memory initialized str_exn arguments w).1 = Return text) /\
  call_tool_delete_memory false str_exn arguments w
  = (Return "Error: Memory store not initialized", w) /\
  (forall p a id,
      arguments !! "project_id" = Some p ->
      arguments !! "agent_id" = Some a ->
      arguments !! "memory_id" = Some id ->
      (faults w = [] ->
       (call_tool_delete_memory true str_exn arguments w).1
       = Return ("Memory '" +:+ id +:+ "' deleted successfully.")) /\
      (forall fs, faults w = false :: true :: fs ->
       (call_tool_delete_memory true str_exn arguments w).1
       = Return ("Failed to delete memory '" +:+ id +:+ "'.")) /\
      (forall fs, faults w = true :: fs ->
       (call_tool_delete_memory true str_exn arguments w).1
       = Return ("Error executing delete_memory: " +:+ str_exn EngineError))) /\
  (forall key,
      key ∈ ["project_id"; "agent_id"; "memory_id"] ->
      arguments !! key = None ->
      exists key',
        arguments !! key' = None /\
        call_tool_delete_memory true str_exn arguments w
        = (Return ("Error executing delete_memory: " +:+ str_exn (KeyError key')), w)).
Proof.
  split_and!.
  - intros [|]; [|by eexists].
    unfold call_tool_delete_memory, try_except.
    change (negb true) with false. cbv beta iota.
    match goal with
    | |- context [let (_, _) := ?m in _] =>
        destruct m as [[text|e] w1]; by eexists
    end.
  - done.
  - intros p a id Hp Ha Hid.
    unfold call_tool_delete_memory, try_except.
    change (negb true) with false. cbv beta iota.
    rewrite (bind_getitem_Some _ _ _ _ _ Hp), (bind_getitem_Some _ _ _ _ _ Ha),
      (bind_getitem_Some _ _ _ _ _ Hid).
    split_and!.
    + intros Hf. unfold bind at 1.
      destruct (delete_memory_healthy p a id w Hf) as (w1 & -> & _).
      by rewrite (bind_getitem_Some _ _ _ _ _ Hid).
    + intros fs Hf. unfold bind at 1.
      pose proof (delete_memory_delete_fault p a id w fs Hf) as Hdel.
      destruct (delete_memory p a id w) as [[b|e] w1]; simpl in Hdel; [|done].
      inversion Hdel; subst b. by rewrite (bind_getitem_Some _ _ _ _ _ Hid).
    + intros fs Hf. unfold bind at 1.
      by rewrite (delete_memory_resolution_fault p a id w fs Hf).
  - intros key Hkey Hnone.
    unfold call_tool_delete_memory, try_except.
    change (negb true) with false. cbv beta iota.
    destruct (arguments !! "project_id") as [p|] eqn:Hp;
      [rewrite (bind_getitem_Some _ _ _ _ _ Hp)
      |rewrite (bind_getitem_None _ _ _ _ Hp); by eexists].
    destruct (arguments !! "agent_id") as [a|] eqn:Ha;
      [rewrite (bind_getitem_Some _ _ _ _ _ Ha)
      |rewrite (bind_getitem_None _ _ _ _ Ha); by eexists].
    destruct (arguments !! "memory_id") as [id|] eqn:Hid;
      [|rewrite (bind_getitem_None _ _ _ _ Hid); by eexists].
    exfalso. repeat (apply elem_of_cons in Hkey as [->|Hkey]; [congruence|]).
    by apply elem_of_nil in Hkey.
Qed.

End DeleteToolProps.
